(** * Random-Challenge: the metric library, the transition matrices and
      features, the bounds comparator and the deviation reporter, embedded
      and verified.

    Python floats are idealised: the values the comparator handles are
    exact rationals ([Q]), the entropy of [redundancy] is a real number
    ([R]); rounding is not modelled.  The values of a record are the
    Python floats that [extract_statistical_metrics] builds with
    [float()]: numpy scalars, NaN and the infinities are not values of a
    record here.  Python exceptions are kept: a function that can raise
    returns a value of [res], and the division of two Python floats
    raises [ZeroDivisionError] on a zero divisor.  The functions take
    lists of ints; the conversion of a string of digits at their entry is
    left out.  The module-level generator of [random] is state that the
    phase lengths pass along.  A dict is a [gmap] where it is looked up by
    key, and the list of its items where its order or its values as a
    whole matter; a DataFrame of one row is the [gmap] of its columns. *)

From Stdlib Require Import ZArith QArith Qabs Qreals Reals Lra List Lia Ascii String.
From Stdlib Require Lqa.
From stdpp Require Import gmap strings list pretty.

Open Scope string_scope.
Open Scope list_scope.

(** ** Python exceptions *)

Inductive exn : Type :=
| KeyError
| ZeroDivisionError
| IndexError
| ValueError.

Inductive res (A : Type) : Type :=
| Ok (a : A)
| Raise (e : exn).

Arguments Ok {A} a.
Arguments Raise {A} e.

(** The error monad: [x ← m; k] runs [k] on the value of [m] and passes an
    exception on. *)
#[global] Instance res_ret : MRet res := fun A a => Ok a.

#[global] Instance res_bind : MBind res := fun A B k m =>
  match m with
  | Ok a => k a
  | Raise e => Raise e
  end.

(** [sequence[i]] on a Python list, for an index that is not negative. *)
Definition py_index (sequence : list Z) (i : nat) : res Z :=
  match sequence !! i with
  | Some x => Ok x
  | None => Raise IndexError
  end.

Ltac unfold_res := unfold mbind, res_bind, mret, res_ret in *.

(** [a / b] on Python floats. *)
Definition py_div (a b : Q) : res Q :=
  if Qeq_bool b 0 then Raise ZeroDivisionError else Ok (a / b)%Q.

(** * checker/randomness_checker.py *)

Module Checker.

(** One row of the bounds table (a row of the DataFrame). *)
Record BoundsEntry : Type := {
  metric : string;
  expected_mean : Q;
  expected_std : Q;
  bound_95_lower : Q;
  bound_95_upper : Q;
  bound_99_lower : Q;
  bound_99_upper : Q;
  interpretation : string
}.

(** The DataFrame, row by row in the order of [iterrows]. *)
Definition BoundsTable : Type := list BoundsEntry.

(** [row[bound_col + 'lower']] with [bound_col = f'bound_{confidence_level}_']:
    the table has the columns of the levels 95 and 99 only. *)
Definition row_lower (confidence_level : Z) (row : BoundsEntry) : res Q :=
  if (confidence_level =? 95)%Z then Ok (bound_95_lower row)
  else if (confidence_level =? 99)%Z then Ok (bound_99_lower row)
  else Raise KeyError.

Definition row_upper (confidence_level : Z) (row : BoundsEntry) : res Q :=
  if (confidence_level =? 95)%Z then Ok (bound_95_upper row)
  else if (confidence_level =? 99)%Z then Ok (bound_99_upper row)
  else Raise KeyError.

(** An entry of [within_bounds]. *)
Record WithinEntry : Type := {
  w_metric : string;
  w_value : Q;
  w_expected_range : Q * Q;
  distance_from_mean : Q
}.

(** An entry of [outliers]. *)
Record OutlierEntry : Type := {
  o_metric : string;
  o_value : Q;
  o_expected_range : Q * Q;
  distance_from_bound : Q;
  relative_distance : Q;
  direction : string;
  severity : string;
  std_distance : Q;
  o_interpretation : string
}.

(** The three lists the loop appends to. *)
Record Lists : Type := {
  l_outliers : list OutlierEntry;
  l_within_bounds : list WithinEntry;
  l_missing_metrics : list string
}.

Definition no_lists : Lists :=
  {| l_outliers := []; l_within_bounds := []; l_missing_metrics := [] |}.

(** [row['expected_mean'] if row['expected_mean'] > 0 else 1] *)
Definition mean_or_one (row : BoundsEntry) : Q :=
  if Qlt_le_dec 0 (expected_mean row) then expected_mean row else 1%Q.

Definition classify_severity (relative_distance : Q) : string :=
  if Qlt_le_dec 1.0 relative_distance then "extreme"
  else if Qlt_le_dec 0.5 relative_distance then "high"
  else "moderate".

(** The body of [for _, row in bounds_table.iterrows()]. *)
Definition loop_body (test_metrics : gmap string Q) (confidence_level : Z)
    (acc : Lists) (row : BoundsEntry) : res Lists :=
  match test_metrics !! metric row with
  | None =>
      Ok {| l_outliers := l_outliers acc;
            l_within_bounds := l_within_bounds acc;
            l_missing_metrics := l_missing_metrics acc ++ [metric row] |}
  | Some value =>
      lower ← row_lower confidence_level row;
      upper ← row_upper confidence_level row;
      if Qle_bool lower value && Qle_bool value upper then
        d ← py_div (Qabs (value - expected_mean row)) (expected_std row);
        Ok {| l_outliers := l_outliers acc;
              l_within_bounds := l_within_bounds acc ++
                [ {| w_metric := metric row;
                     w_value := value;
                     w_expected_range := (lower, upper);
                     distance_from_mean := d |} ];
              l_missing_metrics := l_missing_metrics acc |}
      else
        let '(dist, rel, dir) :=
          if Qlt_le_dec value lower then
            ((lower - value)%Q, ((lower - value) / mean_or_one row)%Q, "below")
          else
            ((value - upper)%Q, ((value - upper) / mean_or_one row)%Q, "above") in
        let sev := classify_severity rel in
        d ← py_div (Qabs (value - expected_mean row)) (expected_std row);
        Ok {| l_outliers := l_outliers acc ++
                [ {| o_metric := metric row;
                     o_value := value;
                     o_expected_range := (lower, upper);
                     distance_from_bound := dist;
                     relative_distance := rel;
                     direction := dir;
                     severity := sev;
                     std_distance := d;
                     o_interpretation := interpretation row |} ];
              l_within_bounds := l_within_bounds acc;
              l_missing_metrics := l_missing_metrics acc |}
  end.

Fixpoint iterrows (test_metrics : gmap string Q) (confidence_level : Z)
    (rows : BoundsTable) (acc : Lists) : res Lists :=
  match rows with
  | [] => Ok acc
  | row :: rest =>
      acc' ← loop_body test_metrics confidence_level acc row;
      iterrows test_metrics confidence_level rest acc'
  end.

(** The [if] / [elif] chain on [randomness_score]. *)
Definition assess (randomness_score : Q) : string :=
  if Qlt_le_dec 0.90 randomness_score then "highly_likely_random"
  else if Qlt_le_dec 0.80 randomness_score then "likely_random"
  else if Qlt_le_dec 0.70 randomness_score then "possibly_random"
  else if Qlt_le_dec 0.50 randomness_score then "possibly_non_random"
  else "likely_non_random".

Definition is_severe (o : OutlierEntry) : bool :=
  String.eqb (severity o) "high" || String.eqb (severity o) "extreme".

(** The returned dict. *)
Record AnalysisResult : Type := {
  randomness_score : Q;
  assessment : string;
  confidence_level_used : Z;
  total_metrics_tested : nat;
  within_bounds_count : nat;
  outlier_count : nat;
  severe_outlier_count : nat;
  missing_metrics_count : nat;
  outliers : list OutlierEntry;
  within_bounds : list WithinEntry;
  missing_metrics : list string
}.

(** [len(a) / b] on Python ints, guarded by [b > 0]. *)
Definition score_of (within_n total : nat) : Q :=
  if (0 <? total)%nat
  then (inject_Z (Z.of_nat within_n) / inject_Z (Z.of_nat total))%Q
  else 0%Q.

(** [check_sequence_randomness], called with a bounds table (the default
    [None] reads the table from a file first). *)
Definition check_sequence_randomness (test_metrics : gmap string Q)
    (bounds_table : BoundsTable) (confidence_level : Z) : res AnalysisResult :=
  ls ← iterrows test_metrics confidence_level bounds_table no_lists;
  let total_tested := (length (l_within_bounds ls) + length (l_outliers ls))%nat in
  let score := score_of (length (l_within_bounds ls)) total_tested in
  Ok {| randomness_score := score;
        assessment := assess score;
        confidence_level_used := confidence_level;
        total_metrics_tested := total_tested;
        within_bounds_count := length (l_within_bounds ls);
        outlier_count := length (l_outliers ls);
        severe_outlier_count := length (List.filter is_severe (l_outliers ls));
        missing_metrics_count := length (l_missing_metrics ls);
        outliers := l_outliers ls;
        within_bounds := l_within_bounds ls;
        missing_metrics := l_missing_metrics ls |}.

End Checker.

(** * exported_classifier/trans/lib/transition_probs.py *)

Module Transition.

(** A float64 cell: a finite value, or one of the three special values. *)
Inductive npfloat : Type :=
| Finite (q : Q)
| NaN
| PosInf
| NegInf.

(** The largest finite float64, [(2^53 - 1) * 2^971]. *)
Definition float_max : Q := inject_Z ((2 ^ 53 - 1) * 2 ^ 971).

(** [np.nan_to_num] on one cell. *)
Definition nan_to_num (x : npfloat) : npfloat :=
  match x with
  | Finite q => Finite q
  | NaN => Finite 0
  | PosInf => Finite float_max
  | NegInf => Finite (- float_max)
  end.

(** An index into an axis of length [n] of a numpy array: a negative index
    counts from the end, an index outside [-n, n) raises. *)
Definition np_index (n : nat) (i : Z) : res nat :=
  if (0 <=? i)%Z && (i <? Z.of_nat n)%Z then Ok (Z.to_nat i)
  else if (- Z.of_nat n <=? i)%Z && (i <? 0)%Z then Ok (Z.to_nat (i + Z.of_nat n))
  else Raise IndexError.

(** [np.zeros((base, base), dtype=int)] *)
Definition np_zeros (base : nat) : list (list Z) :=
  replicate base (replicate base 0%Z).

(** [transitions[r, c] += 1] for indices in range. *)
Definition increment (transitions : list (list Z)) (r c : nat) : list (list Z) :=
  match transitions !! r with
  | Some row =>
      match row !! c with
      | Some n => <[r := <[c := (n + 1)%Z]> row]> transitions
      | None => transitions
      end
  | None => transitions
  end.

(** The body of [for i in range(len(sequence) - step)]. *)
Definition count_body (sequence : list Z) (step base : nat)
    (transitions : list (list Z)) (i : nat) : res (list (list Z)) :=
  from_digit ← py_index sequence i;
  to_digit ← py_index sequence (i + step);
  r ← np_index base from_digit;
  c ← np_index base to_digit;
  Ok (increment transitions r c).

Fixpoint count_loop (sequence : list Z) (step base : nat)
    (indices : list nat) (transitions : list (list Z)) : res (list (list Z)) :=
  match indices with
  | [] => Ok transitions
  | i :: rest =>
      transitions' ← count_body sequence step base transitions i;
      count_loop sequence step base rest transitions'
  end.

Definition count_transitions (sequence : list Z) (step base : nat) : res (list (list Z)) :=
  count_loop sequence step base (seq 0 (length sequence - step)) (np_zeros base).

Definition Zsum (l : list Z) : Z := fold_right Z.add 0%Z l.

Section Divide.

(** What the memory of the freshly allocated output array of [np.divide]
    holds, cell by cell: the call passes [where=] and no [out=], so the
    cells the mask excludes are never written. *)
Variable uninitialized : nat -> nat -> npfloat.

(** [np.divide(transitions, row_sums, where=row_sums != 0)], one row. *)
Definition divide_row (i : nat) (row : list Z) : list npfloat :=
  let row_sum := Zsum row in
  imap (fun j count =>
          if (row_sum =? 0)%Z then uninitialized i j
          else Finite (inject_Z count / inject_Z row_sum)%Q) row.

Definition np_divide_where (transitions : list (list Z)) : list (list npfloat) :=
  imap divide_row transitions.

Definition calculate_transition_matrix (sequence : list Z) (step base : nat)
    : res (list (list npfloat)) :=
  transitions ← count_transitions sequence step base;
  let probabilities := np_divide_where transitions in
  Ok (map (map nan_to_num) probabilities).

End Divide.

End Transition.

(** * exported_classifier/stat/lib/metrics.py *)

Module Metrics.

(** [range(base)] *)
Definition py_range (base : Z) : list Z :=
  map Z.of_nat (seq 0 (Z.to_nat base)).

(** [statistics.mean] of a list of ints that is not empty. *)
Definition py_mean (data : list nat) : Q :=
  (inject_Z (Z.of_nat (list_sum data)) / inject_Z (Z.of_nat (length data)))%Q.

(** [statistics.stdev]: the square root of the sample variance. *)
Definition py_stdev (data : list nat) : R :=
  let m := py_mean data in
  let ss := fold_right Qplus 0%Q
              (map (fun x => ((inject_Z (Z.of_nat x) - m) * (inject_Z (Z.of_nat x) - m))%Q) data) in
  sqrt (Q2R (ss / inject_Z (Z.of_nat (length data - 1)))).

(** ** [coupon] *)

(** [has_all(t)]: [all(i in t for i in d)] with [d = range(base)]. *)
Definition has_all (base : Z) (t : list Z) : bool :=
  forallb (fun i => existsb (Z.eqb i) t) (py_range base).

(** [for j in range(len(z) - i)]: [Some (j + 1)] at the [break], [None] when
    the loop runs to its end. *)
Fixpoint coupon_inner (z : list Z) (base : Z) (i : nat) (js : list nat)
    (tmp : list Z) : res (option nat) :=
  match js with
  | [] => Ok None
  | j :: js' =>
      x ← py_index z (i + j);
      let tmp' := tmp ++ [x] in
      if has_all base tmp' then Ok (Some (j + 1)%nat)
      else coupon_inner z base i js' tmp'
  end.

(** [for i in range(len(z))], with the list [res] it appends to. *)
Fixpoint coupon_outer (z : list Z) (base : Z) (indices : list nat)
    (lengths : list nat) : res (list nat) :=
  match indices with
  | [] => Ok lengths
  | i :: rest =>
      found ← coupon_inner z base i (seq 0 (length z - i)) [];
      coupon_outer z base rest
        match found with
        | Some n => lengths ++ [n]
        | None => lengths
        end
  end.

(** The list [res] of [coupon] after its loops. *)
Definition coupon_lengths (z : list Z) (base : Z) : res (list nat) :=
  coupon_outer z base (seq 0 (length z)) [].

Record MeanStd : Type := {
  mean : Q;
  std : R
}.

Definition coupon (z : list Z) (base : Z) : res MeanStd :=
  lengths ← coupon_lengths z base;
  match lengths with
  | [] => Ok {| mean := inject_Z (Z.of_nat (length z + 1));
                std := INR (length z + 1) |}
  | _ :: _ =>
      Ok {| mean := py_mean lengths;
            std := if (1 <? length lengths)%nat then py_stdev lengths else 0%R |}
  end.

(** ** [redundancy] *)

(** [Counter(z)]: each value with its number of occurrences, in the order
    the values first occur. *)
Fixpoint counter_add (x : Z) (freq : list (Z * nat)) : list (Z * nat) :=
  match freq with
  | [] => [(x, 1%nat)]
  | (y, c) :: rest =>
      if (x =? y)%Z then (y, S c) :: rest else (y, c) :: counter_add x rest
  end.

Definition Counter (z : list Z) : list (Z * nat) :=
  fold_left (fun freq x => counter_add x freq) z [].

(** [math.log2] of a positive real. *)
Definition log2 (x : R) : R := (ln x / ln 2)%R.

Definition Rsum (l : list R) : R := fold_right Rplus 0%R l.

(** [-sum((c/n) * math.log2(c/n) for c in freq.values())] *)
Definition entropy_of (freq : list (Z * nat)) (n : nat) : R :=
  (- Rsum (map (fun c : nat => INR c / INR n * log2 (INR c / INR n)) (map snd freq)))%R.

(** [redundancy]: [math.log2(base)] raises [ValueError] unless [base] is
    positive, and the division raises when [max_entropy] is zero. *)
Definition redundancy (z : list Z) (base : Z) : res R :=
  let n := length z in
  if (n =? 0)%nat then Ok 0%R
  else
    let freq := Counter z in
    let entropy := entropy_of freq n in
    if (base <=? 0)%Z then Raise ValueError
    else
      let max_entropy := log2 (IZR base) in
      if Req_dec_T max_entropy 0 then Raise ZeroDivisionError
      else Ok (1 - entropy / max_entropy)%R.

End Metrics.

(** * The [random] module of CPython: MT19937, as [_randommodule.c] and
      [random.py] have it *)

Module Random.

Definition N : nat := 624.
Definition M : nat := 397.
Definition MATRIX_A : Z := 0x9908b0df.
Definition UPPER_MASK : Z := 0x80000000.
Definition LOWER_MASK : Z := 0x7fffffff.

(** A [uint32_t] result: arithmetic wraps at 32 bits, which keeps the low
    32 bits of the two's complement. *)
Definition u32 (x : Z) : Z := Z.land x 0xffffffff.

(** The generator: the array [state] and the position [index] in it. *)
Record rng : Type := {
  state : list Z;
  index : nat
}.

(** [mt[i]] of the C array. *)
Definition word (mt : list Z) (i : nat) : Z := nth i mt 0%Z.

(** The loop of [init_genrand], from [mti] on. *)
Fixpoint init_genrand_loop (count : nat) (mti : Z) (previous : Z) : list Z :=
  match count with
  | O => []
  | S count' =>
      let x := u32 (1812433253 * Z.lxor previous (Z.shiftr previous 30) + mti) in
      x :: init_genrand_loop count' (mti + 1) x
  end.

Definition init_genrand (s : Z) : list Z :=
  u32 s :: init_genrand_loop (N - 1) 1 (u32 s).

(** The first loop of [init_by_array]. *)
Fixpoint init_by_array_mix (k : nat) (init_key : list Z) (mt : list Z)
    (i j : nat) : list Z * nat :=
  match k with
  | O => (mt, i)
  | S k' =>
      let previous := word mt (i - 1) in
      let v := u32 (Z.lxor (word mt i)
                      (u32 (Z.lxor previous (Z.shiftr previous 30) * 1664525))
                    + word init_key j + Z.of_nat j) in
      let mt := <[i := v]> mt in
      let i := (i + 1)%nat in
      let j := (j + 1)%nat in
      let '(mt, i) :=
        if (N <=? i)%nat then (<[0%nat := word mt (N - 1)]> mt, 1%nat) else (mt, i) in
      let j := if (length init_key <=? j)%nat then 0%nat else j in
      init_by_array_mix k' init_key mt i j
  end.

(** The second loop of [init_by_array]. *)
Fixpoint init_by_array_finish (k : nat) (mt : list Z) (i : nat) : list Z :=
  match k with
  | O => mt
  | S k' =>
      let previous := word mt (i - 1) in
      let v := u32 (Z.lxor (word mt i)
                      (u32 (Z.lxor previous (Z.shiftr previous 30) * 1566083941))
                    - Z.of_nat i) in
      let mt := <[i := v]> mt in
      let i := (i + 1)%nat in
      let '(mt, i) :=
        if (N <=? i)%nat then (<[0%nat := word mt (N - 1)]> mt, 1%nat) else (mt, i) in
      init_by_array_finish k' mt i
  end.

Definition init_by_array (init_key : list Z) : rng :=
  let mt := init_genrand 19650218 in
  let '(mt, i) := init_by_array_mix (Nat.max N (length init_key)) init_key mt 1 0 in
  let mt := init_by_array_finish (N - 1) mt i in
  {| state := <[0%nat := 0x80000000%Z]> mt; index := N |}.

(** The 32-bit digits of a natural number, the lowest first; one digit at
    least. *)
Fixpoint key_words (fuel : nat) (n : Z) : list Z :=
  match fuel with
  | O => [u32 n]
  | S fuel' =>
      if (n <? 2 ^ 32)%Z then [n]
      else u32 n :: key_words fuel' (Z.shiftr n 32)
  end.

(** [random.seed(a)] for an int [a]: the key is the absolute value. *)
Definition seed (a : Z) : rng :=
  let n := Z.abs a in
  init_by_array (key_words (Z.to_nat (Z.log2 n)) n).

Definition mag01 (y : Z) : Z :=
  if Z.testbit y 0 then MATRIX_A else 0%Z.

(** One step of the regeneration: [mt[kk]] from [mt[kk]], [mt[next]] and
    [mt[far]]. *)
Definition twist (mt : list Z) (kk next far : nat) : list Z :=
  let y := Z.lor (Z.land (word mt kk) UPPER_MASK) (Z.land (word mt next) LOWER_MASK) in
  <[kk := Z.lxor (Z.lxor (word mt far) (Z.shiftr y 1)) (mag01 y)]> mt.

(** "generate N words at one time" *)
Definition regenerate (mt : list Z) : list Z :=
  let mt := fold_left (fun mt kk => twist mt kk (kk + 1) (kk + M)) (seq 0 (N - M)) mt in
  let mt := fold_left (fun mt kk => twist mt kk (kk + 1) (kk + M - N)) (seq (N - M) (M - 1)) mt in
  twist mt (N - 1) 0 (M - 1).

Definition temper (y : Z) : Z :=
  let y := Z.lxor y (Z.shiftr y 11) in
  let y := Z.lxor y (Z.land (u32 (Z.shiftl y 7)) 0x9d2c5680) in
  let y := Z.lxor y (Z.land (u32 (Z.shiftl y 15)) 0xefc60000) in
  Z.lxor y (Z.shiftr y 18).

Definition genrand_uint32 (s : rng) : Z * rng :=
  let '(mt, i) :=
    if (N <=? index s)%nat then (regenerate (state s), 0%nat)
    else (state s, index s) in
  (temper (word mt i), {| state := mt; index := S i |}).

(** The words of [getrandbits(k)] for [k > 32], the lowest first. *)
Fixpoint getrandbits_words (words : nat) (k : Z) (shift : Z) (acc : Z) (s : rng)
    : Z * rng :=
  match words with
  | O => (acc, s)
  | S words' =>
      let '(r, s) := genrand_uint32 s in
      let r := if (k <? 32)%Z then Z.shiftr r (32 - k) else r in
      getrandbits_words words' (k - 32) (shift + 32) (Z.lor acc (Z.shiftl r shift)) s
  end.

(** [getrandbits(k)]: a negative [k] raises, 0 bits are 0. *)
Definition getrandbits (k : Z) (s : rng) : res Z * rng :=
  if (k <? 0)%Z then (Raise ValueError, s)
  else if (k =? 0)%Z then (Ok 0%Z, s)
  else if (k <=? 32)%Z then
    let '(r, s) := genrand_uint32 s in (Ok (Z.shiftr r (32 - k)), s)
  else
    let '(r, s) := getrandbits_words (Z.to_nat ((k - 1) / 32 + 1)) k 0 0 s in
    (Ok r, s).

(** [n.bit_length()] for a positive [n]. *)
Definition bit_length (n : Z) : Z := (Z.log2 n + 1)%Z.

End Random.

(** * metrics.py, the phase lengths: code that draws from the generator *)

Module PhaseLength.
Import Random.

(** What a call that uses the module-level generator does: it returns a
    value or raises, and leaves the generator in a new state.  The
    rejection loop of [_randbelow] has no bound on its iterations;
    [OutOfFuel] is a loop cut after [fuel] draws. *)
Inductive outcome (A : Type) : Type :=
| Returns (a : A) (s : rng)
| Raises (e : exn) (s : rng)
| OutOfFuel.

Arguments Returns {A} a s.
Arguments Raises {A} e s.
Arguments OutOfFuel {A}.

Definition andThen {A B : Type} (m : rng -> outcome A) (k : A -> rng -> outcome B)
    (s : rng) : outcome B :=
  match m s with
  | Returns a s' => k a s'
  | Raises e s' => Raises e s'
  | OutOfFuel => OutOfFuel
  end.

Notation "'draw' x 'from' m ; k" := (andThen m (fun x => k))
  (at level 10, x name, m at level 100, k at level 200).

(** [r = getrandbits(k)] and [while r >= n: r = getrandbits(k)] *)
Fixpoint randbelow_loop (fuel : nat) (k n : Z) (s : rng) : outcome Z :=
  match fuel with
  | O => OutOfFuel
  | S fuel' =>
      match getrandbits k s with
      | (Ok r, s') =>
          if (n <=? r)%Z then randbelow_loop fuel' k n s' else Returns r s'
      | (Raise e, s') => Raises e s'
      end
  end.

(** [_randbelow_with_getrandbits(n)] *)
Definition _randbelow (fuel : nat) (n : Z) (s : rng) : outcome Z :=
  randbelow_loop fuel (bit_length n) n s.

(** [random.randint(a, b)], that is [randrange(a, b + 1)]. *)
Definition randint (fuel : nat) (a b : Z) (s : rng) : outcome Z :=
  let width := (b + 1 - a)%Z in
  if (0 <? width)%Z then
    (draw r from _randbelow fuel width; Returns (a + r)%Z) s
  else Raises ValueError s.

(** The generator right after the import of the module: [random.seed(42)]. *)
Definition seeded : rng := seed 42.

Definition _extract_tp_indices (z : list Z) : list nat :=
  let diff := map (fun i => (nth (i + 1) z 0 - nth i z 0)%Z) (seq 0 (length z - 1)) in
  let diff := List.filter (fun d => negb (d =? 0)%Z) diff in
  List.filter (fun i => (nth (i - 1) diff 0 * nth i diff 0 <? 0)%Z)
    (seq 1 (length diff - 1)).

(** The number of [i] in [range(1, len(tp_indices))] whose gap is [d]. *)
Definition count_gaps (tp_indices : list nat) (d : Z) : nat :=
  length (List.filter
            (fun i => (Z.of_nat (nth i tp_indices 0%nat) -
                       Z.of_nat (nth (i - 1) tp_indices 0%nat) =? d)%Z)
            (seq 1 (length tp_indices - 1))).

(** [[random.randint(0, base - 1) for _ in range(m)]] *)
Fixpoint rand_seq (fuel : nat) (base : Z) (m : nat) (s : rng) : outcome (list Z) :=
  match m with
  | O => Returns [] s
  | S m' =>
      (draw x from randint fuel 0 (base - 1);
       draw xs from rand_seq fuel base m';
       Returns (x :: xs)) s
  end.

(** [for _ in range(num_trials)], with the [total] so far. *)
Fixpoint trials (fuel : nat) (m : nat) (d : Z) (base : Z) (num_trials : nat)
    (total : nat) (s : rng) : outcome nat :=
  match num_trials with
  | O => Returns total s
  | S num_trials' =>
      (draw rand_seq from rand_seq fuel base m;
       let tp_indices := _extract_tp_indices rand_seq in
       let count := count_gaps tp_indices d in
       trials fuel m d base num_trials' (total + count)) s
  end.

Definition _empirical_expected_pl (fuel : nat) (m : nat) (d : Z) (num_trials : nat)
    (base : Z) (s : rng) : outcome Q :=
  (draw total from trials fuel m d base num_trials 0;
   if (num_trials =? 0)%nat then Raises ZeroDivisionError
   else Returns (inject_Z (Z.of_nat total) / inject_Z (Z.of_nat num_trials))%Q) s.

Definition _pl_d (fuel : nat) (z : list Z) (d : Z) (base : Z) (s : rng) : outcome Q :=
  let m := length z in
  if (Z.of_nat m <? d + 3)%Z then Returns 0%Q s
  else
    let tp_indices := _extract_tp_indices z in
    let observed := count_gaps tp_indices d in
    (draw expected from _empirical_expected_pl fuel m d 1000 base;
     if Qlt_le_dec 0 expected
     then Returns (inject_Z (Z.of_nat observed) / expected)%Q
     else Returns 0%Q) s.

Definition pl1 (fuel : nat) (z : list Z) (base : Z) := _pl_d fuel z 1 base.
Definition pl2 (fuel : nat) (z : list Z) (base : Z) := _pl_d fuel z 2 base.
Definition pl3 (fuel : nat) (z : list Z) (base : Z) := _pl_d fuel z 3 base.
Definition pl4 (fuel : nat) (z : list Z) (base : Z) := _pl_d fuel z 4 base.
Definition pl5 (fuel : nat) (z : list Z) (base : Z) := _pl_d fuel z 5 base.

End PhaseLength.

(** * local_server.py: the deviation reporter *)

Module Server.

(** An entry of [report['outliers']]; of its keys the suggestions read
    ['metric'] and ['deviation_type'] only.  Metric names are ASCII, so a
    character of a name is a byte of the string. *)
Record OutlierInfo : Type := {
  metric : string;
  deviation_type : string
}.

(** [s.split(sep)] *)
Fixpoint split_on (sep : ascii) (s : string) : list string :=
  match s with
  | EmptyString => [EmptyString]
  | String c rest =>
      match split_on sep rest with
      | [] => []
      | part :: parts =>
          if Ascii.eqb c sep then EmptyString :: part :: parts
          else String c part :: parts
      end
  end.

(** [o['metric'].split('_')[1]] *)
Definition digit_of (o : OutlierInfo) : res string :=
  match split_on "_"%char (metric o) with
  | _ :: digit :: _ => Ok digit
  | _ => Raise IndexError
  end.

(** [o['metric'][2]] *)
Definition phase_of (o : OutlierInfo) : res string :=
  match String.get 2 (metric o) with
  | Some c => Ok (String c EmptyString)
  | None => Raise IndexError
  end.

(** A list comprehension whose expression can raise. *)
Fixpoint comprehension {A B : Type} (f : A -> res B) (l : list A) : res (list B) :=
  match l with
  | [] => Ok []
  | x :: rest =>
      y ← f x;
      ys ← comprehension f rest;
      Ok (y :: ys)
  end.

Definition startswith (prefix s : string) : bool := String.prefix prefix s.

Definition is_in (names : list string) (s : string) : bool :=
  existsb (String.eqb s) names.

Definition has_type (t : string) (o : OutlierInfo) : bool :=
  String.eqb (deviation_type o) t.

(** The suggestion built under [if len(freq_outliers) > 3]. *)
Definition digit_bias_suggestion (freq_outliers : list OutlierInfo) : res string :=
  favorite_digits ← comprehension digit_of (List.filter (has_type "high") freq_outliers);
  avoided_digits ← comprehension digit_of (List.filter (has_type "low") freq_outliers);
  let suggestion := "🎯 数字の使用に強い偏りがあります。" in
  let suggestion :=
    match favorite_digits with
    | [] => suggestion
    | _ => suggestion +:+ " 数字" +:+ String.concat "," favorite_digits +:+ "を多用し、"
    end in
  let suggestion :=
    match avoided_digits with
    | [] => suggestion
    | _ => suggestion +:+ " 数字" +:+ String.concat "," avoided_digits +:+ "を避ける傾向があります。"
    end in
  Ok (suggestion +:+ " 好き嫌いを意識せず、全ての数字を平等に扱ってください。").

Definition pattern_suggestion : string :=
  "🔄 複数の規則的パターンが検出されています。「ランダムらしく見せよう」と意識せず、純粋に頭に浮かんだ数字をそのまま入力してください。".

Definition dependency_suggestion : string :=
  "🔗 前の選択が次の選択に影響しています。数字を選ぶ時は、これまでに何を選んだかを完全に忘れ、毎回新鮮な気持ちで選んでください。".

Definition variation_suggestion : string :=
  "📊 数字の変動パターンに偏りがあります。意図的に大きく変化させたり、似た数字を続けたりせず、自然な選択を心がけてください。".

Definition redundancy_suggestion : string :=
  "🎲 情報の予測可能性が高すぎます。戦略的に考えずに、コインを投げるような純粋な偶然性で数字を選んでください。".

Definition collection_suggestion : string :=
  "📦 数字の収集効率に問題があります。特定の数字を無意識に避けている可能性があります。嫌いな数字も意識的に使ってください。".

(** The suggestion built under [if len(phase_outliers) >= 2]. *)
Definition phase_suggestion (phase_outliers : list OutlierInfo) : res string :=
  phases ← comprehension phase_of phase_outliers;
  Ok ("🔢 フェーズ長" +:+ String.concat "," phases +:+
      "に周期的パターンがあります。" +:+ pretty (length phases) +:+
      "種類の周期性が検出されているので、より不規則な選択を心がけてください。").

Definition default_suggestion : string :=
  "💡 統計的には軽微な偏りのみです。さらに改善するには、数字選択時に一切の意図や戦略を排除し、完全に無意識で選んでください。".

Definition freq_outliers_of (outliers : list OutlierInfo) : list OutlierInfo :=
  List.filter (fun o => startswith "freq_" (metric o)) outliers.

Definition pattern_outliers_of (outliers : list OutlierInfo) : list OutlierInfo :=
  List.filter (fun o => is_in ["adjacent"; "rp"; "pl1"; "pl2"; "pl3"] (metric o)) outliers.

Definition generate_improvement_suggestions (outliers : list OutlierInfo)
    : res (list string) :=
  let suggestions : list string := [] in
  let freq_outliers := freq_outliers_of outliers in
  suggestions ←
    (if (3 <? length freq_outliers)%nat then
       suggestion ← digit_bias_suggestion freq_outliers;
       Ok (suggestions ++ [suggestion])
     else Ok suggestions);
  let pattern_outliers := pattern_outliers_of outliers in
  let suggestions :=
    if (2 <=? length pattern_outliers)%nat
    then suggestions ++ [pattern_suggestion] else suggestions in
  let dependency_outliers :=
    List.filter (fun o => is_in ["autocorr_lag1"; "adjacent"; "repetition_gap_mean"] (metric o))
      outliers in
  let suggestions :=
    if (2 <=? length dependency_outliers)%nat
    then suggestions ++ [dependency_suggestion] else suggestions in
  let variation_outliers :=
    List.filter (fun o => is_in ["tpi"; "adjacent_diff_mean"; "adjacent_diff_std"] (metric o))
      outliers in
  let suggestions :=
    if (2 <=? length variation_outliers)%nat
    then suggestions ++ [variation_suggestion] else suggestions in
  let suggestions :=
    if existsb (fun o => String.eqb (metric o) "redundancy") outliers
    then suggestions ++ [redundancy_suggestion] else suggestions in
  let collection_outliers :=
    List.filter (fun o => startswith "coupon" (metric o)) outliers in
  let suggestions :=
    if (0 <? length collection_outliers)%nat
    then suggestions ++ [collection_suggestion] else suggestions in
  let phase_outliers := List.filter (fun o => startswith "pl" (metric o)) outliers in
  suggestions ←
    (if (2 <=? length phase_outliers)%nat then
       suggestion ← phase_suggestion phase_outliers;
       Ok (suggestions ++ [suggestion])
     else Ok suggestions);
  match suggestions with
  | [] => Ok [default_suggestion]
  | _ => Ok suggestions
  end.

End Server.

(** * metrics.py: the other metrics *)

Module MetricsMore.
Import Metrics.

(** ** [adjacent] *)

(** The body of [for i in range(n - 1)], on the pair [(up, down)]. *)
Definition adjacent_body (z : list Z) (counts : nat * nat) (i : nat) : nat * nat :=
  let '(up, down) := counts in
  if (nth (i + 1) z 0 =? nth i z 0 + 1)%Z then (S up, down)
  else if (nth (i + 1) z 0 =? nth i z 0 - 1)%Z then (up, S down)
  else (up, down).

Definition adjacent (z : list Z) : Q :=
  let n := length z in
  if (n <? 2)%nat then 0%Q
  else
    let '(up, down) := fold_left (adjacent_body z) (seq 0 (n - 1)) (0%nat, 0%nat) in
    (inject_Z (Z.of_nat (up + down)) / inject_Z (Z.of_nat (n - 1)))%Q.

(** ** [tpi] *)




(** ** [autocorr_lag1] *)

(** [statistics.mean] of a list of ints that is not empty. *)
Definition py_mean_Z (data : list Z) : Q :=
  (inject_Z (fold_right Z.add 0%Z data) / inject_Z (Z.of_nat (length data)))%Q.

Definition py_sum (l : list Q) : Q := fold_right Qplus 0%Q l.

Definition autocorr_lag1 (z : list Z) : Q :=
  let n := length z in
  if (n <? 2)%nat then 0%Q
  else
    let m_z := py_mean_Z z in
    let numerator :=
      py_sum (map (fun i => ((inject_Z (nth i z 0%Z) - m_z) *
                           (inject_Z (nth (i - 1) z 0%Z) - m_z))%Q)
                (seq 1 (n - 1))) in
    let denominator :=
      py_sum (map (fun v => ((inject_Z v - m_z) * (inject_Z v - m_z))%Q) z) in
    if Qeq_bool denominator 0 then 0%Q else (numerator / denominator)%Q.

(** ** [adjacent_diff_stats] *)

(** [[abs(z[i + 1] - z[i]) for i in range(len(z) - 1)]] *)
Definition abs_diffs (z : list Z) : list Z :=
  map (fun i => Z.abs (nth (i + 1) z 0 - nth i z 0)%Z) (seq 0 (length z - 1)).

(** [statistics.stdev] of a list of ints. *)
Definition py_stdev_Z (data : list Z) : R :=
  let m := py_mean_Z data in
  let ss := py_sum (map (fun x => ((inject_Z x - m) * (inject_Z x - m))%Q) data) in
  sqrt (Q2R (ss / inject_Z (Z.of_nat (length data - 1)))).

Record AdjacentDiffStats : Type := {
  adjacent_diff_mean : Q;
  adjacent_diff_std : R
}.

Definition adjacent_diff_stats (z : list Z) : AdjacentDiffStats :=
  if (length z <? 2)%nat then
    {| adjacent_diff_mean := 0; adjacent_diff_std := 0 |}
  else
    let diffs := abs_diffs z in
    {| adjacent_diff_mean := py_mean_Z diffs;
       adjacent_diff_std := if (1 <? length diffs)%nat then py_stdev_Z diffs else 0%R |}.

(** ** [rp] *)

(** [Counter] over keys of any type that has an equality test, and
    [freq.get(i, 0)]. *)
Section CounterOf.

Context {K : Type} (eqb : K -> K -> bool).

Fixpoint counter_add_of (x : K) (freq : list (K * nat)) : list (K * nat) :=
  match freq with
  | [] => [(x, 1%nat)]
  | (y, c) :: rest =>
      if eqb x y then (y, S c) :: rest else (y, c) :: counter_add_of x rest
  end.

Definition Counter_of (l : list K) : list (K * nat) :=
  fold_left (fun freq x => counter_add_of x freq) l [].

Fixpoint Counter_get (i : K) (freq : list (K * nat)) : nat :=
  match freq with
  | [] => 0%nat
  | (k, c) :: rest => if eqb i k then c else Counter_get i rest
  end.

End CounterOf.

Definition pair_eqb (p q : Z * Z) : bool :=
  (fst p =? fst q)%Z && (snd p =? snd q)%Z.

(** [[(z[i], z[i+1]) for i in range(m - 1)]] *)
Definition bigrams (z : list Z) : list (Z * Z) :=
  map (fun i => (nth i z 0%Z, nth (i + 1) z 0%Z)) (seq 0 (length z - 1)).

Definition rp (z : list Z) : Q :=
  let m := length z in
  if (m <? 2)%nat then 0%Q
  else
    let counts := Counter_of pair_eqb (bigrams z) in
    let nrs := list_sum (map (fun _ => 1%nat)
                           (List.filter (fun v => (v =? 1)%nat) (map snd counts))) in
    (1 - inject_Z (Z.of_nat nrs) / inject_Z (Z.of_nat (m - 1)))%Q.

(** ** [max_min_ratio] *)

(** A Python float that may be [float('inf')]. *)
Inductive pyfloat : Type :=
| Float (q : Q)
| Infinity.

(** [max] and [min] of a list of ints that is not empty. *)
Definition py_max (l : list nat) : nat :=
  match l with
  | [] => 0%nat
  | x :: rest => fold_left Nat.max rest x
  end.

Definition py_min (l : list nat) : nat :=
  match l with
  | [] => 0%nat
  | x :: rest => fold_left Nat.min rest x
  end.

Definition max_min_ratio (z : list Z) : pyfloat :=
  let freq := Counter z in
  match freq with
  | [] => Float 0
  | _ :: _ =>
      let max_f := py_max (map snd freq) in
      let min_f := py_min (map snd freq) in
      if (0 <? min_f)%nat
      then Float (inject_Z (Z.of_nat max_f) / inject_Z (Z.of_nat min_f))
      else Infinity
  end.

(** ** [digit_frequencies] *)

(** The dict the comprehension builds, as the list of its items in the
    order of [range(base)]. *)
Definition digit_frequencies (z : list Z) (base : Z) : list (string * Q) :=
  let n := length z in
  let freq := Counter z in
  map (fun i => ("freq_" +:+ pretty i,
                 if (0 <? n)%nat
                 then (inject_Z (Z.of_nat (Counter_get Z.eqb i freq)) / inject_Z (Z.of_nat n))%Q
                 else 0%Q))
      (py_range base).

(** ** [repetition_gap] *)

(** [{i: [] for i in d}] *)
Definition positions_init (base : Z) : list (Z * list nat) :=
  map (fun i => (i, [])) (py_range base).

(** [positions[val].append(idx)] *)
Definition positions_append (val : Z) (idx : nat) (positions : list (Z * list nat))
    : list (Z * list nat) :=
  map (fun entry => if (fst entry =? val)%Z then (fst entry, snd entry ++ [idx]) else entry)
      positions.

(** The body of [for idx, val in enumerate(z)]. *)
Definition positions_body (positions : list (Z * list nat)) (item : nat * Z)
    : list (Z * list nat) :=
  let '(idx, val) := item in
  if existsb (fun entry => (fst entry =? val)%Z) positions
  then positions_append val idx positions
  else positions.

Definition enumerate (z : list Z) : list (nat * Z) := combine (seq 0 (length z)) z.

Definition positions_of (z : list Z) (base : Z) : list (Z * list nat) :=
  fold_left positions_body (enumerate z) (positions_init base).

(** [indices[i] - indices[i - 1] for i in range(1, len(indices))] *)
Definition gaps_of (indices : list nat) : list Z :=
  map (fun i => (Z.of_nat (nth i indices 0%nat) - Z.of_nat (nth (i - 1) indices 0%nat))%Z)
      (seq 1 (length indices - 1)).

Definition gaps (z : list Z) (base : Z) : list Z :=
  concat (map (fun entry => gaps_of (snd entry)) (positions_of z base)).

Definition repetition_gap (z : list Z) (base : Z) : MeanStd :=
  let gaps := gaps z base in
  match gaps with
  | [] => {| mean := 0; std := 0 |}
  | _ :: _ =>
      {| mean := py_mean_Z gaps;
         std := if (1 <? length gaps)%nat then py_stdev_Z gaps else 0%R |}
  end.

End MetricsMore.

(** * local_server.py: the metrics handed to the checker, and the ranges *)

Module ServerMetrics.
Import Checker.

(** ** [get_required_metrics] of the checker *)

(** The bounds file as the call finds it: [None] when [pd.read_csv] raises
    [FileNotFoundError]. *)
Definition get_required_metrics (bounds : option BoundsTable) : list string :=
  match bounds with
  | Some bounds => map metric bounds
  | None =>
      ["redundancy"; "coupon_mean"; "coupon_std"; "repetition_gap_mean";
       "repetition_gap_std"; "adjacent"; "tpi"; "pl1"; "pl2"; "pl3"; "pl4"; "pl5";
       "rp"; "autocorr_lag1"; "adjacent_diff_mean"; "adjacent_diff_std";
       "max_min_ratio"; "freq_0"; "freq_1"; "freq_2"; "freq_3"; "freq_4";
       "freq_5"; "freq_6"; "freq_7"; "freq_8"; "freq_9"]
  end.

(** ** [extract_statistical_metrics] *)

(** [if col in features.columns: metrics[col] = float(features[col].iloc[0])],
    on a DataFrame of one row held as the value of each column. *)
Definition extract_column (features : gmap string Q) (metrics : gmap string Q)
    (col : string) : gmap string Q :=
  match features !! col with
  | Some v => <[col := v]> metrics
  | None => metrics
  end.

(** The columns of the twelve [if] statements, in their order. *)
Definition basic_columns : list string :=
  ["redundancy"; "coupon_mean"; "coupon_std"; "repetition_gap_mean";
   "repetition_gap_std"; "adjacent"; "tpi"; "autocorr_lag1";
   "adjacent_diff_mean"; "adjacent_diff_std"; "max_min_ratio"; "rp"].

Definition extract_statistical_metrics (features : gmap string Q) : gmap string Q :=
  let metrics := fold_left (extract_column features) basic_columns ∅ in
  let metrics :=
    fold_left (fun metrics i => extract_column features metrics ("pl" +:+ pretty i))
              (map Z.of_nat (seq 1 5)) metrics in
  fold_left (fun metrics i => extract_column features metrics ("freq_" +:+ pretty i))
            (Metrics.py_range 10) metrics.

(** ** [calculate_statistical_range] *)

(** The dict the call returns: each value is a float or [None]. *)
Record StatisticalRange : Type := {
  lower : option Q;
  upper : option Q;
  mean : option Q
}.

Definition non_normal_metrics : list string := ["pl3"; "pl4"; "pl5"; "max_min_ratio"].

Definition calculate_statistical_range (metric_name : string)
    (bounds_df : option BoundsTable) (confidence_level : Q) : StatisticalRange :=
  match bounds_df with
  | None => {| lower := None; upper := None; mean := None |}
  | Some bounds_df =>
      let metric_row :=
        List.filter (fun row => String.eqb (metric row) metric_name) bounds_df in
      match metric_row with
      | [] => {| lower := None; upper := None; mean := None |}
      | row :: _ =>
          let mean := expected_mean row in
          let std := expected_std row in
          let z_score :=
            if Qeq_bool confidence_level 0.95 then 1.96%Q
            else if Qeq_bool confidence_level 0.99 then 2.58%Q
            else 1.96%Q in
          if existsb (String.eqb metric_name) non_normal_metrics then
            {| lower := Some mean; upper := Some mean; mean := Some mean |}
          else
            let margin := (z_score * std)%Q in
            {| lower := Some (mean - margin)%Q;
               upper := Some (mean + margin)%Q;
               mean := Some mean |}
      end
  end.

End ServerMetrics.

(** * exported_classifier/calculate_features.py: the transition features *)

Module Features.
Import Transition.

(** [step_matrix[from_digit, to_digit]] for indices that are not negative. *)
Definition np_get (step_matrix : list (list npfloat)) (i j : nat) : res npfloat :=
  match step_matrix !! i with
  | Some row =>
      match row !! j with
      | Some x => Ok x
      | None => Raise IndexError
      end
  | None => Raise IndexError
  end.

(** [f'step{step}_trans_{from_digit}_to_{to_digit}'] *)
Definition feature_name (step from_digit to_digit : nat) : string :=
  "step" +:+ pretty step +:+ "_trans_" +:+ pretty from_digit +:+ "_to_" +:+ pretty to_digit.

(** The pairs [(from_digit, to_digit)] in the order of the two loops over
    [range(10)]. *)
Definition digit_pairs : list (nat * nat) := list_prod (seq 0 10) (seq 0 10).

Section Memory.

(** What the memory of the output array of the call for [step] holds. *)
Variable memory : nat -> nat -> nat -> npfloat.

(** The two inner loops, for one step. *)
Fixpoint features_of_matrix (step : nat) (step_matrix : list (list npfloat))
    (pairs : list (nat * nat)) (transition_features : gmap string npfloat)
    : res (gmap string npfloat) :=
  match pairs with
  | [] => Ok transition_features
  | (from_digit, to_digit) :: rest =>
      x ← np_get step_matrix from_digit to_digit;
      features_of_matrix step step_matrix rest
        (<[feature_name step from_digit to_digit := x]> transition_features)
  end.

(** [for step in range(1, max_step + 1)] *)
Fixpoint steps_loop (sequence : list Z) (steps : list nat)
    (transition_features : gmap string npfloat) : res (gmap string npfloat) :=
  match steps with
  | [] => Ok transition_features
  | step :: rest =>
      step_matrix ← calculate_transition_matrix (memory step) sequence step 10;
      transition_features ←
        features_of_matrix step step_matrix digit_pairs transition_features;
      steps_loop sequence rest transition_features
  end.

Definition calculate_transition_features (sequence : list Z) (max_step : Z)
    : res (gmap string npfloat) :=
  steps_loop sequence (seq 1 (Z.to_nat max_step)) ∅.

End Memory.

End Features.

(** * The bounds comparator: properties *)

Module CheckerFacts.
Import Checker.

(** ** What the loop does to one row, stated on the table alone *)

Definition valid_level (confidence_level : Z) : Prop :=
  confidence_level = 95%Z \/ confidence_level = 99%Z.

Definition lower_at (confidence_level : Z) (row : BoundsEntry) : Q :=
  if (confidence_level =? 95)%Z then bound_95_lower row else bound_99_lower row.

Definition upper_at (confidence_level : Z) (row : BoundsEntry) : Q :=
  if (confidence_level =? 95)%Z then bound_95_upper row else bound_99_upper row.

Definition in_range (confidence_level : Z) (row : BoundsEntry) (value : Q) : bool :=
  Qle_bool (lower_at confidence_level row) value &&
  Qle_bool value (upper_at confidence_level row).

Definition is_missing (test_metrics : gmap string Q) (row : BoundsEntry) : bool :=
  match test_metrics !! metric row with
  | None => true
  | Some _ => false
  end.

Definition is_within (test_metrics : gmap string Q) (confidence_level : Z)
    (row : BoundsEntry) : bool :=
  match test_metrics !! metric row with
  | None => false
  | Some value => in_range confidence_level row value
  end.

Definition is_outlier (test_metrics : gmap string Q) (confidence_level : Z)
    (row : BoundsEntry) : bool :=
  match test_metrics !! metric row with
  | None => false
  | Some value => negb (in_range confidence_level row value)
  end.

(** A tested row whose [expected_std] is zero. *)
Definition zero_std (test_metrics : gmap string Q) (row : BoundsEntry) : bool :=
  match test_metrics !! metric row with
  | None => false
  | Some _ => Qeq_bool (expected_std row) 0
  end.

(** The standardized distance of a value to the mean of a row. *)
Definition standardized (row : BoundsEntry) (value : Q) : Q :=
  (Qabs (value - expected_mean row) / expected_std row)%Q.

(** An entry of [within_bounds] comes from a row of the table. *)
Definition within_from (test_metrics : gmap string Q) (confidence_level : Z)
    (bounds_table : BoundsTable) (e : WithinEntry) : Prop :=
  exists row, List.In row bounds_table /\
    metric row = w_metric e /\
    test_metrics !! metric row = Some (w_value e) /\
    in_range confidence_level row (w_value e) = true /\
    ~ (expected_std row == 0)%Q /\
    distance_from_mean e = standardized row (w_value e).

(** An entry of [outliers] comes from a row of the table. *)
Definition outlier_from (test_metrics : gmap string Q) (confidence_level : Z)
    (bounds_table : BoundsTable) (e : OutlierEntry) : Prop :=
  exists row, List.In row bounds_table /\
    metric row = o_metric e /\
    test_metrics !! metric row = Some (o_value e) /\
    in_range confidence_level row (o_value e) = false /\
    ~ (expected_std row == 0)%Q /\
    std_distance e = standardized row (o_value e).

Lemma py_div_Ok a b q :
  py_div a b = Ok q -> ~ (b == 0)%Q /\ q = (a / b)%Q.
Proof.
  unfold py_div. destruct (Qeq_bool b 0) eqn:E; [discriminate|].
  intros [= <-]. split; [|reflexivity].
  intros H. apply Qeq_bool_iff in H. congruence.
Qed.

Lemma py_div_nonzero a b :
  ~ (b == 0)%Q -> py_div a b = Ok (a / b)%Q.
Proof.
  intros H. unfold py_div. destruct (Qeq_bool b 0) eqn:E; [|reflexivity].
  apply Qeq_bool_iff in E. contradiction.
Qed.

Lemma py_div_zero a b :
  (b == 0)%Q -> py_div a b = Raise ZeroDivisionError.
Proof.
  intros H. unfold py_div. apply Qeq_bool_iff in H. now rewrite H.
Qed.

Lemma row_lower_valid cl row :
  valid_level cl -> row_lower cl row = Ok (lower_at cl row).
Proof. intros [-> | ->]; reflexivity. Qed.

Lemma row_upper_valid cl row :
  valid_level cl -> row_upper cl row = Ok (upper_at cl row).
Proof. intros [-> | ->]; reflexivity. Qed.

Lemma row_lower_Ok cl row q :
  row_lower cl row = Ok q -> valid_level cl /\ q = lower_at cl row.
Proof.
  unfold row_lower, lower_at, valid_level.
  destruct (cl =? 95)%Z eqn:E1; [intros [= <-]; split; [lia | reflexivity]|].
  destruct (cl =? 99)%Z eqn:E2; [intros [= <-]; split; [lia | reflexivity]|].
  discriminate.
Qed.

Lemma row_upper_Ok cl row q :
  row_upper cl row = Ok q -> valid_level cl /\ q = upper_at cl row.
Proof.
  unfold row_upper, upper_at, valid_level.
  destruct (cl =? 95)%Z eqn:E1; [intros [= <-]; split; [lia | reflexivity]|].
  destruct (cl =? 99)%Z eqn:E2; [intros [= <-]; split; [lia | reflexivity]|].
  discriminate.
Qed.

(** The three outcomes of the loop body on a row that raises nothing. *)
Inductive body_step (tm : gmap string Q) (cl : Z) (acc : Lists)
    (row : BoundsEntry) (acc' : Lists) : Prop :=
| step_missing :
    tm !! metric row = None ->
    l_outliers acc' = l_outliers acc ->
    l_within_bounds acc' = l_within_bounds acc ->
    l_missing_metrics acc' = l_missing_metrics acc ++ [metric row] ->
    body_step tm cl acc row acc'
| step_within value e :
    tm !! metric row = Some value ->
    valid_level cl ->
    in_range cl row value = true ->
    ~ (expected_std row == 0)%Q ->
    w_metric e = metric row ->
    w_value e = value ->
    distance_from_mean e = standardized row value ->
    l_outliers acc' = l_outliers acc ->
    l_within_bounds acc' = l_within_bounds acc ++ [e] ->
    l_missing_metrics acc' = l_missing_metrics acc ->
    body_step tm cl acc row acc'
| step_outlier value e :
    tm !! metric row = Some value ->
    valid_level cl ->
    in_range cl row value = false ->
    ~ (expected_std row == 0)%Q ->
    o_metric e = metric row ->
    o_value e = value ->
    std_distance e = standardized row value ->
    l_outliers acc' = l_outliers acc ++ [e] ->
    l_within_bounds acc' = l_within_bounds acc ->
    l_missing_metrics acc' = l_missing_metrics acc ->
    body_step tm cl acc row acc'.

Lemma loop_body_Ok tm cl acc row acc' :
  loop_body tm cl acc row = Ok acc' -> body_step tm cl acc row acc'.
Proof.
  unfold loop_body. destruct (tm !! metric row) as [value|] eqn:Hl.
  - unfold_res.
    destruct (row_lower cl row) as [lo|] eqn:Hlo; [|discriminate].
    destruct (row_upper cl row) as [up|] eqn:Hup; [|discriminate].
    apply row_lower_Ok in Hlo as [Hv ->]. apply row_upper_Ok in Hup as [_ ->].
    destruct (Qle_bool (lower_at cl row) value && Qle_bool value (upper_at cl row)) eqn:Hr.
    + destruct (py_div _ _) as [d|] eqn:Hd; [|discriminate].
      apply py_div_Ok in Hd as [Hnz ->]. intros [= <-].
      eapply step_within; eauto; reflexivity.
    + destruct (Qlt_le_dec value (lower_at cl row));
        (destruct (py_div _ _) as [d|] eqn:Hd; [|discriminate]);
        apply py_div_Ok in Hd as [Hnz ->]; intros [= <-];
        eapply step_outlier; eauto; reflexivity.
  - intros [= <-]. now apply step_missing.
Qed.

(** When the loop body raises, and what. *)
Lemma loop_body_valid tm cl acc row :
  valid_level cl ->
  if zero_std tm row
  then loop_body tm cl acc row = Raise ZeroDivisionError
  else exists acc', loop_body tm cl acc row = Ok acc'.
Proof.
  intros Hv. unfold zero_std, loop_body.
  destruct (tm !! metric row) as [value|]; [|eauto].
  rewrite (row_lower_valid _ _ Hv), (row_upper_valid _ _ Hv). unfold_res.
  unfold py_div.
  destruct (Qeq_bool (expected_std row) 0);
    destruct (Qle_bool _ _ && Qle_bool _ _);
    try destruct (Qlt_le_dec value _); eauto.
Qed.

Lemma iterrows_valid tm cl rows : forall acc,
  valid_level cl ->
  if existsb (zero_std tm) rows
  then iterrows tm cl rows acc = Raise ZeroDivisionError
  else exists ls, iterrows tm cl rows acc = Ok ls.
Proof.
  induction rows as [|row rest IH]; intros acc Hv; simpl; [eauto|].
  pose proof (loop_body_valid tm cl acc row Hv) as Hb.
  destruct (zero_std tm row); simpl.
  - unfold_res. now rewrite Hb.
  - destruct Hb as [acc' ->]. unfold_res. now apply IH.
Qed.

Lemma body_step_names tm cl acc row acc' :
  body_step tm cl acc row acc' ->
  map w_metric (l_within_bounds acc') =
    map w_metric (l_within_bounds acc) ++
    map metric (List.filter (is_within tm cl) [row]) /\
  map o_metric (l_outliers acc') =
    map o_metric (l_outliers acc) ++
    map metric (List.filter (is_outlier tm cl) [row]) /\
  l_missing_metrics acc' =
    l_missing_metrics acc ++ map metric (List.filter (is_missing tm) [row]).
Proof.
  intros [Hl Ho Hw Hm | v e Hl Hv Hr Hz Hn Hval Hd Ho Hw Hm
                      | v e Hl Hv Hr Hz Hn Hval Hd Ho Hw Hm];
    rewrite Ho, Hw, Hm; simpl; unfold is_within, is_outlier, is_missing;
    rewrite Hl; try rewrite Hr; simpl;
    rewrite ?map_app, ?app_nil_r; simpl; rewrite ?Hn; auto.
Qed.

(** The names on the three lists after the loop: the rows of the table,
    in order, filtered by their outcome. *)
Lemma iterrows_names tm cl rows : forall acc ls,
  iterrows tm cl rows acc = Ok ls ->
  map w_metric (l_within_bounds ls) =
    map w_metric (l_within_bounds acc) ++
    map metric (List.filter (is_within tm cl) rows) /\
  map o_metric (l_outliers ls) =
    map o_metric (l_outliers acc) ++
    map metric (List.filter (is_outlier tm cl) rows) /\
  l_missing_metrics ls =
    l_missing_metrics acc ++ map metric (List.filter (is_missing tm) rows).
Proof.
  induction rows as [|row rest IH]; intros acc ls; simpl.
  - intros [= <-]. now rewrite !app_nil_r.
  - unfold_res. destruct (loop_body tm cl acc row) as [acc'|] eqn:Hb; [|discriminate].
    intros Hrest. apply IH in Hrest as (Hw & Ho & Hm).
    apply loop_body_Ok, body_step_names in Hb as (Hw' & Ho' & Hm').
    rewrite Hw, Ho, Hm, Hw', Ho', Hm'. simpl.
    destruct (is_within tm cl row), (is_outlier tm cl row), (is_missing tm row);
      simpl; rewrite <- ?app_assoc; auto.
Qed.

(** Every entry on the two scored lists comes from a row of the table. *)
Lemma iterrows_from tm cl bt rows : forall acc ls,
  (forall row, List.In row rows -> List.In row bt) ->
  iterrows tm cl rows acc = Ok ls ->
  Forall (within_from tm cl bt) (l_within_bounds acc) ->
  Forall (outlier_from tm cl bt) (l_outliers acc) ->
  Forall (within_from tm cl bt) (l_within_bounds ls) /\
  Forall (outlier_from tm cl bt) (l_outliers ls).
Proof.
  induction rows as [|row rest IH]; intros acc ls Hin; simpl.
  - intros [= <-]. auto.
  - unfold_res. destruct (loop_body tm cl acc row) as [acc'|] eqn:Hb; [|discriminate].
    intros Hrest HW HO. apply (IH acc' ls); auto.
    + intros r Hr. apply Hin. now right.
    + apply loop_body_Ok in Hb.
      destruct Hb as [Hl Ho Hw Hm | v e Hl Hv Hr Hz Hn Hval Hd Ho Hw Hm
                                  | v e Hl Hv Hr Hz Hn Hval Hd Ho Hw Hm];
        rewrite Hw; auto.
      apply Forall_app; split; [assumption|]. constructor; [|constructor].
      exists row. rewrite Hval, Hn. repeat split; auto. apply Hin. now left.
    + apply loop_body_Ok in Hb.
      destruct Hb as [Hl Ho Hw Hm | v e Hl Hv Hr Hz Hn Hval Hd Ho Hw Hm
                                  | v e Hl Hv Hr Hz Hn Hval Hd Ho Hw Hm];
        rewrite Ho; auto.
      apply Forall_app; split; [assumption|]. constructor; [|constructor].
      exists row. rewrite Hval, Hn. repeat split; auto. apply Hin. now left.
Qed.

(** The result, when there is one, in terms of what the loop returned. *)
Lemma check_Ok tm bt cl r :
  check_sequence_randomness tm bt cl = Ok r ->
  exists ls, iterrows tm cl bt no_lists = Ok ls /\
    outliers r = l_outliers ls /\
    within_bounds r = l_within_bounds ls /\
    missing_metrics r = l_missing_metrics ls /\
    within_bounds_count r = length (l_within_bounds ls) /\
    outlier_count r = length (l_outliers ls) /\
    missing_metrics_count r = length (l_missing_metrics ls) /\
    total_metrics_tested r = (length (l_within_bounds ls) + length (l_outliers ls))%nat /\
    randomness_score r =
      score_of (length (l_within_bounds ls))
               (length (l_within_bounds ls) + length (l_outliers ls)) /\
    assessment r = assess (randomness_score r).
Proof.
  unfold check_sequence_randomness. unfold_res.
  destruct (iterrows tm cl bt no_lists) as [ls|]; [|discriminate].
  intros [= <-]. exists ls. simpl. repeat split; reflexivity.
Qed.

(** The call returns exactly when the level is one of the table's and no
    tested row has a zero [expected_std] (a table none of whose rows is
    tested never reads the level's columns). *)
Lemma check_returns tm bt cl :
  valid_level cl ->
  existsb (zero_std tm) bt = false ->
  exists r, check_sequence_randomness tm bt cl = Ok r.
Proof.
  intros Hv Hz. pose proof (iterrows_valid tm cl bt no_lists Hv) as H.
  rewrite Hz in H. destruct H as [ls Hls].
  unfold check_sequence_randomness. rewrite Hls. unfold_res. eauto.
Qed.

Lemma check_raises tm bt cl :
  valid_level cl ->
  existsb (zero_std tm) bt = true ->
  check_sequence_randomness tm bt cl = Raise ZeroDivisionError.
Proof.
  intros Hv Hz. pose proof (iterrows_valid tm cl bt no_lists Hv) as H.
  rewrite Hz in H. unfold check_sequence_randomness. now rewrite H.
Qed.

Lemma names_counts tm bt cl r :
  check_sequence_randomness tm bt cl = Ok r ->
  map w_metric (within_bounds r) = map metric (List.filter (is_within tm cl) bt) /\
  map o_metric (outliers r) = map metric (List.filter (is_outlier tm cl) bt) /\
  missing_metrics r = map metric (List.filter (is_missing tm) bt).
Proof.
  intros H. apply check_Ok in H as (ls & Hit & Ho & Hw & Hm & _).
  apply iterrows_names in Hit. simpl in Hit. now rewrite Ho, Hw, Hm.
Qed.

(** The two counts of a result are the numbers of rows of each outcome. *)
Lemma counts_as_filters tm bt cl r :
  check_sequence_randomness tm bt cl = Ok r ->
  within_bounds_count r = length (List.filter (is_within tm cl) bt) /\
  outlier_count r = length (List.filter (is_outlier tm cl) bt) /\
  randomness_score r =
    score_of (within_bounds_count r) (within_bounds_count r + outlier_count r).
Proof.
  intros H. pose proof (names_counts _ _ _ _ H) as (Hw & Ho & _).
  apply check_Ok in H as (ls & _ & Hos & Hws & _ & Hwc & Hoc & _ & _ & Hs & _).
  rewrite Hwc, Hoc, Hs. repeat split.
  - rewrite <- Hws, <- (length_map w_metric), Hw. apply length_map.
  - rewrite <- Hos, <- (length_map o_metric), Ho. apply length_map.
Qed.

(** Each row has exactly one of the three outcomes, decided by its name's
    presence in the record. *)
Lemma count_missing tm m bt :
  count_occ String.string_dec (map metric (List.filter (is_missing tm) bt)) m =
  match tm !! m with
  | None => count_occ String.string_dec (map metric bt) m
  | Some _ => 0%nat
  end.
Proof.
  induction bt as [|row rest IH]; simpl.
  - now destruct (tm !! m).
  - unfold is_missing at 1.
    destruct (String.string_dec (metric row) m) as [E|N].
    + rewrite E. destruct (tm !! m) eqn:Hm; simpl; rewrite IH, ?Hm; auto.
      destruct (String.string_dec (metric row) m); congruence.
    + destruct (tm !! metric row); simpl; rewrite IH; auto.
      destruct (String.string_dec (metric row) m); congruence.
Qed.

Lemma count_scored tm cl m bt :
  (count_occ String.string_dec (map metric (List.filter (is_within tm cl) bt)) m +
   count_occ String.string_dec (map metric (List.filter (is_outlier tm cl) bt)) m)%nat =
  match tm !! m with
  | None => 0%nat
  | Some _ => count_occ String.string_dec (map metric bt) m
  end.
Proof.
  induction bt as [|row rest IH]; simpl.
  - now destruct (tm !! m).
  - unfold is_within at 1, is_outlier at 1.
    destruct (String.string_dec (metric row) m) as [E|N].
    + rewrite E. destruct (tm !! m) as [v|] eqn:Hm; [|exact IH].
      destruct (in_range cl row v); simpl;
        (destruct (String.string_dec (metric row) m); [|congruence]); lia.
    + destruct (tm !! metric row) as [v|]; [|exact IH].
      destruct (in_range cl row v); simpl;
        (destruct (String.string_dec (metric row) m); [congruence|]); exact IH.
Qed.

Lemma count_unique (l : list string) m :
  List.NoDup l -> List.In m l -> count_occ String.string_dec l m = 1%nat.
Proof.
  intros Hn Hi.
  pose proof (proj1 (List.NoDup_count_occ String.string_dec l) Hn m).
  pose proof (proj1 (count_occ_In String.string_dec l m) Hi). lia.
Qed.

Lemma filter_length_le {A} (f g : A -> bool) (l : list A) :
  (forall x, List.In x l -> f x = true -> g x = true) ->
  (length (List.filter f l) <= length (List.filter g l))%nat.
Proof.
  induction l as [|x l IH]; intros H; simpl; [lia|].
  assert (IH' : (length (List.filter f l) <= length (List.filter g l))%nat).
  { apply IH. intros y Hy. apply H. now right. }
  destruct (f x) eqn:Hf.
  - rewrite (H x (or_introl eq_refl) Hf). simpl. lia.
  - destruct (g x); simpl; lia.
Qed.

(** The exceptions do not depend on which of the two levels is asked. *)
Lemma both_levels_return tm bt :
  (exists r, check_sequence_randomness tm bt 95 = Ok r) <->
  (exists r, check_sequence_randomness tm bt 99 = Ok r).
Proof.
  destruct (existsb (zero_std tm) bt) eqn:Hz.
  - split; intros [r Hr];
      [rewrite (check_raises tm bt 95) in Hr | rewrite (check_raises tm bt 99) in Hr];
      try discriminate; auto; unfold valid_level; auto.
  - split; intros _; apply check_returns; unfold valid_level; auto.
Qed.

End CheckerFacts.

Module CheckerExamples.
Import Checker CheckerFacts.

(** A table of ten metrics with the same bounds, and a record that has nine
    values inside the 95% bounds and one outside. *)
Definition unit_row (name : string) : BoundsEntry :=
  {| metric := name;
     expected_mean := 1 # 2;
     expected_std := 1 # 4;
     bound_95_lower := 0;
     bound_95_upper := 1;
     bound_99_lower := - (1 # 2);
     bound_99_upper := 3 # 2;
     interpretation := "test row" |}.

Definition ten_names : list string :=
  ["freq_0"; "freq_1"; "freq_2"; "freq_3"; "freq_4";
   "freq_5"; "freq_6"; "freq_7"; "freq_8"; "freq_9"].

Definition ten_rows : BoundsTable := map unit_row ten_names.

Definition nine_in_one_out : gmap string Q :=
  <["freq_9" := 5 # 4]>
    (list_to_map (map (fun name => (name, 1 # 2)) ten_names)).

Definition result_of (x : res AnalysisResult) : AnalysisResult :=
  match x with
  | Ok r => r
  | Raise _ =>
      {| randomness_score := 0; assessment := ""; confidence_level_used := 0;
         total_metrics_tested := 0; within_bounds_count := 0; outlier_count := 0;
         severe_outlier_count := 0; missing_metrics_count := 0;
         outliers := []; within_bounds := []; missing_metrics := [] |}
  end.

Definition nine_tenths : AnalysisResult :=
  result_of (check_sequence_randomness nine_in_one_out ten_rows 95).

(** The row the documentation of the checker uses for [redundancy], a row
    for [coupon_mean], and a record that has a name the table lacks. *)
Definition redundancy_row : BoundsEntry :=
  {| metric := "redundancy";
     expected_mean := 0.015;
     expected_std := 0.005;
     bound_95_lower := 0.005;
     bound_95_upper := 0.025;
     bound_99_lower := 0.002;
     bound_99_upper := 0.030;
     interpretation := "predictability of the digits" |}.

Definition coupon_mean_row : BoundsEntry :=
  {| metric := "coupon_mean";
     expected_mean := 29;
     expected_std := 3;
     bound_95_lower := 25;
     bound_95_upper := 35;
     bound_99_lower := 23;
     bound_99_upper := 38;
     interpretation := "steps to collect every digit" |}.

Definition two_rows : BoundsTable := [redundancy_row; coupon_mean_row].

Definition record_with_extra : gmap string Q :=
  <["redundancy" := 0.045%Q]> (<["entropy_rate" := 1%Q]> ∅).

(** A row whose [expected_std] is zero, and a record inside its bounds. *)
Definition flat_row : BoundsEntry :=
  {| metric := "redundancy";
     expected_mean := 0.015;
     expected_std := 0;
     bound_95_lower := 0.005;
     bound_95_upper := 0.025;
     bound_99_lower := 0.002;
     bound_99_upper := 0.030;
     interpretation := "predictability of the digits" |}.

Definition record_in_bounds : gmap string Q := <["redundancy" := 0.015%Q]> ∅.

End CheckerExamples.

Module CheckerSpec.
Import Checker CheckerFacts CheckerExamples.

Lemma score_of_range w t :
  (w <= t)%nat -> (0 <= score_of w t <= 1)%Q.
Proof.
  intros Hwt. unfold score_of. destruct (0 <? t)%nat eqn:Ht.
  - apply Nat.ltb_lt in Ht.
    assert (Hpos : (0 < inject_Z (Z.of_nat t))%Q).
    { replace 0%Q with (inject_Z 0) by reflexivity. rewrite <- Zlt_Qlt. lia. }
    split.
    + apply Qle_shift_div_l; [assumption|]. rewrite Qmult_0_l.
      replace 0%Q with (inject_Z 0) by reflexivity. rewrite <- Zle_Qle. lia.
    + apply Qle_shift_div_r; [assumption|]. rewrite Qmult_1_l.
      rewrite <- Zle_Qle. lia.
  - split; [apply Qle_refl | discriminate].
Qed.

(** C1: the call returns a result whenever the level is one of the table's
    and no tested row has a zero [expected_std], and the [randomness_score]
    of every result is the number of within-bounds rows divided by the
    number of within-bounds rows plus the number of outlier rows, is 0 when
    no row was scored, and lies in [0,1]. *)
Theorem randomness_score_is_ratio tm bt cl :
  (valid_level cl -> existsb (zero_std tm) bt = false ->
     exists r, check_sequence_randomness tm bt cl = Ok r) /\
  (forall r, check_sequence_randomness tm bt cl = Ok r ->
     let w := length (List.filter (is_within tm cl) bt) in
     let o := length (List.filter (is_outlier tm cl) bt) in
     within_bounds_count r = w /\
     outlier_count r = o /\
     ((w + o = 0)%nat -> randomness_score r = 0%Q) /\
     ((0 < w + o)%nat ->
        randomness_score r = (inject_Z (Z.of_nat w) / inject_Z (Z.of_nat (w + o)))%Q) /\
     (0 <= randomness_score r <= 1)%Q).
Proof.
  split; [apply check_returns|].
  intros r H w o. apply counts_as_filters in H as (Hw & Ho & Hs).
  fold w in Hw. fold o in Ho. rewrite Hs, Hw, Ho. repeat split; auto.
  - intros Hz. unfold score_of. now rewrite Hz.
  - intros Hp. unfold score_of. apply Nat.ltb_lt in Hp. now rewrite Hp.
  - apply score_of_range. lia.
  - apply score_of_range. lia.
Qed.

Lemma randomness_score_is_ratio_witness :
  check_sequence_randomness nine_in_one_out ten_rows 95 = Ok nine_tenths /\
  within_bounds_count nine_tenths = 9%nat /\
  outlier_count nine_tenths = 1%nat /\
  randomness_score nine_tenths = (inject_Z 9 / inject_Z 10)%Q /\
  (0 <= randomness_score nine_tenths <= 1)%Q.
Proof.
  assert (H : check_sequence_randomness nine_in_one_out ten_rows 95 = Ok nine_tenths)
    by (vm_compute; reflexivity).
  split; [exact H|].
  pose proof (proj2 (randomness_score_is_ratio nine_in_one_out ten_rows 95)
                nine_tenths H)
    as (Hw & Ho & _ & Hs & Hr).
  split; [exact Hw|]. split; [exact Ho|]. split; [|exact Hr].
  apply Hs. vm_compute. lia.
Defined.

(** C2: the label follows the score by strict comparisons against 0.90,
    0.80, 0.70 and 0.50; a score of exactly 0.90 is [likely_random]. *)
Theorem assessment_by_strict_thresholds tm bt cl r :
  check_sequence_randomness tm bt cl = Ok r ->
  let s := randomness_score r in
  ((0.90 < s)%Q -> assessment r = "highly_likely_random") /\
  ((0.80 < s)%Q -> (s <= 0.90)%Q -> assessment r = "likely_random") /\
  ((0.70 < s)%Q -> (s <= 0.80)%Q -> assessment r = "possibly_random") /\
  ((0.50 < s)%Q -> (s <= 0.70)%Q -> assessment r = "possibly_non_random") /\
  ((s <= 0.50)%Q -> assessment r = "likely_non_random") /\
  ((s == 0.90)%Q -> assessment r = "likely_random").
Proof.
  intros H s. apply check_Ok in H as (ls & _ & _ & _ & _ & _ & _ & _ & _ & _ & Ha).
  rewrite Ha. fold s. unfold assess. clearbody s. clear Ha.
  repeat split; intros;
    repeat match goal with
    | |- context [Qlt_le_dec ?a s] => destruct (Qlt_le_dec a s)
    end;
    try reflexivity; exfalso;
    destruct s as [n d]; unfold Qlt, Qle, Qeq in *; simpl in *; lia.
Qed.

Lemma assessment_by_strict_thresholds_witness :
  check_sequence_randomness nine_in_one_out ten_rows 95 = Ok nine_tenths /\
  (randomness_score nine_tenths == 0.90)%Q /\
  assessment nine_tenths = "likely_random".
Proof.
  assert (H : check_sequence_randomness nine_in_one_out ten_rows 95 = Ok nine_tenths)
    by (vm_compute; reflexivity).
  assert (E : (randomness_score nine_tenths == 0.90)%Q) by (vm_compute; reflexivity).
  split; [exact H|]. split; [exact E|].
  apply (assessment_by_strict_thresholds nine_in_one_out ten_rows 95 nine_tenths H).
  exact E.
Defined.

(** C3, as stated, fails: a name of the record that the table lacks is not
    reported as missing (the table has no row for [entropy_rate], and the
    only name reported is [coupon_mean], a row the record lacks). *)
Lemma record_name_outside_table_not_reported :
  ~ (forall r m,
       check_sequence_randomness record_with_extra two_rows 95 = Ok r ->
       is_Some (record_with_extra !! m) ->
       ~ List.In m (map metric two_rows) ->
       List.In m (missing_metrics r)).
Proof.
  intros H.
  specialize (H (result_of (check_sequence_randomness record_with_extra two_rows 95))
                "entropy_rate").
  assert (Hin : List.In "entropy_rate" ["coupon_mean"]).
  { apply H.
    - vm_compute. reflexivity.
    - exists 1%Q. vm_compute. reflexivity.
    - simpl. intros [E | [E | []]]; discriminate E. }
  destruct Hin as [E | []]. discriminate E.
Qed.

(** C3, amended: with unique metric keys, the call returns a result
    whenever the level is one of the table's and no tested row has a zero
    [expected_std]; in every result a name of the table that the record
    has is classified exactly once over [within_bounds] and [outliers] and
    is not reported missing; a name of the table that the record lacks is
    reported missing exactly once and is not scored; a name the table
    lacks is on none of the three lists; the denominator of the score
    counts the scored entries only. *)
Theorem classified_once_or_missing tm bt cl :
  List.NoDup (map metric bt) ->
  (valid_level cl -> existsb (zero_std tm) bt = false ->
     exists r, check_sequence_randomness tm bt cl = Ok r) /\
  (forall r, check_sequence_randomness tm bt cl = Ok r ->
   forall m,
    let scored := map w_metric (within_bounds r) ++ map o_metric (outliers r) in
    (List.In m (map metric bt) -> is_Some (tm !! m) ->
       count_occ String.string_dec scored m = 1%nat /\ ~ List.In m (missing_metrics r)) /\
    (List.In m (map metric bt) -> tm !! m = None ->
       count_occ String.string_dec (missing_metrics r) m = 1%nat /\ ~ List.In m scored) /\
    (~ List.In m (map metric bt) ->
       ~ List.In m scored /\ ~ List.In m (missing_metrics r)) /\
    total_metrics_tested r = length scored).
Proof.
  intros Hnd. split; [apply check_returns|]. intros r H m scored.
  pose proof (names_counts _ _ _ _ H) as (Hw & Ho & Hm).
  apply check_Ok in H as (ls & _ & Hos & Hws & _ & _ & _ & _ & Ht & _).
  assert (Hsc : count_occ String.string_dec scored m =
                match tm !! m with
                | None => 0%nat
                | Some _ => count_occ String.string_dec (map metric bt) m
                end).
  { unfold scored. rewrite count_occ_app, Hw, Ho. apply count_scored. }
  assert (Hmi : count_occ String.string_dec (missing_metrics r) m =
                match tm !! m with
                | None => count_occ String.string_dec (map metric bt) m
                | Some _ => 0%nat
                end).
  { rewrite Hm. apply count_missing. }
  repeat split.
  - destruct H0 as [v Hv]. rewrite Hsc, Hv. now apply count_unique.
  - destruct H0 as [v Hv]. rewrite Hv in Hmi.
    now apply (count_occ_not_In String.string_dec).
  - rewrite Hmi, H0. now apply count_unique.
  - rewrite H0 in Hsc. now apply (count_occ_not_In String.string_dec).
  - apply (count_occ_not_In String.string_dec). rewrite Hsc.
    apply (count_occ_not_In String.string_dec) in H. rewrite H. now destruct (tm !! m).
  - apply (count_occ_not_In String.string_dec). rewrite Hmi.
    apply (count_occ_not_In String.string_dec) in H. rewrite H. now destruct (tm !! m).
  - unfold scored. rewrite length_app, !length_map, Hws, Hos. exact Ht.
Qed.

Lemma classified_once_or_missing_witness :
  List.NoDup (map metric two_rows) /\
  (exists r, check_sequence_randomness record_with_extra two_rows 95 = Ok r /\
     count_occ String.string_dec
       (map w_metric (within_bounds r) ++ map o_metric (outliers r))
       "redundancy" = 1%nat /\
     count_occ String.string_dec (missing_metrics r) "coupon_mean" = 1%nat /\
     ~ List.In "entropy_rate" (missing_metrics r)).
Proof.
  assert (Hnd : List.NoDup (map metric two_rows)).
  { simpl. constructor; [simpl; intros [E | []]; discriminate E|].
    constructor; [intros []|constructor]. }
  split; [exact Hnd|].
  destruct (classified_once_or_missing record_with_extra two_rows 95 Hnd)
    as [Hret C].
  destruct Hret as [r H]; [left; reflexivity | vm_compute; reflexivity |].
  exists r. split; [exact H|]. specialize (C r H).
  split; [|split].
  - destruct (C "redundancy") as (C1 & _). apply C1.
    + simpl. auto.
    + exists 0.045%Q. vm_compute. reflexivity.
  - destruct (C "coupon_mean") as (_ & C2 & _). apply C2.
    + simpl. auto.
    + vm_compute. reflexivity.
  - destruct (C "entropy_rate") as (_ & _ & C3 & _). apply C3.
    simpl. intros [E | [E | []]]; discriminate E.
Defined.

(** C4, the code at the failing input: the division by [expected_std] has
    no guard, unlike the division by [expected_mean] of
    [relative_distance].  On a record of Python floats, a tested row with
    an [expected_std] of zero makes the call raise [ZeroDivisionError]; no
    standardized distance of 0 is recorded. *)
Lemma zero_std_raises :
  check_sequence_randomness record_in_bounds [flat_row] 95 = Raise ZeroDivisionError /\
  ~ (exists r, check_sequence_randomness record_in_bounds [flat_row] 95 = Ok r /\
       Exists (fun e => (distance_from_mean e == 0)%Q) (within_bounds r)).
Proof.
  assert (H : check_sequence_randomness record_in_bounds [flat_row] 95 =
              Raise ZeroDivisionError) by (vm_compute; reflexivity).
  split; [exact H|]. intros (r & Hr & _). rewrite H in Hr. discriminate Hr.
Qed.

(** C6: when the 99% interval of every row contains its 95% interval, the
    calls at the two levels return together, and the outlier count at
    level 99 is at most the outlier count at level 95. *)
Theorem wider_bounds_fewer_outliers tm bt :
  Forall (fun row =>
            (bound_99_lower row <= bound_95_lower row)%Q /\
            (bound_95_upper row <= bound_99_upper row)%Q) bt ->
  ((exists r95, check_sequence_randomness tm bt 95 = Ok r95) <->
   (exists r99, check_sequence_randomness tm bt 99 = Ok r99)) /\
  (forall r95 r99,
     check_sequence_randomness tm bt 95 = Ok r95 ->
     check_sequence_randomness tm bt 99 = Ok r99 ->
     (outlier_count r99 <= outlier_count r95)%nat).
Proof.
  intros Hc. split; [apply both_levels_return|]. intros r95 r99 H95 H99.
  apply counts_as_filters in H95 as (_ & -> & _).
  apply counts_as_filters in H99 as (_ & -> & _).
  apply filter_length_le. intros row Hin.
  rewrite List.Forall_forall in Hc. destruct (Hc row Hin) as [Hlo Hup].
  unfold is_outlier. destruct (tm !! metric row) as [v|]; [|discriminate].
  unfold in_range, lower_at, upper_at. simpl.
  rewrite !Bool.negb_true_iff, !Bool.andb_false_iff.
  intros Hout. destruct (Qle_bool (bound_95_lower row) v) eqn:E1; [|auto].
  destruct (Qle_bool v (bound_95_upper row)) eqn:E2; [|auto].
  apply Qle_bool_iff in E1, E2.
  assert (L : Qle_bool (bound_99_lower row) v = true)
    by (apply Qle_bool_iff; eapply Qle_trans; eauto).
  assert (U : Qle_bool v (bound_99_upper row) = true)
    by (apply Qle_bool_iff; eapply Qle_trans; eauto).
  destruct Hout; congruence.
Qed.

Lemma wider_bounds_fewer_outliers_witness :
  exists r95 r99,
    check_sequence_randomness nine_in_one_out ten_rows 95 = Ok r95 /\
    check_sequence_randomness nine_in_one_out ten_rows 99 = Ok r99 /\
    outlier_count r95 = 1%nat /\ outlier_count r99 = 0%nat /\
    (outlier_count r99 <= outlier_count r95)%nat.
Proof.
  exists nine_tenths,
    (result_of (check_sequence_randomness nine_in_one_out ten_rows 99)).
  split; [vm_compute; reflexivity|]. split; [vm_compute; reflexivity|].
  split; [vm_compute; reflexivity|]. split; [vm_compute; reflexivity|].
  apply (proj2 (wider_bounds_fewer_outliers nine_in_one_out ten_rows
                  ltac:(unfold ten_rows, ten_names; simpl;
                        repeat constructor; simpl; discriminate))).
  - vm_compute. reflexivity.
  - vm_compute. reflexivity.
Defined.

End CheckerSpec.

(** * The transition matrix: properties *)

Module TransitionFacts.
Import Transition.

Definition Qsum (l : list Q) : Q := fold_right Qplus 0%Q l.

(** A row of probabilities: finite, not negative, summing to one. *)
Definition stochastic_row (row : list npfloat) : Prop :=
  exists qs, row = map Finite qs /\
    Forall (fun q => (0 <= q)%Q) qs /\ (Qsum qs == 1)%Q.

(** A row of zeros. *)
Definition zero_row (row : list npfloat) : Prop :=
  Forall (fun x => exists q, x = Finite q /\ (q == 0)%Q) row.

(** The shape of the count matrix: [base] rows of [base] counts, none
    negative. *)
Definition count_row_ok (base : nat) (row : list Z) : Prop :=
  length row = base /\ Forall (fun n => (0 <= n)%Z) row.

Definition counts_ok (base : nat) (t : list (list Z)) : Prop :=
  length t = base /\ Forall (count_row_ok base) t.

Lemma np_zeros_ok base : counts_ok base (np_zeros base).
Proof.
  unfold counts_ok, np_zeros, count_row_ok. split.
  - apply length_replicate.
  - apply Forall_replicate. split.
    + apply length_replicate.
    + apply Forall_replicate. lia.
Qed.

Lemma increment_ok base t r c :
  counts_ok base t -> counts_ok base (increment t r c).
Proof.
  intros [Hlen Hrows]. unfold increment.
  destruct (t !! r) as [row|] eqn:Hr; [|now split].
  destruct (row !! c) as [n|] eqn:Hc; [|now split].
  pose proof (Forall_lookup_1 _ _ _ _ Hrows Hr) as [Hrl Hrn].
  pose proof (Forall_lookup_1 _ _ _ _ Hrn Hc) as Hn.
  split.
  - now rewrite length_insert.
  - apply Forall_insert; [assumption|]. split.
    + now rewrite length_insert.
    + apply Forall_insert; [assumption|]. simpl in Hn |- *. lia.
Qed.

Lemma count_loop_ok sequence step base indices : forall t t',
  counts_ok base t ->
  count_loop sequence step base indices t = Ok t' ->
  counts_ok base t'.
Proof.
  induction indices as [|i rest IH]; intros t t' Hok; simpl.
  - now intros [= <-].
  - unfold_res. destruct (count_body sequence step base t i) as [t1|] eqn:Hb; [|discriminate].
    apply IH. unfold count_body in Hb. unfold_res.
    destruct (py_index sequence i); [|discriminate].
    destruct (py_index sequence (i + step)); [|discriminate].
    destruct (np_index base _); [|discriminate].
    destruct (np_index base _); [|discriminate].
    injection Hb as <-. now apply increment_ok.
Qed.

Lemma count_transitions_ok sequence step base t :
  count_transitions sequence step base = Ok t -> counts_ok base t.
Proof. apply count_loop_ok, np_zeros_ok. Qed.

(** The loop raises nothing on a sequence of symbols of the alphabet. *)
Lemma count_loop_returns sequence step base indices : forall t,
  Forall (fun x => (0 <= x < Z.of_nat base)%Z) sequence ->
  Forall (fun i => (i + step < length sequence)%nat) indices ->
  exists t', count_loop sequence step base indices t = Ok t'.
Proof.
  induction indices as [|i rest IH]; intros t Hsym Hidx; simpl; [eauto|].
  apply Forall_cons in Hidx as [Hi Hrest].
  assert (Hget : forall k, (k < length sequence)%nat ->
            exists x, py_index sequence k = Ok x /\
                      exists r, np_index base x = Ok r).
  { intros k Hk. unfold py_index.
    destruct (lookup_lt_is_Some_2 sequence k Hk) as [x Hx]. rewrite Hx.
    exists x. split; [reflexivity|].
    pose proof (Forall_lookup_1 _ _ _ _ Hsym Hx) as Hr. simpl in Hr.
    unfold np_index.
    destruct (Z.leb_spec 0 x); [|lia].
    destruct (Z.ltb_spec x (Z.of_nat base)); [|lia]. simpl. eauto. }
  simpl in Hi.
  destruct (Hget i ltac:(lia)) as (x & Hx & r & Hr).
  destruct (Hget (i + step)%nat Hi) as (y & Hy & c & Hc).
  unfold count_body. unfold_res. rewrite Hx, Hy, Hr, Hc. now apply IH.
Qed.

Lemma count_transitions_returns sequence step base :
  Forall (fun x => (0 <= x < Z.of_nat base)%Z) sequence ->
  exists t, count_transitions sequence step base = Ok t.
Proof.
  intros Hsym. apply count_loop_returns; [assumption|].
  apply List.Forall_forall. intros i Hi. apply in_seq in Hi. lia.
Qed.

Lemma imap_as_map {A B} (f : nat -> A -> B) (g : A -> B) (l : list A) :
  (forall j x, f j x = g x) -> imap f l = map g l.
Proof.
  revert f. induction l as [|x l IH]; intros f H; simpl; [reflexivity|].
  rewrite H. f_equal. apply IH. intros j y. apply H.
Qed.

Lemma imap_as_seq {A B} (f : nat -> A -> B) (g : nat -> B) (l : list A) :
  (forall j x, f j x = g j) -> imap f l = map g (seq 0 (length l)).
Proof.
  revert f g. induction l as [|x l IH]; intros f g H; simpl; [reflexivity|].
  rewrite H. f_equal. rewrite <- seq_shift, map_map.
  apply IH. intros j y. apply H.
Qed.

Lemma Qsum_scaled (s : Z) (row : list Z) :
  s <> 0%Z ->
  (Qsum (map (fun count => (inject_Z count / inject_Z s)%Q) row) ==
   inject_Z (Zsum row) / inject_Z s)%Q.
Proof.
  intros Hs.
  assert (Hq : ~ (inject_Z s == 0)%Q).
  { unfold Qeq. simpl. lia. }
  induction row as [|c row IH]; simpl.
  - unfold Qdiv. now rewrite Qmult_0_l.
  - rewrite IH, inject_Z_plus. field. exact Hq.
Qed.

(** A row whose counts do not sum to zero is divided by its sum. *)
Lemma divide_row_nonzero uninit base i row :
  count_row_ok base row -> Zsum row <> 0%Z ->
  stochastic_row (map nan_to_num (divide_row uninit i row)).
Proof.
  intros [_ Hnn] Hs. unfold divide_row.
  assert (Hpos : (0 < Zsum row)%Z).
  { assert (0 <= Zsum row)%Z; [|lia].
    clear Hs. induction Hnn; simpl; lia. }
  apply Z.eqb_neq in Hs.
  exists (map (fun count => (inject_Z count / inject_Z (Zsum row))%Q) row).
  split; [|split].
  - rewrite (imap_as_map _ (fun count => Finite (inject_Z count / inject_Z (Zsum row))%Q)).
    + rewrite !map_map. reflexivity.
    + intros j x. now rewrite Hs.
  - apply List.Forall_map. eapply List.Forall_impl; [|exact Hnn].
    intros c Hc. simpl. apply Qle_shift_div_l.
    + replace 0%Q with (inject_Z 0) by reflexivity. now rewrite <- Zlt_Qlt.
    + rewrite Qmult_0_l. replace 0%Q with (inject_Z 0) by reflexivity.
      now rewrite <- Zle_Qle.
  - rewrite Qsum_scaled by lia. field. unfold Qeq. simpl. lia.
Qed.

(** A row whose counts sum to zero is never written: it keeps what the
    memory held. *)
Lemma divide_row_zero uninit base i row :
  count_row_ok base row -> Zsum row = 0%Z ->
  map nan_to_num (divide_row uninit i row) =
  map (fun j => nan_to_num (uninit i j)) (seq 0 base).
Proof.
  intros [Hlen _] Hs. unfold divide_row. rewrite Hs. simpl.
  rewrite (imap_as_seq _ (uninit i)) by reflexivity.
  now rewrite Hlen, map_map.
Qed.

Lemma lookup_imap_rows uninit (t : list (list Z)) i :
  np_divide_where uninit t !! i = divide_row uninit i <$> t !! i.
Proof. unfold np_divide_where. apply list_lookup_imap. Qed.

(** The rows of the returned matrix, one by one. *)
Lemma rows_of_matrix uninit sequence step base m :
  calculate_transition_matrix uninit sequence step base = Ok m ->
  exists counts,
    count_transitions sequence step base = Ok counts /\
    length m = base /\
    forall i row, m !! i = Some row ->
      exists count_row, counts !! i = Some count_row /\
        (Zsum count_row <> 0%Z -> stochastic_row row) /\
        (Zsum count_row = 0%Z ->
           row = map (fun j => nan_to_num (uninit i j)) (seq 0 base)).
Proof.
  unfold calculate_transition_matrix. unfold_res.
  destruct (count_transitions sequence step base) as [counts|] eqn:Hc; [|discriminate].
  intros [= <-]. exists counts. split; [reflexivity|].
  destruct (count_transitions_ok _ _ _ _ Hc) as [Hlen Hrows].
  split.
  - unfold np_divide_where. now rewrite length_map, length_imap.
  - intros i row Hi. rewrite list_lookup_fmap, lookup_imap_rows in Hi.
    destruct (counts !! i) as [crow|] eqn:Hcr; [|discriminate].
    simpl in Hi. injection Hi as <-. exists crow. split; [reflexivity|].
    pose proof (Forall_lookup_1 _ _ _ _ Hrows Hcr) as Hok. split.
    + now apply divide_row_nonzero with (base := base).
    + now apply divide_row_zero.
Qed.

(** On a sequence of symbols of the alphabet the call returns a matrix. *)
Lemma calculate_transition_matrix_returns uninit sequence step base :
  Forall (fun x => (0 <= x < Z.of_nat base)%Z) sequence ->
  exists m, calculate_transition_matrix uninit sequence step base = Ok m.
Proof.
  intros H. destruct (count_transitions_returns sequence step base H) as [t Ht].
  unfold calculate_transition_matrix. rewrite Ht. unfold_res. eauto.
Qed.

(** When the fresh memory happens to hold zeros, every row is a row of
    probabilities or a row of zeros. *)
Lemma rows_when_memory_is_zero sequence step base m :
  calculate_transition_matrix (fun _ _ => Finite 0) sequence step base = Ok m ->
  forall i row, m !! i = Some row -> stochastic_row row \/ zero_row row.
Proof.
  intros H i row Hi.
  destruct (rows_of_matrix _ _ _ _ _ H) as (counts & _ & _ & Hrows).
  destruct (Hrows i row Hi) as (crow & _ & Hnz & Hz).
  destruct (Z.eq_dec (Zsum crow) 0%Z) as [E|N]; [right|left; auto].
  rewrite (Hz E). apply List.Forall_map, List.Forall_forall.
  intros j _. exists 0%Q. split; reflexivity.
Qed.

End TransitionFacts.

Module TransitionSpec.
Import Transition TransitionFacts.

(** C5, the code at the failing input: in [0, 1] at step 1 over two
    symbols, symbol 1 has no outgoing transition; its row of the returned
    matrix is what the fresh memory held (here 7.0 in every cell), which is
    neither a row of zeros nor a row summing to one. *)
Theorem zero_row_keeps_stale_memory :
  exists m row,
    calculate_transition_matrix (fun _ _ => Finite 7) [0; 1]%Z 1 2 = Ok m /\
    m !! 1%nat = Some row /\
    row = [Finite 7; Finite 7] /\
    ~ stochastic_row row /\
    ~ zero_row row.
Proof.
  exists [[Finite (0 # 1); Finite (1 # 1)]; [Finite 7; Finite 7]], [Finite 7; Finite 7].
  split; [reflexivity|]. split; [reflexivity|]. split; [reflexivity|]. split.
  - intros (qs & Hqs & _ & Hsum).
    destruct qs as [|a [|b [|c qs]]]; try discriminate Hqs.
    injection Hqs as <- <-. vm_compute in Hsum. discriminate Hsum.
  - intros Hz. apply Forall_cons in Hz as [(q & Hq & Hq0) _].
    injection Hq as <-. vm_compute in Hq0. discriminate Hq0.
Qed.

End TransitionSpec.

(** * [coupon]: properties *)

Module CouponFacts.
Import Metrics.

Lemma py_range_NoDup base : List.NoDup (py_range base).
Proof.
  unfold py_range. apply Finite.Injective_map_NoDup.
  - intros a b. lia.
  - apply seq_NoDup.
Qed.

(** A list that has every symbol is at least as long as the alphabet. *)
Lemma has_all_length base t :
  has_all base t = true -> (base <= Z.of_nat (length t))%Z.
Proof.
  unfold has_all. rewrite forallb_forall. intros H.
  assert (Hincl : incl (py_range base) t).
  { intros x Hx. apply H in Hx. apply existsb_exists in Hx as (y & Hy & E).
    apply Z.eqb_eq in E. now subst. }
  pose proof (NoDup_incl_length (py_range_NoDup base) Hincl) as Hlen.
  unfold py_range in Hlen. rewrite length_map, length_seq in Hlen. lia.
Qed.

(** A completion length recorded from the start [i]: the run of that
    length from [i] has every symbol, and the length is at least [base]. *)
Definition completes (z : list Z) (base : Z) (i n : nat) : Prop :=
  has_all base (take n (drop i z)) = true /\ (base <= Z.of_nat n)%Z.

Lemma coupon_inner_spec z base i k : forall j0 tmp,
  tmp = take j0 (drop i z) ->
  (i + j0 + k <= length z)%nat ->
  exists found, coupon_inner z base i (seq j0 k) tmp = Ok found /\
    forall n, found = Some n -> completes z base i n.
Proof.
  induction k as [|k IH]; intros j0 tmp Htmp Hlen; simpl.
  - exists None. split; [reflexivity | discriminate].
  - unfold py_index. unfold_res.
    destruct (lookup_lt_is_Some_2 z (i + j0)%nat ltac:(lia)) as [x Hx].
    rewrite Hx.
    assert (Htmp' : tmp ++ [x] = take (S j0) (drop i z)).
    { rewrite Htmp. symmetry. apply take_S_r. now rewrite lookup_drop. }
    destruct (has_all base (tmp ++ [x])) eqn:Hall.
    + exists (Some (j0 + 1)%nat). split; [reflexivity|].
      intros n [= <-]. replace (j0 + 1)%nat with (S j0) by lia.
      unfold completes. rewrite <- Htmp'. split; [exact Hall|].
      apply has_all_length in Hall. rewrite Htmp' in Hall.
      rewrite length_take in Hall. lia.
    + apply IH; [exact Htmp' | lia].
Qed.

Lemma coupon_outer_spec z base indices : forall lengths,
  Forall (fun n => exists i, completes z base i n) lengths ->
  exists lengths', coupon_outer z base indices lengths = Ok lengths' /\
    Forall (fun n => exists i, completes z base i n) lengths'.
Proof.
  induction indices as [|i rest IH]; intros lengths Hl; simpl; [eauto|].
  assert (Hin : exists found,
            coupon_inner z base i (seq 0 (length z - i)) [] = Ok found /\
            forall n, found = Some n -> completes z base i n).
  { destruct (le_lt_dec i (length z)) as [Hle|Hgt].
    - apply coupon_inner_spec; [now rewrite take_0 | lia].
    - replace (length z - i)%nat with 0%nat by lia. simpl.
      exists None. split; [reflexivity | discriminate]. }
  destruct Hin as (found & -> & Hfound). unfold_res.
  apply IH. destruct found as [n|]; [|exact Hl].
  apply Forall_app; split; [exact Hl|].
  constructor; [|constructor]. exists i. now apply Hfound.
Qed.

Lemma list_sum_lower (base : Z) (l : list nat) :
  Forall (fun n => (base <= Z.of_nat n)%Z) l ->
  (base * Z.of_nat (length l) <= Z.of_nat (list_sum l))%Z.
Proof.
  induction 1 as [|n l Hn Hl IH]; simpl; [lia|]. nia.
Qed.

Lemma py_mean_lower (base : Z) (l : list nat) :
  l <> [] ->
  Forall (fun n => (base <= Z.of_nat n)%Z) l ->
  (inject_Z base <= py_mean l)%Q.
Proof.
  intros Hne Hl. unfold py_mean.
  assert (Hpos : (0 < Z.of_nat (length l))%Z) by (destruct l; [congruence | simpl; lia]).
  apply Qle_shift_div_l.
  - replace 0%Q with (inject_Z 0) by reflexivity. now rewrite <- Zlt_Qlt.
  - rewrite <- inject_Z_mult, <- Zle_Qle. now apply list_sum_lower.
Qed.

End CouponFacts.

Module CouponSpec.
Import Metrics CouponFacts.

(** C10: [coupon] returns on every sequence; every completion length it
    records is the length of a run, from some starting index, that has
    every one of the [base] symbols, and is at least [base]; so whenever a
    length was recorded, the returned mean is at least [base]. *)
Theorem coupon_lengths_at_least_base (z : list Z) (base : Z) :
  exists lengths r,
    coupon_lengths z base = Ok lengths /\
    coupon z base = Ok r /\
    Forall (fun n => (base <= Z.of_nat n)%Z /\
                     exists i, has_all base (take n (drop i z)) = true) lengths /\
    (lengths <> [] -> (inject_Z base <= mean r)%Q).
Proof.
  destruct (coupon_outer_spec z base (seq 0 (length z)) [])
    as (lengths & Hl & Hall); [constructor|].
  assert (Hge : Forall (fun n => (base <= Z.of_nat n)%Z) lengths).
  { eapply List.Forall_impl; [|exact Hall]. intros n (i & _ & Hn). exact Hn. }
  unfold coupon, coupon_lengths. rewrite Hl. unfold_res.
  destruct lengths as [|n rest] eqn:E.
  - eexists [], _. repeat split; [constructor | congruence].
  - rewrite <- E in *. eexists lengths, _. repeat split.
    + eapply List.Forall_impl; [|exact Hall].
      intros k (i & Hc & Hk). split; [exact Hk | eauto].
    + intros Hne. simpl. now apply py_mean_lower.
Qed.

End CouponSpec.

(** * [redundancy]: properties *)

Module RedundancyFacts.
Import Metrics.

(** ** [Counter] *)

Lemma counter_add_sum x freq :
  list_sum (map snd (counter_add x freq)) = S (list_sum (map snd freq)).
Proof.
  induction freq as [|[y c] rest IH]; simpl; [reflexivity|].
  destruct (x =? y)%Z; simpl; [reflexivity|]. rewrite IH. lia.
Qed.

Lemma counter_add_positive x freq :
  Forall (fun c => (1 <= c)%nat) (map snd freq) ->
  Forall (fun c => (1 <= c)%nat) (map snd (counter_add x freq)).
Proof.
  induction freq as [|[y c] rest IH]; simpl; intros H.
  - constructor; [lia | constructor].
  - apply Forall_cons in H as [Hc Hrest].
    destruct (x =? y)%Z; simpl; constructor; auto; lia.
Qed.

Lemma counter_add_keys x freq y :
  List.In y (map fst (counter_add x freq)) <-> y = x \/ List.In y (map fst freq).
Proof.
  induction freq as [|[k c] rest IH]; simpl.
  - intuition.
  - destruct (Z.eqb_spec x k) as [->|Hne]; simpl; [intuition|].
    rewrite IH. intuition.
Qed.

Lemma counter_add_NoDup x freq :
  List.NoDup (map fst freq) -> List.NoDup (map fst (counter_add x freq)).
Proof.
  induction freq as [|[k c] rest IH]; simpl; intros H.
  - constructor; [intros [] | constructor].
  - apply List.NoDup_cons_iff in H as [Hk Hrest].
    destruct (Z.eqb_spec x k) as [->|Hne]; simpl.
    + now constructor.
    + constructor; [|now apply IH].
      rewrite counter_add_keys. intros [E | Hin]; [congruence | contradiction].
Qed.

(** What [Counter] keeps true, value after value. *)
Record counted (z : list Z) (freq : list (Z * nat)) : Prop := {
  counted_sum : list_sum (map snd freq) = length z;
  counted_positive : Forall (fun c => (1 <= c)%nat) (map snd freq);
  counted_NoDup : List.NoDup (map fst freq);
  counted_keys : forall y, List.In y (map fst freq) -> List.In y z
}.

Lemma fold_counted z : forall seen freq,
  counted seen freq ->
  counted (seen ++ z) (fold_left (fun freq x => counter_add x freq) z freq).
Proof.
  induction z as [|x z IH]; intros seen freq H; simpl.
  - now rewrite app_nil_r.
  - replace (seen ++ x :: z) with ((seen ++ [x]) ++ z)
      by (now rewrite <- app_assoc).
    apply IH. destruct H as [Hs Hp Hn Hk]. constructor.
    + rewrite counter_add_sum, Hs, length_app. simpl. lia.
    + now apply counter_add_positive.
    + now apply counter_add_NoDup.
    + intros y Hy. apply counter_add_keys in Hy as [-> | Hy];
        apply in_or_app; [right; now left | left; auto].
Qed.

Lemma Counter_counted z : counted z (Counter z).
Proof.
  apply (fold_counted z [] []). constructor; simpl; auto; constructor.
Qed.

(** There are no more distinct symbols than the alphabet has. *)
Lemma Counter_length z base :
  Forall (fun x => (0 <= x < base)%Z) z ->
  (Z.of_nat (length (Counter z)) <= Z.max base 0)%Z.
Proof.
  intros Hz. destruct (Counter_counted z) as [_ _ Hn Hk].
  assert (Hincl : incl (map fst (Counter z)) (py_range base)).
  { intros y Hy. apply Hk in Hy. rewrite List.Forall_forall in Hz.
    apply Hz in Hy. unfold py_range. apply in_map_iff.
    exists (Z.to_nat y). split; [lia|]. apply in_seq. lia. }
  pose proof (NoDup_incl_length Hn Hincl) as Hlen.
  unfold py_range in Hlen. rewrite !length_map, length_seq in Hlen. lia.
Qed.

(** ** The entropy of a list of counts *)

Open Scope R_scope.

Lemma ln_le_sub1 x : 0 < x -> ln x <= x - 1.
Proof.
  intros Hx. pose proof (exp_ineq1_le (ln x)) as H.
  rewrite exp_ln in H by assumption. lra.
Qed.

Lemma ln_le_mono x y : 0 < x -> x <= y -> ln x <= ln y.
Proof.
  intros Hx [Hlt | ->]; [|lra]. left. now apply ln_increasing.
Qed.

Lemma ln2_pos : 0 < ln 2.
Proof. pose proof ln_lt_2. lra. Qed.

(** One term of Gibbs' inequality. *)
Lemma term_bound p k :
  0 < p -> 0 < k -> - (p * ln p) <= p * ln k + (/ k - p).
Proof.
  intros Hp Hk.
  assert (Hpk : 0 < p * k) by now apply Rmult_lt_0_compat.
  pose proof (ln_le_sub1 (/ (p * k)) (Rinv_0_lt_compat _ Hpk)) as H.
  rewrite ln_Rinv, ln_mult in H by assumption.
  assert (E : p * (/ (p * k) - 1) = / k - p) by (field; lra).
  assert (H' : p * (- (ln p + ln k)) <= p * (/ (p * k) - 1))
    by (apply Rmult_le_compat_l; lra).
  lra.
Qed.

Definition plnp (n : R) (c : nat) : R := INR c / n * ln (INR c / n).

Lemma sum_bound n k (cs : list nat) :
  0 < n -> 0 < k ->
  Forall (fun c => (1 <= c)%nat) cs ->
  - Rsum (map (plnp n) cs) <=
  INR (list_sum cs) / n * ln k + (INR (length cs) / k - INR (list_sum cs) / n).
Proof.
  intros Hn Hk. induction 1 as [|c cs Hc Hcs IH].
  - simpl. lra.
  - change (list_sum (c :: cs)) with (c + list_sum cs)%nat.
    cbn [map Rsum fold_right length]. fold (Rsum (map (plnp n) cs)).
    rewrite plus_INR, S_INR.
    assert (Hcpos : 0 < INR c) by (apply lt_0_INR; lia).
    assert (Hp : 0 < INR c / n) by (apply Rdiv_lt_0_compat; lra).
    pose proof (term_bound (INR c / n) k Hp Hk) as Ht. unfold plnp at 1.
    replace ((INR c + INR (list_sum cs)) / n)
      with (INR c / n + INR (list_sum cs) / n) by (field; lra).
    replace ((INR (length cs) + 1) / k)
      with (INR (length cs) / k + / k) by (field; lra).
    lra.
Qed.

Lemma sum_nonpositive n (cs : list nat) :
  0 < n ->
  Forall (fun c => (1 <= c)%nat /\ INR c <= n) cs ->
  Rsum (map (plnp n) cs) <= 0.
Proof.
  intros Hn. induction 1 as [|c cs [Hc Hcn] Hcs IH]; simpl; [lra|].
  assert (Hcpos : 0 < INR c) by (apply lt_0_INR; lia).
  assert (Hp : 0 < INR c / n) by (apply Rdiv_lt_0_compat; lra).
  assert (Hp1 : INR c / n <= 1).
  { apply Rmult_le_reg_r with n; [lra|]. unfold Rdiv.
    rewrite Rmult_assoc, Rinv_l by lra. lra. }
  assert (Hl : ln (INR c / n) <= 0).
  { rewrite <- ln_1. now apply ln_le_mono. }
  unfold plnp at 1. fold (Rsum (map (plnp n) cs)). nra.
Qed.

Lemma Rsum_log2 n (cs : list nat) :
  Rsum (map (fun c : nat => INR c / n * log2 (INR c / n)) cs) =
  Rsum (map (plnp n) cs) / ln 2.
Proof.
  pose proof ln2_pos. induction cs as [|c cs IH].
  - simpl. unfold Rdiv. now rewrite Rmult_0_l.
  - cbn [map Rsum fold_right].
    fold (Rsum (map (fun c : nat => INR c / n * log2 (INR c / n)) cs)).
    fold (Rsum (map (plnp n) cs)). rewrite IH. unfold log2.
    change (plnp n c) with (INR c / n * ln (INR c / n)).
    generalize (INR c / n) (Rsum (map (plnp n) cs)). intros p S. field. lra.
Qed.

Lemma entropy_as_plnp freq n :
  entropy_of freq n = - Rsum (map (plnp (INR n)) (map snd freq)) / ln 2.
Proof.
  unfold entropy_of. rewrite Rsum_log2. pose proof ln2_pos. field. lra.
Qed.

Lemma le_list_sum (cs : list nat) c :
  List.In c cs -> (c <= list_sum cs)%nat.
Proof.
  induction cs as [|d cs IH]; simpl; [intros []|].
  intros [-> | H]; [lia|]. apply IH in H. lia.
Qed.

(** The entropy of the counts of a sequence that is not empty lies between
    zero and the logarithm of the number of distinct symbols. *)
Lemma entropy_range z :
  z <> [] ->
  0 <= entropy_of (Counter z) (length z) <= log2 (INR (length (Counter z))).
Proof.
  intros Hz. destruct (Counter_counted z) as [Hs Hp _ _].
  pose proof ln2_pos as Hln2.
  assert (Hn : 0 < INR (length z)).
  { apply lt_0_INR. destruct z; [congruence | simpl; lia]. }
  assert (Hk : 0 < INR (length (Counter z))).
  { apply lt_0_INR. destruct (Counter z); simpl in *; [|lia].
    destruct z; [congruence | simpl in Hs; lia]. }
  rewrite entropy_as_plnp. unfold log2. split.
  - apply Rmult_le_pos; [|left; now apply Rinv_0_lt_compat].
    assert (Rsum (map (plnp (INR (length z))) (map snd (Counter z))) <= 0); [|lra].
    apply sum_nonpositive; [assumption|].
    apply List.Forall_forall. intros c Hc. split.
    + rewrite List.Forall_forall in Hp. now apply Hp.
    + apply le_INR. rewrite <- Hs. now apply le_list_sum.
  - apply Rmult_le_compat_r; [left; now apply Rinv_0_lt_compat|].
    pose proof (sum_bound (INR (length z)) (INR (length (Counter z)))
                  (map snd (Counter z)) Hn Hk Hp) as Hb.
    rewrite Hs, length_map in Hb.
    replace (INR (length z) / INR (length z)) with 1 in Hb by (field; lra).
    replace (INR (length (Counter z)) / INR (length (Counter z))) with 1 in Hb
      by (field; lra).
    lra.
Qed.

Lemma log2_1 : log2 1 = 0.
Proof. unfold log2. rewrite ln_1. unfold Rdiv. apply Rmult_0_l. Qed.

Close Scope R_scope.

End RedundancyFacts.

Module RedundancySpec.
Import Metrics RedundancyFacts.

(** C8, the code at the failing input, the alphabet of one symbol: the
    sequence [0] is not empty and drawn from [0, 1), and [redundancy],
    which guards the empty sequence only, divides by [log2 1 = 0]; it
    raises [ZeroDivisionError] and returns no value, where its docstring
    announces a value between 0 and 1. *)
Lemma redundancy_of_one_symbol_alphabet :
  [0%Z] <> [] /\
  Forall (fun x => (0 <= x < 1)%Z) [0%Z] /\
  redundancy [0%Z] 1 = Raise ZeroDivisionError /\
  ~ (exists r, redundancy [0%Z] 1 = Ok r /\ (0 <= r <= 1)%R).
Proof.
  assert (H : redundancy [0%Z] 1 = Raise ZeroDivisionError).
  { unfold redundancy. simpl.
    destruct (Req_dec_T (log2 1) 0) as [_|Hne]; [reflexivity|].
    exfalso. apply Hne. apply log2_1. }
  split; [discriminate|]. split; [repeat constructor; lia|]. split; [exact H|].
  intros (r & Hr & _). rewrite H in Hr. discriminate Hr.
Qed.

(** With an alphabet of at least two symbols the guard suffices: on every
    sequence that is not empty and drawn from [0, base), [redundancy]
    returns a value between 0 and 1 inclusive, the entropy being taken in
    exact real arithmetic. *)
Theorem redundancy_in_unit_interval (z : list Z) (base : Z) :
  z <> [] ->
  Forall (fun x => (0 <= x < base)%Z) z ->
  (2 <= base)%Z ->
  exists r, redundancy z base = Ok r /\ (0 <= r <= 1)%R.
Proof.
  intros Hz Hsym Hbase. unfold redundancy.
  destruct (Nat.eqb_spec (length z) 0) as [E|_];
    [destruct z; [congruence | discriminate E]|].
  destruct (Z.leb_spec base 0) as [?|_]; [lia|].
  pose proof ln2_pos as Hln2.
  assert (Hb2 : (2 <= IZR base)%R) by now apply IZR_le.
  assert (Hmax : (0 < log2 (IZR base))%R).
  { unfold log2. apply Rdiv_lt_0_compat; [|assumption].
    apply Rlt_le_trans with (ln 2); [assumption|]. apply ln_le_mono; lra. }
  destruct (Req_dec_T (log2 (IZR base)) 0) as [E|_]; [lra|].
  eexists. split; [reflexivity|].
  destruct (entropy_range z Hz) as [H0 Hk].
  assert (Hle : (log2 (INR (length (Counter z))) <= log2 (IZR base))%R).
  { unfold log2. apply Rmult_le_compat_r; [left; now apply Rinv_0_lt_compat|].
    assert (Hpos : (0 < length (Counter z))%nat).
    { destruct (Counter_counted z) as [Hs _ _ _].
      destruct (Counter z); simpl in *; [|lia].
      destruct z; [congruence | simpl in Hs; lia]. }
    apply ln_le_mono; [now apply lt_0_INR|].
    rewrite INR_IZR_INZ. apply IZR_le.
    pose proof (Counter_length z base Hsym). lia. }
  assert (Hq : (0 <= entropy_of (Counter z) (length z) / log2 (IZR base) <= 1)%R).
  { split.
    - apply Rmult_le_pos; [assumption | left; now apply Rinv_0_lt_compat].
    - apply Rmult_le_reg_r with (log2 (IZR base)); [assumption|].
      unfold Rdiv. rewrite Rmult_assoc, Rinv_l by lra. lra. }
  lra.
Qed.

Lemma redundancy_in_unit_interval_witness :
  exists r, redundancy [0; 1; 1; 0]%Z 2 = Ok r /\ (0 <= r <= 1)%R.
Proof.
  apply (redundancy_in_unit_interval [0; 1; 1; 0]%Z 2).
  - discriminate.
  - repeat constructor; lia.
  - lia.
Defined.

End RedundancySpec.

(** * The phase lengths: properties *)

Module PhaseLengthFacts.
Import Random PhaseLength.

(** The first words of the generator after [random.seed(42)], and the
    first values of [random.randint(0, 9)], as CPython gives them. *)
Fixpoint words (n : nat) (s : rng) : list Z :=
  match n with
  | O => []
  | S n' => let '(w, s') := genrand_uint32 s in w :: words n' s'
  end.

Example seed_42_words :
  words 3 (seed 42) = [2746317213; 478163327; 107420369]%Z.
Proof. vm_compute. reflexivity. Qed.

Example seed_42_randint :
  match rand_seq 64 10 12 seeded with
  | Returns values _ => values = [1; 0; 4; 3; 3; 2; 1; 8; 1; 9; 6; 0]%Z
  | _ => False
  end.
Proof. vm_compute. reflexivity. Qed.

(** The generator a call leaves. *)
Definition state_after {A : Type} (o : outcome A) (before : rng) : rng :=
  match o with
  | Returns _ s => s
  | Raises _ s => s
  | OutOfFuel => before
  end.

(** Two evaluations of a metric one after the other in a process, the
    second from the generator the first one left: the two values. *)
Definition twice (f : rng -> outcome Q) (s : rng) : option (Q * Q) :=
  match f s with
  | Returns v1 s1 =>
      match f s1 with
      | Returns v2 _ => Some (v1, v2)
      | _ => None
      end
  | _ => None
  end.

Lemma twice_Some (f : rng -> outcome Q) (s : rng) (v1 v2 : Q) :
  twice f s = Some (v1, v2) ->
  let s1 := state_after (f s) s in
  let s2 := state_after (f s1) s1 in
  f s = Returns v1 s1 /\ f s1 = Returns v2 s2.
Proof.
  unfold twice. destruct (f s) as [a s1| |] eqn:E1; try discriminate.
  simpl. destruct (f s1) as [b s2| |] eqn:E2; try discriminate.
  intros [= <- <-]. simpl. auto.
Qed.

(** Right after the import, [pl1([0, 1, 0, 1])] is 1 / 0.325, and a second
    call is 1 / 0.346: the 1000 simulated sequences of the first call have
    325 gaps of 1 between turning points, those of the second have 346. *)
Lemma pl1_twice_values :
  twice (pl1 64 [0; 1; 0; 1]%Z 10) seeded =
  Some ((inject_Z 1 / (inject_Z 325 / inject_Z 1000))%Q,
        (inject_Z 1 / (inject_Z 346 / inject_Z 1000))%Q).
Proof. vm_compute. reflexivity. Qed.

(** ** Words drawn from the generator *)

(** The generator after one word, and after [n] words. *)
Definition advance (s : rng) : rng := snd (genrand_uint32 s).

Definition drawn (n : nat) (s : rng) : rng := Nat.iter n advance s.

Lemma drawn_add n n' s : drawn n' (drawn n s) = drawn (n + n') s.
Proof.
  unfold drawn. rewrite Nat.add_comm. symmetry. apply Nat.iter_add.
Qed.

Lemma drawn_S n s : drawn n (advance s) = drawn (S n) s.
Proof. unfold drawn. symmetry. apply Nat.iter_succ_r. Qed.

Lemma getrandbits_words_drawn words : forall k shift acc s,
  snd (getrandbits_words words k shift acc s) = drawn words s.
Proof.
  induction words as [|words IH]; intros k shift acc s; simpl; [reflexivity|].
  destruct (genrand_uint32 s) as [r s'] eqn:E.
  rewrite IH.
  replace s' with (advance s) by (unfold advance; now rewrite E).
  apply drawn_S.
Qed.

(** [getrandbits(k)] for [k >= 1] returns and draws at least one word. *)
Lemma getrandbits_drawn k s :
  (1 <= k)%Z ->
  exists r j, getrandbits k s = (Ok r, drawn j s) /\ (1 <= j)%nat.
Proof.
  intros Hk. unfold getrandbits.
  destruct (Z.ltb_spec k 0); [lia|]. destruct (Z.eqb_spec k 0); [lia|].
  destruct (k <=? 32)%Z.
  - destruct (genrand_uint32 s) as [r s'] eqn:E.
    exists (Z.shiftr r (32 - k)), 1%nat. split; [|lia].
    f_equal. unfold drawn, advance. simpl. now rewrite E.
  - pose proof (getrandbits_words_drawn (Z.to_nat ((k - 1) / 32 + 1)) k 0 0 s) as Hw.
    destruct (getrandbits_words _ k 0 0 s) as [r s'] eqn:E. simpl in Hw.
    exists r, (Z.to_nat ((k - 1) / 32 + 1)). split; [now rewrite Hw|].
    assert (0 <= (k - 1) / 32)%Z by (apply Z.div_pos; lia). lia.
Qed.

Lemma randbelow_loop_drawn fuel : forall k n s,
  (1 <= k)%Z ->
  match randbelow_loop fuel k n s with
  | Returns r s' => (r < n)%Z /\ exists j, (1 <= j)%nat /\ s' = drawn j s
  | Raises _ _ => False
  | OutOfFuel => True
  end.
Proof.
  induction fuel as [|fuel IH]; intros k n s Hk; simpl; [exact I|].
  destruct (getrandbits_drawn k s Hk) as (r & j & -> & Hj).
  destruct (Z.leb_spec n r) as [Hge|Hlt].
  - specialize (IH k n (drawn j s) Hk).
    destruct (randbelow_loop fuel k n (drawn j s)) as [r' s'| |]; auto.
    destruct IH as [Hr (j' & Hj' & ->)]. split; [exact Hr|].
    exists (j + j')%nat. split; [lia | apply drawn_add].
  - split; [exact Hlt|]. exists j. auto.
Qed.

Lemma bit_length_pos n : (1 <= bit_length n)%Z.
Proof. unfold bit_length. pose proof (Z.log2_nonneg n). lia. Qed.

Lemma randint_drawn fuel a b s :
  (a <= b)%Z ->
  match randint fuel a b s with
  | Returns v s' => exists j, (1 <= j)%nat /\ s' = drawn j s
  | Raises _ _ => False
  | OutOfFuel => True
  end.
Proof.
  intros Hab. unfold randint. destruct (Z.ltb_spec 0 (b + 1 - a)); [|lia].
  unfold andThen, _randbelow.
  pose proof (randbelow_loop_drawn fuel (bit_length (b + 1 - a)) (b + 1 - a) s
                (bit_length_pos _)) as Hr.
  destruct (randbelow_loop fuel _ _ s) as [r s'| |]; auto. apply Hr.
Qed.

Lemma rand_seq_drawn fuel base m : forall s,
  (1 <= base)%Z ->
  match rand_seq fuel base m s with
  | Returns xs s' => exists j, (m <= j)%nat /\ s' = drawn j s
  | Raises _ _ => False
  | OutOfFuel => True
  end.
Proof.
  induction m as [|m IH]; intros s Hb; simpl.
  - exists 0%nat. split; [lia | reflexivity].
  - unfold andThen. pose proof (randint_drawn fuel 0 (base - 1) s ltac:(lia)) as Hx.
    destruct (randint fuel 0 (base - 1) s) as [x s1| |]; auto.
    destruct Hx as (j1 & Hj1 & ->). specialize (IH (drawn j1 s) Hb).
    destruct (rand_seq fuel base m (drawn j1 s)) as [xs s2| |]; auto.
    destruct IH as (j2 & Hj2 & ->). exists (j1 + j2)%nat.
    split; [lia | apply drawn_add].
Qed.

Lemma trials_drawn fuel m d base num_trials : forall total s,
  (1 <= base)%Z ->
  match trials fuel m d base num_trials total s with
  | Returns total' s' => exists j, (num_trials * m <= j)%nat /\ s' = drawn j s
  | Raises _ _ => False
  | OutOfFuel => True
  end.
Proof.
  induction num_trials as [|n IH]; intros total s Hb; cbn [trials].
  - exists 0%nat. split; [lia | reflexivity].
  - unfold andThen. pose proof (rand_seq_drawn fuel base m s Hb) as Hx.
    destruct (rand_seq fuel base m s) as [xs s1| |]; auto.
    destruct Hx as (j1 & Hj1 & ->).
    specialize (IH (total + count_gaps (_extract_tp_indices xs) d)%nat (drawn j1 s) Hb).
    destruct (trials fuel m d base n _ (drawn j1 s)) as [t s2| |]; auto.
    destruct IH as (j2 & Hj2 & ->). exists (j1 + j2)%nat.
    split; [lia | apply drawn_add].
Qed.

(** ** The fuel is a cut of the rejection loop, not a parameter of the value *)

Lemma andThen_Returns {A B} (m : rng -> outcome A) (k : A -> rng -> outcome B) s b s2 :
  andThen m k s = Returns b s2 <->
  exists a s1, m s = Returns a s1 /\ k a s1 = Returns b s2.
Proof.
  unfold andThen. split.
  - destruct (m s) as [a s1| |]; [eauto | discriminate | discriminate].
  - intros (a & s1 & -> & H). exact H.
Qed.

Lemma randbelow_loop_mono fuel : forall fuel' k n s r s',
  (fuel <= fuel')%nat ->
  randbelow_loop fuel k n s = Returns r s' ->
  randbelow_loop fuel' k n s = Returns r s'.
Proof.
  induction fuel as [|fuel IH]; intros fuel' k n s r s' Hle; simpl; [discriminate|].
  destruct fuel' as [|fuel']; [lia|]. simpl.
  destruct (getrandbits k s) as [[x|e] s1]; [|discriminate].
  destruct (n <=? x)%Z; [apply IH; lia | auto].
Qed.

Lemma randint_mono fuel fuel' a b s v s' :
  (fuel <= fuel')%nat ->
  randint fuel a b s = Returns v s' -> randint fuel' a b s = Returns v s'.
Proof.
  intros Hle. unfold randint. destruct (0 <? b + 1 - a)%Z; [|discriminate].
  rewrite !andThen_Returns. intros (r & s1 & Hr & Hk).
  exists r, s1. split; [|exact Hk].
  unfold _randbelow in *. now apply (randbelow_loop_mono fuel).
Qed.

Lemma rand_seq_mono fuel fuel' base m : forall s xs s',
  (fuel <= fuel')%nat ->
  rand_seq fuel base m s = Returns xs s' -> rand_seq fuel' base m s = Returns xs s'.
Proof.
  induction m as [|m IH]; intros s xs s' Hle; simpl; [auto|].
  rewrite !andThen_Returns. intros (x & s1 & Hx & Hk).
  exists x, s1. split; [now apply (randint_mono fuel)|].
  rewrite andThen_Returns in Hk |- *. destruct Hk as (ys & s2 & Hys & Hr).
  exists ys, s2. split; [now apply IH | exact Hr].
Qed.

Lemma trials_mono fuel fuel' m d base num_trials : forall total s t s',
  (fuel <= fuel')%nat ->
  trials fuel m d base num_trials total s = Returns t s' ->
  trials fuel' m d base num_trials total s = Returns t s'.
Proof.
  induction num_trials as [|n IH]; intros total s t s' Hle; cbn [trials]; [auto|].
  rewrite !andThen_Returns. intros (xs & s1 & Hxs & Hk).
  exists xs, s1. split; [now apply (rand_seq_mono fuel) | now apply IH].
Qed.

(** ** [_pl_d] *)

(** The value [_pl_d] returns for [observed] gaps when the 1000 simulated
    sequences have [total] of them. *)
Definition ratio_to_simulated (observed total : nat) : Q :=
  let expected := (inject_Z (Z.of_nat total) / inject_Z (Z.of_nat 1000))%Q in
  if Qlt_le_dec 0 expected
  then (inject_Z (Z.of_nat observed) / expected)%Q
  else 0%Q.

Lemma ratio_to_simulated_nonneg observed total :
  (0 <= ratio_to_simulated observed total)%Q.
Proof.
  unfold ratio_to_simulated. cbv zeta.
  destruct (Qlt_le_dec 0 _) as [Hpos|_]; [|apply Qle_refl].
  apply Qle_shift_div_l; [exact Hpos|]. rewrite Qmult_0_l.
  replace 0%Q with (inject_Z 0) by reflexivity. rewrite <- Zle_Qle. lia.
Qed.

Lemma _pl_d_Returns fuel z d base s v s' :
  (d + 3 <= Z.of_nat (length z))%Z ->
  _pl_d fuel z d base s = Returns v s' <->
  exists total,
    trials fuel (length z) d base 1000 0 s = Returns total s' /\
    v = ratio_to_simulated (count_gaps (_extract_tp_indices z) d) total.
Proof.
  intros Hlen. unfold _pl_d.
  destruct (Z.ltb_spec (Z.of_nat (length z)) (d + 3)); [lia|].
  rewrite andThen_Returns. unfold _empirical_expected_pl. split.
  - intros (expected & s1 & He & Hv). apply andThen_Returns in He as (total & s2 & Ht & He).
    simpl in He. injection He as <- <-. exists total.
    unfold ratio_to_simulated. cbv zeta.
    destruct (Qlt_le_dec 0 _); injection Hv as <- <-; auto.
  - intros (total & Ht & ->). eexists _, s'. split.
    + apply andThen_Returns. exists total, s'. split; [exact Ht | reflexivity].
    + unfold ratio_to_simulated. cbv zeta. destruct (Qlt_le_dec 0 _); reflexivity.
Qed.

Lemma _pl_d_never_raises fuel z d base s e s' :
  (1 <= base)%Z -> _pl_d fuel z d base s <> Raises e s'.
Proof.
  intros Hb. unfold _pl_d. destruct (Z.of_nat (length z) <? d + 3)%Z; [discriminate|].
  unfold andThen at 1, _empirical_expected_pl, andThen at 1.
  pose proof (trials_drawn fuel (length z) d base 1000 0 s Hb) as Ht.
  destruct (trials fuel (length z) d base 1000 0 s) as [t s1| |];
    [|contradiction|discriminate].
  simpl. destruct (Qlt_le_dec 0 _); discriminate.
Qed.

Lemma pl1_as_pl_d fuel z base s : pl1 fuel z base s = _pl_d fuel z 1 base s.
Proof. reflexivity. Qed.

End PhaseLengthFacts.

Module PhaseLengthSpec.
Import Random PhaseLength PhaseLengthFacts.

(** C7, as stated, fails: the generator is seeded once, when the module is
    imported, and every evaluation draws from it.  The first two
    evaluations of [pl1] on [0, 1, 0, 1] in a process return 1 / 0.325 and
    1 / 0.346. *)
Lemma pl1_twice_differs :
  exists v1 s1 v2 s2,
    pl1 64 [0; 1; 0; 1]%Z 10 seeded = Returns v1 s1 /\
    pl1 64 [0; 1; 0; 1]%Z 10 s1 = Returns v2 s2 /\
    (v1 == 1000 # 325)%Q /\ (v2 == 1000 # 346)%Q /\
    ~ (v1 == v2)%Q.
Proof.
  refine (ex_intro _ (inject_Z 1 / (inject_Z 325 / inject_Z 1000))%Q
         (ex_intro _ _
         (ex_intro _ (inject_Z 1 / (inject_Z 346 / inject_Z 1000))%Q
         (ex_intro _ _
         (conj (proj1 (twice_Some _ _ _ _ pl1_twice_values))
         (conj (proj2 (twice_Some _ _ _ _ pl1_twice_values)) _)))))).
  split; [vm_compute; reflexivity|]. split; [vm_compute; reflexivity|].
  vm_compute. discriminate.
Qed.

(** C7, amended: an evaluation of [_pl_d] is a function of its input and
    of the state of the module-level generator, which [random.seed(42)]
    sets when the module is imported and every simulation advances.  On a
    sequence shorter than [d + 3] the call returns 0 and leaves the
    generator as it was.  On a longer one, with [base >= 1], it raises
    nothing; when it returns, the generator has given at least
    [1000 * len(z)] words, and the value is the ratio of the gaps of [d]
    observed in [z] to their mean number in the 1000 simulated sequences
    (0 when that mean is 0), which is not negative; the bound on the
    rejection loop cuts an evaluation short and changes no returned value;
    the sequence enters through its length and its number of gaps of [d]
    only.  Right after the import, the first evaluation of [pl1] on
    [0, 1, 0, 1] returns 1 / 0.325, and the second, from the generator the
    first left, returns 1 / 0.346. *)
Theorem pl_d_draws_from_generator fuel z d base s :
  ((Z.of_nat (length z) < d + 3)%Z -> _pl_d fuel z d base s = Returns 0%Q s) /\
  ((d + 3 <= Z.of_nat (length z))%Z -> (1 <= base)%Z ->
     (forall e s', _pl_d fuel z d base s <> Raises e s') /\
     (forall v s', _pl_d fuel z d base s = Returns v s' ->
        (0 <= v)%Q /\
        (exists total,
           trials fuel (length z) d base 1000 0 s = Returns total s' /\
           v = ratio_to_simulated (count_gaps (_extract_tp_indices z) d) total) /\
        (exists j, (1000 * length z <= j)%nat /\ s' = drawn j s))) /\
  (forall fuel' v s',
     (fuel <= fuel')%nat ->
     _pl_d fuel z d base s = Returns v s' -> _pl_d fuel' z d base s = Returns v s') /\
  (forall z',
     length z' = length z ->
     count_gaps (_extract_tp_indices z') d = count_gaps (_extract_tp_indices z) d ->
     _pl_d fuel z' d base s = _pl_d fuel z d base s) /\
  (seeded = seed 42 /\
   exists v1 s1 v2 s2,
     pl1 64 [0; 1; 0; 1]%Z 10 seeded = Returns v1 s1 /\
     pl1 64 [0; 1; 0; 1]%Z 10 s1 = Returns v2 s2 /\
     (v1 == 1000 # 325)%Q /\ (v2 == 1000 # 346)%Q).
Proof.
  split; [|split; [|split; [|split]]].
  - intros H. unfold _pl_d.
    destruct (Z.ltb_spec (Z.of_nat (length z)) (d + 3)); [reflexivity | lia].
  - intros Hlen Hb. split.
    + intros e s'. now apply _pl_d_never_raises.
    + intros v s' E. apply _pl_d_Returns in E as (total & Ht & ->); [|exact Hlen].
      split; [apply ratio_to_simulated_nonneg|]. split; [exists total; auto|].
      pose proof (trials_drawn fuel (length z) d base 1000 0 s Hb) as Hd.
      rewrite Ht in Hd. exact Hd.
  - intros fuel' v s' Hle.
    destruct (Z.lt_ge_cases (Z.of_nat (length z)) (d + 3)) as [Hs|Hl].
    + unfold _pl_d. destruct (Z.ltb_spec (Z.of_nat (length z)) (d + 3)); [auto | lia].
    + rewrite !_pl_d_Returns by exact Hl. intros (total & Ht & ->).
      exists total. split; [now apply (trials_mono fuel) | reflexivity].
  - intros z' Hlen Hobs. unfold _pl_d. now rewrite Hlen, Hobs.
  - split; [unfold seeded; reflexivity|].
    refine (ex_intro _ (inject_Z 1 / (inject_Z 325 / inject_Z 1000))%Q
           (ex_intro _ _
           (ex_intro _ (inject_Z 1 / (inject_Z 346 / inject_Z 1000))%Q
           (ex_intro _ _
           (conj (proj1 (twice_Some _ _ _ _ pl1_twice_values))
           (conj (proj2 (twice_Some _ _ _ _ pl1_twice_values)) _)))))).
    split; vm_compute; reflexivity.
Qed.

Lemma pl_d_draws_from_generator_witness :
  _pl_d 64 [0; 1; 0]%Z 1 10 seeded = Returns 0%Q seeded /\
  exists v s',
    _pl_d 64 [0; 1; 0; 1]%Z 1 10 seeded = Returns v s' /\
    exists j, (1000 * 4 <= j)%nat /\ s' = drawn j seeded.
Proof.
  split.
  - exact (proj1 (pl_d_draws_from_generator 64 [0; 1; 0]%Z 1 10 seeded) eq_refl).
  - pose proof (proj1 (twice_Some _ _ _ _ pl1_twice_values)) as E.
    rewrite pl1_as_pl_d in E.
    pose proof (proj1 (proj2 (pl_d_draws_from_generator 64 [0; 1; 0; 1]%Z 1 10 seeded)))
      as H.
    assert (H1 : (1 + 3 <= Z.of_nat (length [0; 1; 0; 1]%Z))%Z) by discriminate.
    assert (H2 : (1 <= 10)%Z) by discriminate.
    destruct (H H1 H2) as [_ Hr].
    destruct (Hr _ _ E) as (_ & _ & j & Hj & Hs).
    eexists _, _. split; [exact E|]. exists j. split; [exact Hj | exact Hs].
Defined.

End PhaseLengthSpec.

(** * The deviation reporter: properties *)

Module ServerFacts.
Import Server.

Lemma split_on_nonempty sep s : split_on sep s <> [].
Proof.
  induction s as [|c rest IH]; simpl; [discriminate|].
  destruct (split_on sep rest); [congruence|].
  destruct (Ascii.eqb c sep); discriminate.
Qed.

Lemma prefix_cons_inv a p s :
  String.prefix (String a p) s = true ->
  exists rest, s = String a rest /\ String.prefix p rest = true.
Proof.
  destruct s as [|b rest]; cbn [String.prefix]; [discriminate|].
  destruct (ascii_dec a b) as [<-|]; [eauto | discriminate].
Qed.

(** A name that starts with [freq_] has a second part. *)
Lemma digit_of_freq o :
  startswith "freq_" (metric o) = true -> exists digit, digit_of o = Ok digit.
Proof.
  unfold startswith, digit_of. intros H.
  apply prefix_cons_inv in H as (r1 & -> & H).
  apply prefix_cons_inv in H as (r2 & -> & H).
  apply prefix_cons_inv in H as (r3 & -> & H).
  apply prefix_cons_inv in H as (r4 & -> & H).
  apply prefix_cons_inv in H as (rest & -> & _).
  cbn [split_on]. pose proof (split_on_nonempty "_"%char rest) as Hne.
  destruct (split_on "_"%char rest) as [|part parts]; [congruence|].
  cbn. eauto.
Qed.

Lemma comprehension_returns {A B} (f : A -> res B) (l : list A) :
  Forall (fun x => exists y, f x = Ok y) l ->
  exists ys, comprehension f l = Ok ys.
Proof.
  induction 1 as [|x l [y Hy] _ [ys Hys]]; simpl; [eauto|].
  rewrite Hy. unfold_res. rewrite Hys. eauto.
Qed.

Lemma filter_Forall {A} (f : A -> bool) (l : list A) :
  Forall (fun x => f x = true) (List.filter f l).
Proof.
  apply List.Forall_forall. intros x Hx. now apply filter_In in Hx.
Qed.

Lemma Forall_filter_keep {A} (P : A -> Prop) (f : A -> bool) (l : list A) :
  Forall P l -> Forall P (List.filter f l).
Proof.
  rewrite !List.Forall_forall. intros H x Hx. apply H.
  now apply filter_In in Hx.
Qed.

Lemma digit_bias_suggestion_returns outliers :
  exists s, digit_bias_suggestion (freq_outliers_of outliers) = Ok s.
Proof.
  assert (Hd : Forall (fun x => exists y, digit_of x = Ok y) (freq_outliers_of outliers)).
  { eapply List.Forall_impl; [|apply filter_Forall]. intros x. apply digit_of_freq. }
  unfold digit_bias_suggestion.
  destruct (comprehension_returns digit_of
              (List.filter (has_type "high") (freq_outliers_of outliers)))
    as [fav ->]; [now apply Forall_filter_keep|].
  destruct (comprehension_returns digit_of
              (List.filter (has_type "low") (freq_outliers_of outliers)))
    as [avo ->]; [now apply Forall_filter_keep|].
  unfold_res. eauto.
Qed.

Lemma phase_of_long o :
  (3 <= String.length (metric o))%nat -> exists c, phase_of o = Ok c.
Proof.
  unfold phase_of. destruct (metric o) as [|c1 [|c2 [|c3 rest]]]; simpl; try lia.
  eauto.
Qed.

(** The call returns unless two or more names start with [pl] and one of
    them has no third character. *)
Lemma generate_improvement_suggestions_returns outliers :
  Forall (fun o => startswith "pl" (metric o) = true ->
                   (3 <= String.length (metric o))%nat) outliers ->
  exists suggestions, generate_improvement_suggestions outliers = Ok suggestions.
Proof.
  intros Hpl. unfold generate_improvement_suggestions.
  destruct (digit_bias_suggestion_returns outliers) as [s1 ->].
  assert (Hph : exists s2,
            phase_suggestion
              (List.filter (fun o => startswith "pl" (metric o)) outliers) = Ok s2).
  { unfold phase_suggestion.
    destruct (comprehension_returns phase_of
                (List.filter (fun o => startswith "pl" (metric o)) outliers))
      as [ph ->]; [|unfold_res; eauto].
    apply List.Forall_forall. intros x Hx. apply filter_In in Hx as [Hx Hp].
    apply phase_of_long. rewrite List.Forall_forall in Hpl. now apply Hpl. }
  destruct Hph as [s2 ->]. unfold_res.
  repeat match goal with
  | |- context [if ?b then _ else _] =>
      match type of b with bool => destruct b end
  end; simpl; eauto.
Qed.

End ServerFacts.

Module ServerSpec.
Import Server ServerFacts.

Definition three_freq_outliers : list OutlierInfo :=
  [ {| metric := "freq_0"; deviation_type := "high" |};
    {| metric := "freq_5"; deviation_type := "low" |};
    {| metric := "freq_7"; deviation_type := "high" |} ].

Definition four_freq_two_pattern : list OutlierInfo :=
  [ {| metric := "freq_0"; deviation_type := "high" |};
    {| metric := "freq_5"; deviation_type := "low" |};
    {| metric := "freq_7"; deviation_type := "high" |};
    {| metric := "freq_9"; deviation_type := "low" |};
    {| metric := "adjacent"; deviation_type := "high" |};
    {| metric := "rp"; deviation_type := "high" |} ].

(** C9, as stated, fails: with exactly three outliers whose names start
    with [freq_] the only suggestion is the default one; the combined
    digit-bias suggestion is not among the suggestions. *)
Lemma three_freq_outliers_no_bias_suggestion :
  length (freq_outliers_of three_freq_outliers) = 3%nat /\
  generate_improvement_suggestions three_freq_outliers = Ok [default_suggestion] /\
  exists s, digit_bias_suggestion (freq_outliers_of three_freq_outliers) = Ok s /\
    ~ List.In s [default_suggestion].
Proof.
  split; [reflexivity|]. split; [vm_compute; reflexivity|].
  eexists. split; [vm_compute; reflexivity|].
  intros [E | []]. vm_compute in E. discriminate E.
Qed.

(** C9, amended: the call returns suggestions unless two or more names
    start with [pl] and one of them has no third character, and in the
    suggestions it returns, more than three outliers whose names start with
    [freq_] give the combined digit-bias suggestion, and two or more
    outliers among adjacent, rp, pl1, pl2 and pl3 give the pattern
    suggestion. *)
Theorem suggestions_for_outlier_groups outliers :
  (Forall (fun o => startswith "pl" (metric o) = true ->
                    (3 <= String.length (metric o))%nat) outliers ->
   exists suggestions, generate_improvement_suggestions outliers = Ok suggestions) /\
  (forall suggestions,
     generate_improvement_suggestions outliers = Ok suggestions ->
     ((3 < length (freq_outliers_of outliers))%nat ->
        exists s, digit_bias_suggestion (freq_outliers_of outliers) = Ok s /\
                  List.In s suggestions) /\
     ((2 <= length (pattern_outliers_of outliers))%nat ->
        List.In pattern_suggestion suggestions)).
Proof.
  split; [apply generate_improvement_suggestions_returns|]. intros suggestions.
  unfold generate_improvement_suggestions. cbv zeta.
  destruct (digit_bias_suggestion_returns outliers) as [s1 Hs1]. rewrite Hs1.
  destruct (3 <? length (freq_outliers_of outliers))%nat eqn:Hf;
  destruct (2 <=? length (pattern_outliers_of outliers))%nat eqn:Hp;
  [apply Nat.ltb_lt in Hf | apply Nat.ltb_lt in Hf
   | apply Nat.ltb_ge in Hf | apply Nat.ltb_ge in Hf];
  [apply Nat.leb_le in Hp | apply Nat.leb_gt in Hp
   | apply Nat.leb_le in Hp | apply Nat.leb_gt in Hp];
  unfold_res;
  repeat match goal with
  | |- context [if ?b then _ else _] =>
      match type of b with bool => destruct b end
  end;
  repeat match goal with
  | |- context [phase_suggestion ?l] => destruct (phase_suggestion l)
  end; simpl; try discriminate;
  intros [= <-]; (split; [intros H1 | intros H2]); try lia;
  try (exists s1; split; [reflexivity|]); simpl; auto 10.
Qed.

Lemma suggestions_for_outlier_groups_witness :
  exists suggestions s,
    generate_improvement_suggestions four_freq_two_pattern = Ok suggestions /\
    digit_bias_suggestion (freq_outliers_of four_freq_two_pattern) = Ok s /\
    List.In s suggestions /\
    List.In pattern_suggestion suggestions.
Proof.
  destruct (suggestions_for_outlier_groups four_freq_two_pattern) as [Hret Hin].
  destruct Hret as [suggestions H].
  { unfold four_freq_two_pattern. repeat constructor; simpl; discriminate. }
  destruct (Hin suggestions H) as [Hb Hp].
  destruct Hb as (s & Hs & Hs_in); [vm_compute; lia|].
  exists suggestions, s. split; [exact H|]. split; [exact Hs|].
  split; [exact Hs_in|]. apply Hp. vm_compute. lia.
Defined.

End ServerSpec.

(** * The bounds comparator: outliers, counts and levels *)

Module CheckerMore.
Import Checker CheckerFacts CheckerExamples.

(** What the loop records for an outlier of a row. *)
Definition outlier_of_row (cl : Z) (row : BoundsEntry) (e : OutlierEntry) : Prop :=
  let lower := lower_at cl row in
  let upper := upper_at cl row in
  let value := o_value e in
  o_metric e = metric row /\
  o_expected_range e = (lower, upper) /\
  o_interpretation e = interpretation row /\
  ((value < lower)%Q /\ direction e = "below" /\
     distance_from_bound e = (lower - value)%Q
   \/
   (lower <= value)%Q /\ (upper < value)%Q /\ direction e = "above" /\
     distance_from_bound e = (value - upper)%Q) /\
  relative_distance e = (distance_from_bound e / mean_or_one row)%Q /\
  severity e = classify_severity (relative_distance e).

Lemma loop_body_outliers tm cl acc row acc' :
  loop_body tm cl acc row = Ok acc' ->
  l_outliers acc' = l_outliers acc \/
  exists e, l_outliers acc' = l_outliers acc ++ [e] /\ outlier_of_row cl row e.
Proof.
  unfold loop_body. destruct (tm !! metric row) as [value|] eqn:Hl.
  - unfold_res.
    destruct (row_lower cl row) as [lo|] eqn:Hlo; [|discriminate].
    destruct (row_upper cl row) as [up|] eqn:Hup; [|discriminate].
    apply row_lower_Ok in Hlo as [Hv ->]. apply row_upper_Ok in Hup as [_ ->].
    destruct (Qle_bool (lower_at cl row) value) eqn:E1;
      destruct (Qle_bool value (upper_at cl row)) eqn:E2; simpl.
    + destruct (py_div _ _); [|discriminate]. intros [= <-]. now left.
    + destruct (Qlt_le_dec value (lower_at cl row)) as [Hlt|Hle];
        (destruct (py_div _ _) as [d|]; [|discriminate]); intros [= <-];
        right; eexists; (split; [reflexivity|]); unfold outlier_of_row; simpl;
        repeat split; auto.
      right. repeat split; auto. apply Qnot_le_lt. intros Hc.
      apply Qle_bool_iff in Hc. congruence.
    + destruct (Qlt_le_dec value (lower_at cl row)) as [Hlt|Hle];
        (destruct (py_div _ _) as [d|]; [|discriminate]); intros [= <-];
        right; eexists; (split; [reflexivity|]); unfold outlier_of_row; simpl;
        repeat split; auto.
      exfalso. apply Qle_bool_iff in Hle. congruence.
    + destruct (Qlt_le_dec value (lower_at cl row)) as [Hlt|Hle];
        (destruct (py_div _ _) as [d|]; [|discriminate]); intros [= <-];
        right; eexists; (split; [reflexivity|]); unfold outlier_of_row; simpl;
        repeat split; auto.
      exfalso. apply Qle_bool_iff in Hle. congruence.
  - intros [= <-]. now left.
Qed.

Lemma iterrows_outliers tm cl rows : forall acc ls,
  iterrows tm cl rows acc = Ok ls ->
  Forall (fun e => exists row, outlier_of_row cl row e) (l_outliers acc) ->
  Forall (fun e => exists row, outlier_of_row cl row e) (l_outliers ls).
Proof.
  induction rows as [|row rest IH]; intros acc ls; simpl.
  - now intros [= <-].
  - unfold_res. destruct (loop_body tm cl acc row) as [acc'|] eqn:Hb; [|discriminate].
    intros Hrest Hacc. apply (IH acc' ls Hrest).
    apply loop_body_outliers in Hb as [-> | (e & -> & He)]; [assumption|].
    apply Forall_app; split; [assumption|]. constructor; [eauto | constructor].
Qed.

Lemma check_outliers tm bt cl r :
  check_sequence_randomness tm bt cl = Ok r ->
  Forall (fun e => exists row, outlier_of_row cl row e) (outliers r).
Proof.
  intros H. apply check_Ok in H as (ls & Hit & -> & _).
  apply (iterrows_outliers tm cl bt no_lists ls Hit). constructor.
Qed.

Lemma mean_or_one_pos row : (0 < mean_or_one row)%Q.
Proof.
  unfold mean_or_one. destruct (Qlt_le_dec 0 (expected_mean row)); [assumption|].
  reflexivity.
Qed.

(** Each outlier whose value and bounds are numbers lies strictly outside
    its range, on the side [direction] names: [below] is a value under
    the lower bound, with [distance_from_bound] the lower bound minus the
    value; [above] is a value over the upper bound, with
    [distance_from_bound] the value minus the upper bound.  The distance
    is strictly positive and the relative distance is not negative. *)
Theorem outlier_distances_positive tm bt cl r :
  check_sequence_randomness tm bt cl = Ok r ->
  Forall (fun e =>
            (0 < distance_from_bound e)%Q /\
            (0 <= relative_distance e)%Q /\
            (direction e = "below" /\
               (o_value e < fst (o_expected_range e))%Q /\
               distance_from_bound e = (fst (o_expected_range e) - o_value e)%Q
             \/
             direction e = "above" /\
               (snd (o_expected_range e) < o_value e)%Q /\
               distance_from_bound e = (o_value e - snd (o_expected_range e))%Q))
         (outliers r).
Proof.
  intros H. eapply List.Forall_impl; [|exact (check_outliers _ _ _ _ H)].
  intros e (row & _ & Hrange & _ & Hdir & Hrel & _). rewrite Hrange. simpl.
  assert (Hd : (0 < distance_from_bound e)%Q).
  { destruct Hdir as [(Hlt & _ & ->) | (_ & Hgt & _ & ->)];
      unfold Qminus; rewrite <- Qlt_minus_iff; assumption. }
  split; [exact Hd|]. split.
  - rewrite Hrel. apply Qle_shift_div_l; [apply mean_or_one_pos|].
    rewrite Qmult_0_l. now apply Qlt_le_weak.
  - destruct Hdir as [(Hlt & Hb & Hdist) | (_ & Hgt & Ha & Hdist)]; auto.
Qed.

Lemma outlier_distances_positive_witness :
  check_sequence_randomness nine_in_one_out ten_rows 95 = Ok nine_tenths /\
  Forall (fun e =>
            (0 < distance_from_bound e)%Q /\
            (0 <= relative_distance e)%Q /\
            (direction e = "below" /\
               (o_value e < fst (o_expected_range e))%Q /\
               distance_from_bound e = (fst (o_expected_range e) - o_value e)%Q
             \/
             direction e = "above" /\
               (snd (o_expected_range e) < o_value e)%Q /\
               distance_from_bound e = (o_value e - snd (o_expected_range e))%Q))
         (outliers nine_tenths).
Proof.
  assert (H : check_sequence_randomness nine_in_one_out ten_rows 95 = Ok nine_tenths)
    by (vm_compute; reflexivity).
  split; [exact H|]. exact (outlier_distances_positive _ _ _ _ H).
Defined.

Lemma classify_severity_severe rel :
  (String.eqb (classify_severity rel) "high" ||
   String.eqb (classify_severity rel) "extreme") = true <-> (0.5 < rel)%Q.
Proof.
  unfold classify_severity.
  destruct (Qlt_le_dec 1.0 rel) as [H1|H1]; [|destruct (Qlt_le_dec 0.5 rel) as [H2|H2]];
    simpl; split; auto; try discriminate.
  - intros _. eapply Qlt_trans; [|exact H1]. reflexivity.
  - intros H. exfalso. eapply Qlt_irrefl, Qlt_le_trans; eauto.
Qed.

Lemma check_severe tm bt cl r :
  check_sequence_randomness tm bt cl = Ok r ->
  severe_outlier_count r = length (List.filter is_severe (outliers r)) /\
  outlier_count r = length (outliers r).
Proof.
  unfold check_sequence_randomness. unfold_res.
  destruct (iterrows tm cl bt no_lists); [|discriminate].
  intros [= <-]. simpl. auto.
Qed.

(** The severe outliers are the outliers whose relative distance is over
    one half; there are no more of them than outliers. *)
Theorem severe_outliers_over_half tm bt cl r :
  check_sequence_randomness tm bt cl = Ok r ->
  severe_outlier_count r =
    length (List.filter (fun e => if Qlt_le_dec 0.5 (relative_distance e)
                                  then true else false) (outliers r)) /\
  (severe_outlier_count r <= outlier_count r)%nat.
Proof.
  intros H. destruct (check_severe _ _ _ _ H) as [-> ->].
  pose proof (check_outliers _ _ _ _ H) as Hshape. split.
  - f_equal. apply filter_ext_in_iff. intros e He.
    rewrite List.Forall_forall in Hshape.
    destruct (Hshape e He) as (row & _ & _ & _ & _ & _ & Hsev).
    unfold is_severe. rewrite Hsev.
    destruct (Qlt_le_dec 0.5 (relative_distance e)) as [Hlt|Hle].
    + now apply classify_severity_severe.
    + apply Bool.not_true_is_false. intros Hc.
      apply classify_severity_severe in Hc.
      eapply Qlt_irrefl, Qlt_le_trans; eauto.
  - apply List.filter_length_le.
Qed.

Lemma severe_outliers_over_half_witness :
  check_sequence_randomness nine_in_one_out ten_rows 95 = Ok nine_tenths /\
  severe_outlier_count nine_tenths = 0%nat /\
  (severe_outlier_count nine_tenths <= outlier_count nine_tenths)%nat.
Proof.
  assert (H : check_sequence_randomness nine_in_one_out ten_rows 95 = Ok nine_tenths)
    by (vm_compute; reflexivity).
  split; [exact H|].
  destruct (severe_outliers_over_half _ _ _ _ H) as [E Hle].
  split; [rewrite E; vm_compute; reflexivity | exact Hle].
Defined.

Lemma outcomes_partition tm cl (bt : BoundsTable) :
  (length (List.filter (is_within tm cl) bt) +
   length (List.filter (is_outlier tm cl) bt) +
   length (List.filter (is_missing tm) bt))%nat = length bt.
Proof.
  induction bt as [|row rest IH]; simpl; [reflexivity|].
  unfold is_within at 1, is_outlier at 1, is_missing at 1.
  destruct (tm !! metric row) as [v|]; [destruct (in_range cl row v)|];
    simpl; lia.
Qed.

(** Every row of the table is counted once: within bounds, outlier or
    missing; the tested total leaves the missing rows out. *)
Theorem rows_accounted_for tm bt cl r :
  check_sequence_randomness tm bt cl = Ok r ->
  (within_bounds_count r + outlier_count r + missing_metrics_count r)%nat = length bt /\
  total_metrics_tested r = (within_bounds_count r + outlier_count r)%nat /\
  missing_metrics_count r = length (missing_metrics r).
Proof.
  intros H. pose proof (names_counts _ _ _ _ H) as (_ & _ & Hm).
  pose proof (counts_as_filters _ _ _ _ H) as (Hw & Ho & _).
  apply check_Ok in H as (ls & _ & _ & _ & Hms & Hwc & Hoc & Hmc & Ht & _).
  assert (Emc : missing_metrics_count r = length (missing_metrics r))
    by now rewrite Hmc, Hms.
  split; [|split; [now rewrite Ht, Hwc, Hoc | exact Emc]].
  rewrite Hw, Ho, Emc, Hm, length_map. apply outcomes_partition.
Qed.

Lemma rows_accounted_for_witness :
  check_sequence_randomness nine_in_one_out ten_rows 95 = Ok nine_tenths /\
  (within_bounds_count nine_tenths + outlier_count nine_tenths +
   missing_metrics_count nine_tenths)%nat = 10%nat.
Proof.
  assert (H : check_sequence_randomness nine_in_one_out ten_rows 95 = Ok nine_tenths)
    by (vm_compute; reflexivity).
  split; [exact H|]. exact (proj1 (rows_accounted_for _ _ _ _ H)).
Defined.

Lemma score_of_all n : (0 < n)%nat -> (score_of n n == 1)%Q.
Proof.
  intros Hn. unfold score_of. apply Nat.ltb_lt in Hn as Hb. rewrite Hb.
  field. unfold Qeq. simpl. lia.
Qed.

Lemma score_of_none t : (score_of 0 t == 0)%Q.
Proof.
  unfold score_of. destruct (0 <? t)%nat; [|reflexivity].
  unfold Qdiv. apply Qmult_0_l.
Qed.

Lemma assess_compat a b : (a == b)%Q -> assess a = assess b.
Proof.
  intros E. unfold assess.
  repeat match goal with
  | |- context [Qlt_le_dec ?c a] => destruct (Qlt_le_dec c a)
  end;
  repeat match goal with
  | |- context [Qlt_le_dec ?c b] => destruct (Qlt_le_dec c b)
  end; try reflexivity; exfalso;
  match goal with
  | H1 : (?c < a)%Q, H2 : (b <= ?c)%Q |- _ =>
      rewrite E in H1; exact (Qlt_irrefl _ (Qlt_le_trans _ _ _ H1 H2))
  | H1 : (?c < b)%Q, H2 : (a <= ?c)%Q |- _ =>
      rewrite <- E in H1; exact (Qlt_irrefl _ (Qlt_le_trans _ _ _ H1 H2))
  end.
Qed.

(** A result with no outlier and at least one tested metric scores 1 and
    is [highly_likely_random]; a result with no within-bounds metric
    scores 0 and is [likely_non_random]. *)
Theorem extreme_scores tm bt cl r :
  check_sequence_randomness tm bt cl = Ok r ->
  (outlier_count r = 0%nat -> (0 < within_bounds_count r)%nat ->
     (randomness_score r == 1)%Q /\ assessment r = "highly_likely_random") /\
  (within_bounds_count r = 0%nat ->
     (randomness_score r == 0)%Q /\ assessment r = "likely_non_random").
Proof.
  intros H. pose proof (counts_as_filters _ _ _ _ H) as (_ & _ & Hs).
  apply check_Ok in H as (ls & _ & _ & _ & _ & _ & _ & _ & _ & _ & Ha).
  split.
  - intros Ho Hw. rewrite Ho, Nat.add_0_r in Hs.
    assert (E : (randomness_score r == 1)%Q) by (rewrite Hs; now apply score_of_all).
    split; [exact E|]. rewrite Ha, (assess_compat _ _ E). reflexivity.
  - intros Hw. rewrite Hw in Hs.
    assert (E : (randomness_score r == 0)%Q) by (rewrite Hs; apply score_of_none).
    split; [exact E|]. rewrite Ha, (assess_compat _ _ E). reflexivity.
Qed.

Lemma extreme_scores_witness :
  exists r,
    check_sequence_randomness nine_in_one_out ten_rows 99 = Ok r /\
    (randomness_score r == 1)%Q /\ assessment r = "highly_likely_random".
Proof.
  exists (result_of (check_sequence_randomness nine_in_one_out ten_rows 99)).
  assert (H : check_sequence_randomness nine_in_one_out ten_rows 99 =
              Ok (result_of (check_sequence_randomness nine_in_one_out ten_rows 99)))
    by (vm_compute; reflexivity).
  split; [exact H|].
  apply (proj1 (extreme_scores _ _ _ _ H)); vm_compute; [reflexivity | lia].
Defined.

(** The record enters the result through the names of the table only. *)
Lemma loop_body_local tm tm' cl acc row :
  tm !! metric row = tm' !! metric row ->
  loop_body tm cl acc row = loop_body tm' cl acc row.
Proof. intros E. unfold loop_body. now rewrite E. Qed.

Lemma iterrows_local tm tm' cl rows : forall acc,
  Forall (fun row => tm !! metric row = tm' !! metric row) rows ->
  iterrows tm cl rows acc = iterrows tm' cl rows acc.
Proof.
  induction rows as [|row rest IH]; intros acc H; simpl; [reflexivity|].
  apply Forall_cons in H as [E Hrest]. rewrite (loop_body_local tm tm' cl acc row E).
  unfold_res. destruct (loop_body tm' cl acc row); [now apply IH | reflexivity].
Qed.

(** The result is decided by the values the record has under the names
    of the table: two records that agree on these names give the same
    result, or raise the same exception, whatever else they hold. *)
Theorem result_depends_on_table_names tm tm' bt cl :
  Forall (fun row => tm !! metric row = tm' !! metric row) bt ->
  check_sequence_randomness tm bt cl = check_sequence_randomness tm' bt cl.
Proof.
  intros H. unfold check_sequence_randomness.
  now rewrite (iterrows_local tm tm' cl bt no_lists H).
Qed.

Lemma result_depends_on_table_names_witness :
  check_sequence_randomness record_with_extra two_rows 95 =
  check_sequence_randomness (<["redundancy" := 0.045%Q]> ∅) two_rows 95.
Proof.
  apply result_depends_on_table_names.
  repeat constructor; vm_compute; reflexivity.
Defined.

(** A level other than 95 and 99. *)
Definition tested (tm : gmap string Q) (row : BoundsEntry) : bool :=
  negb (is_missing tm row).

Lemma loop_body_unknown_level tm cl acc row :
  ~ valid_level cl ->
  if tested tm row then loop_body tm cl acc row = Raise KeyError
  else loop_body tm cl acc row =
       Ok {| l_outliers := l_outliers acc;
             l_within_bounds := l_within_bounds acc;
             l_missing_metrics := l_missing_metrics acc ++ [metric row] |}.
Proof.
  intros Hv. unfold tested, is_missing, loop_body.
  destruct (tm !! metric row); simpl; [|reflexivity].
  unfold row_lower.
  destruct (Z.eqb_spec cl 95) as [E|_]; [exfalso; apply Hv; now left|].
  destruct (Z.eqb_spec cl 99) as [E|_]; [exfalso; apply Hv; now right|].
  reflexivity.
Qed.

Lemma iterrows_unknown_level tm cl rows : forall acc,
  ~ valid_level cl ->
  if existsb (tested tm) rows then iterrows tm cl rows acc = Raise KeyError
  else iterrows tm cl rows acc =
       Ok {| l_outliers := l_outliers acc;
             l_within_bounds := l_within_bounds acc;
             l_missing_metrics := l_missing_metrics acc ++ map metric rows |}.
Proof.
  induction rows as [|row rest IH]; intros acc Hv; simpl.
  - rewrite app_nil_r. now destruct acc.
  - pose proof (loop_body_unknown_level tm cl acc row Hv) as Hb.
    destruct (tested tm row); simpl; rewrite Hb; unfold_res; [reflexivity|].
    specialize (IH {| l_outliers := l_outliers acc;
                      l_within_bounds := l_within_bounds acc;
                      l_missing_metrics := l_missing_metrics acc ++ [metric row] |} Hv).
    destruct (existsb (tested tm) rest); [exact IH|].
    rewrite IH. simpl. now rewrite <- app_assoc.
Qed.

(** With a confidence level other than 95 and 99 the call raises
    [KeyError] as soon as one row of the table is tested; when the record
    has none of the table's names it still returns: every row missing,
    score 0, [likely_non_random]. *)
Theorem unknown_confidence_level tm bt cl :
  ~ valid_level cl ->
  (existsb (tested tm) bt = true ->
     check_sequence_randomness tm bt cl = Raise KeyError) /\
  (existsb (tested tm) bt = false ->
     exists r, check_sequence_randomness tm bt cl = Ok r /\
       missing_metrics r = map metric bt /\
       total_metrics_tested r = 0%nat /\
       randomness_score r = 0%Q /\
       assessment r = "likely_non_random").
Proof.
  intros Hv. pose proof (iterrows_unknown_level tm cl bt no_lists Hv) as H.
  unfold check_sequence_randomness. split; intros E; rewrite E in H; rewrite H.
  - reflexivity.
  - unfold_res. eexists. split; [reflexivity|]. simpl. repeat split.
Qed.

Lemma unknown_confidence_level_witness :
  check_sequence_randomness record_with_extra two_rows 90 = Raise KeyError /\
  exists r, check_sequence_randomness ∅ two_rows 90 = Ok r /\
    missing_metrics r = ["redundancy"; "coupon_mean"].
Proof.
  assert (Hv : ~ valid_level 90) by (intros [E | E]; discriminate E).
  destruct (unknown_confidence_level record_with_extra two_rows 90 Hv) as [Hk _].
  destruct (unknown_confidence_level ∅ two_rows 90 Hv) as [_ Hr].
  split; [apply Hk; vm_compute; reflexivity|].
  destruct Hr as (r & Hr & Hm & _); [vm_compute; reflexivity|].
  exists r. split; [exact Hr | exact Hm].
Defined.

End CheckerMore.

(** * [adjacent], [tpi] and [adjacent_diff_stats]: properties *)

Module AdjacentFacts.
Import Metrics MetricsMore PhaseLength.

Lemma adjacent_fold_le z l : forall u d u' d',
  fold_left (adjacent_body z) l (u, d) = (u', d') ->
  (u + d <= u' + d' <= u + d + length l)%nat.
Proof.
  induction l as [|i l IH]; intros u d u' d'; simpl.
  - intros [= <- <-]. lia.
  - destruct (nth (i + 1) z 0 =? nth i z 0 + 1)%Z;
      [|destruct (nth (i + 1) z 0 =? nth i z 0 - 1)%Z];
      intros H; apply IH in H; lia.
Qed.

Lemma ratio_in_unit (a b : nat) :
  (a <= b)%nat -> (0 < b)%nat ->
  (0 <= inject_Z (Z.of_nat a) / inject_Z (Z.of_nat b) <= 1)%Q.
Proof.
  intros Hab Hb.
  assert (Hpos : (0 < inject_Z (Z.of_nat b))%Q).
  { replace 0%Q with (inject_Z 0) by reflexivity. rewrite <- Zlt_Qlt. lia. }
  split.
  - apply Qle_shift_div_l; [assumption|]. rewrite Qmult_0_l.
    replace 0%Q with (inject_Z 0) by reflexivity. rewrite <- Zle_Qle. lia.
  - apply Qle_shift_div_r; [assumption|]. rewrite Qmult_1_l.
    rewrite <- Zle_Qle. lia.
Qed.

(** [adjacent] is a proportion: it lies between 0 and 1 on every
    sequence, and it is 0 on a sequence of fewer than two elements. *)
Theorem adjacent_in_unit_interval (z : list Z) :
  (0 <= adjacent z <= 1)%Q /\
  ((length z < 2)%nat -> adjacent z = 0%Q).
Proof.
  unfold adjacent. destruct (Nat.ltb_spec (length z) 2) as [Hs|Hl].
  - split; [split; [apply Qle_refl | discriminate] | reflexivity].
  - split; [|lia].
    destruct (fold_left (adjacent_body z) (seq 0 (length z - 1)) (0%nat, 0%nat))
      as [up down] eqn:E.
    apply adjacent_fold_le in E. rewrite length_seq in E.
    apply ratio_in_unit; lia.
Qed.

(** ** [tpi] *)





(** ** [adjacent_diff_stats] *)

Lemma py_mean_Z_range (lo hi : Z) (data : list Z) :
  data <> [] ->
  Forall (fun x => (lo <= x <= hi)%Z) data ->
  (inject_Z lo <= py_mean_Z data <= inject_Z hi)%Q.
Proof.
  intros Hne Hd. unfold py_mean_Z.
  assert (Hpos : (0 < inject_Z (Z.of_nat (length data)))%Q).
  { replace 0%Q with (inject_Z 0) by reflexivity. rewrite <- Zlt_Qlt.
    destruct data; [congruence | simpl; lia]. }
  assert (Hsum : (lo * Z.of_nat (length data) <= fold_right Z.add 0 data
                  <= hi * Z.of_nat (length data))%Z).
  { clear Hne Hpos. induction Hd as [|x l Hx Hl IH]; simpl; [lia|]. nia. }
  split.
  - apply Qle_shift_div_l; [assumption|].
    rewrite <- inject_Z_mult, <- Zle_Qle. lia.
  - apply Qle_shift_div_r; [assumption|].
    rewrite <- inject_Z_mult, <- Zle_Qle. lia.
Qed.

(** On a sequence of at least two symbols of the alphabet, the mean
    absolute difference lies between 0 and [base - 1]. *)
Theorem adjacent_diff_mean_range (z : list Z) (base : Z) :
  (2 <= length z)%nat ->
  Forall (fun x => (0 <= x < base)%Z) z ->
  (0 <= adjacent_diff_mean (adjacent_diff_stats z) <= inject_Z (base - 1))%Q.
Proof.
  intros Hlen Hz. unfold adjacent_diff_stats.
  destruct (Nat.ltb_spec (length z) 2) as [?|_]; [lia|]. simpl.
  apply (py_mean_Z_range 0 (base - 1)).
  - unfold abs_diffs. destruct (length z - 1)%nat eqn:E; [lia | discriminate].
  - unfold abs_diffs. apply List.Forall_map, List.Forall_forall.
    intros i Hi. apply in_seq in Hi.
    rewrite List.Forall_forall in Hz.
    pose proof (Hz (nth (i + 1) z 0%Z) ltac:(apply nth_In; lia)).
    pose proof (Hz (nth i z 0%Z) ltac:(apply nth_In; lia)). lia.
Qed.

Lemma adjacent_diff_mean_range_witness :
  (0 <= adjacent_diff_mean (adjacent_diff_stats [1; 5; 2; 2]%Z) <= inject_Z (10 - 1))%Q.
Proof.
  apply (adjacent_diff_mean_range [1; 5; 2; 2]%Z 10).
  - simpl. lia.
  - repeat constructor; lia.
Defined.

End AdjacentFacts.

(** * [autocorr_lag1]: properties *)

Module AutocorrFacts.
Import Metrics MetricsMore.
Import Lqa.

(** The sum of the products of neighbours and the sum of the squares. *)
Fixpoint neighbour_products (l : list Q) : Q :=
  match l with
  | [] => 0
  | a :: t =>
      match t with
      | [] => 0
      | b :: _ => b * a + neighbour_products t
      end
  end%Q.

Definition squares (l : list Q) : Q := py_sum (map (fun a => a * a)%Q l).

Lemma square_nonneg (x : Q) : (0 <= x * x)%Q.
Proof.
  destruct x as [n d]. unfold Qle, Qmult. simpl.
  rewrite Z.mul_1_r. apply Z.square_nonneg.
Qed.

Lemma numerator_as_products (f : Z -> Q) (z : list Z) :
  py_sum (map (fun i => (f (nth i z 0%Z) * f (nth (i - 1) z 0%Z))%Q)
            (seq 1 (length z - 1))) =
  neighbour_products (map f z).
Proof.
  induction z as [|a z IH]; [reflexivity|].
  destruct z as [|b z]; [reflexivity|].
  transitivity (f b * f a + neighbour_products (map f (b :: z)))%Q; [|reflexivity].
  rewrite <- IH.
  replace (length (a :: b :: z) - 1)%nat with (S (length (b :: z) - 1))
    by (simpl; lia).
  rewrite <- cons_seq, <- seq_shift, map_cons, map_map.
  unfold py_sum at 1. cbn [fold_right]. f_equal.
  unfold py_sum. f_equal. apply map_ext_in. intros i Hi. apply in_seq in Hi.
  destruct i as [|i]; [lia|]. simpl. now rewrite Nat.sub_0_r.
Qed.

Lemma products_bound (l : list Q) :
  match l with
  | [] => True
  | a :: _ =>
      (a * a <= 2 * squares l - 2 * neighbour_products l)%Q /\
      (a * a <= 2 * squares l + 2 * neighbour_products l)%Q
  end.
Proof.
  induction l as [|a t IH]; [exact I|].
  destruct t as [|b t].
  - unfold squares, py_sum. cbn [map fold_right neighbour_products].
    pose proof (square_nonneg a). generalize dependent (a * a)%Q. intros.
    split; lra.
  - destruct IH as [IH1 IH2].
    change (neighbour_products (a :: b :: t))
      with (b * a + neighbour_products (b :: t))%Q.
    change (squares (a :: b :: t)) with (a * a + squares (b :: t))%Q.
    generalize dependent (squares (b :: t)).
    generalize dependent (neighbour_products (b :: t)). intros P S IH1 IH2.
    pose proof (square_nonneg (a - b)) as Hm.
    pose proof (square_nonneg (a + b)) as Hp.
    assert (Em : ((a - b) * (a - b) == a * a - 2 * (b * a) + b * b)%Q) by ring.
    assert (Ep : ((a + b) * (a + b) == a * a + 2 * (b * a) + b * b)%Q) by ring.
    rewrite Em in Hm. rewrite Ep in Hp.
    generalize dependent (b * a)%Q. generalize dependent (a * a)%Q.
    generalize dependent (b * b)%Q. intros. split; lra.
Qed.

Lemma squares_nonneg (l : list Q) : (0 <= squares l)%Q.
Proof.
  unfold squares. induction l as [|a t IH]; simpl; [apply Qle_refl|].
  change (fold_right Qplus 0%Q) with py_sum.
  pose proof (square_nonneg a). generalize dependent (a * a)%Q. intros. lra.
Qed.

(** The lag-1 autocorrelation lies between -1 and 1 on every sequence. *)
Theorem autocorr_lag1_range (z : list Z) :
  (-1 <= autocorr_lag1 z <= 1)%Q.
Proof.
  unfold autocorr_lag1. destruct (length z <? 2)%nat; [split; discriminate|].
  set (f := fun v => (inject_Z v - py_mean_Z z)%Q).
  change (py_sum (map (fun v => ((inject_Z v - py_mean_Z z) * (inject_Z v - py_mean_Z z))%Q) z))
    with (py_sum (map (fun v => (f v * f v)%Q) z)).
  rewrite <- (map_map f (fun a => (a * a)%Q)).
  fold (squares (map f z)).
  change (py_sum (map (fun i => ((inject_Z (nth i z 0%Z) - py_mean_Z z) *
                               (inject_Z (nth (i - 1) z 0%Z) - py_mean_Z z))%Q)
                    (seq 1 (length z - 1))))
    with (py_sum (map (fun i => (f (nth i z 0%Z) * f (nth (i - 1) z 0%Z))%Q)
                    (seq 1 (length z - 1)))).
  rewrite numerator_as_products.
  destruct (Qeq_bool (squares (map f z)) 0) eqn:E; [split; discriminate|].
  assert (Hne : ~ (squares (map f z) == 0)%Q)
    by (intros Hc; apply Qeq_bool_iff in Hc; congruence).
  pose proof (squares_nonneg (map f z)) as H0.
  assert (Hpos : (0 < squares (map f z))%Q) by (apply Qle_lteq in H0 as [|Hz]; [assumption|]; exfalso; apply Hne; now symmetry).
  pose proof (products_bound (map f z)) as Hb.
  destruct (map f z) as [|a t] eqn:El.
  { exfalso. apply Hne. reflexivity. }
  destruct Hb as [H1 H2].
  pose proof (square_nonneg a) as Ha.
  generalize dependent (squares (a :: t)).
  generalize dependent (neighbour_products (a :: t)).
  generalize dependent (a * a)%Q. intros.
  split.
  - apply Qle_shift_div_l; [assumption|]. lra.
  - apply Qle_shift_div_r; [assumption|]. lra.
Qed.

Lemma py_sum_zero (l : list Q) :
  Forall (fun q => (q == 0)%Q) l -> (py_sum l == 0)%Q.
Proof.
  induction 1 as [|q l Hq Hl IH]; simpl; [reflexivity|].
  change (fold_right Qplus 0%Q l) with (py_sum l). rewrite Hq, IH. reflexivity.
Qed.

Lemma py_mean_Z_constant (c : Z) (z : list Z) :
  z <> [] -> Forall (fun x => x = c) z -> (py_mean_Z z == inject_Z c)%Q.
Proof.
  intros Hne Hc. unfold py_mean_Z.
  assert (Hsum : fold_right Z.add 0%Z z = (c * Z.of_nat (length z))%Z).
  { clear Hne. induction Hc as [|x l -> Hl IH]; simpl; [lia|]. rewrite IH. lia. }
  rewrite Hsum, inject_Z_mult. field. unfold Qeq. simpl.
  destruct z; [congruence | simpl; lia].
Qed.

(** On a constant sequence the denominator is zero and the guard gives 0. *)
Theorem autocorr_lag1_constant (c : Z) (z : list Z) :
  Forall (fun x => x = c) z -> autocorr_lag1 z = 0%Q.
Proof.
  intros Hc. unfold autocorr_lag1. destruct (length z <? 2)%nat eqn:En; [reflexivity|].
  assert (Hne : z <> []) by (intros ->; discriminate En).
  pose proof (py_mean_Z_constant c z Hne Hc) as Hm.
  match goal with
  | |- (if Qeq_bool ?d 0 then _ else _) = _ =>
      assert (Hd : (d == 0)%Q); [|apply Qeq_bool_iff in Hd; now rewrite Hd]
  end.
  apply py_sum_zero, List.Forall_map. eapply List.Forall_impl; [|exact Hc].
  intros x ->. simpl. rewrite Hm. ring.
Qed.

Lemma autocorr_lag1_constant_witness : autocorr_lag1 [7; 7; 7; 7]%Z = 0%Q.
Proof.
  apply (autocorr_lag1_constant 7). repeat constructor.
Defined.

End AutocorrFacts.

(** * [Counter]: properties *)

Module CounterFacts.
Import Metrics MetricsMore.

Section Generic.

Context {K : Type} (eqb : K -> K -> bool).
Hypothesis eqb_spec : forall x y, eqb x y = true <-> x = y.

Local Abbreviation add := (counter_add_of eqb).
Local Abbreviation get := (Counter_get eqb).

Lemma add_sum x freq :
  list_sum (map snd (add x freq)) = S (list_sum (map snd freq)).
Proof.
  induction freq as [|[y c] rest IH]; simpl; [reflexivity|].
  destruct (eqb x y); simpl; [reflexivity|]. rewrite IH. lia.
Qed.

Lemma add_positive x freq :
  Forall (fun c => (1 <= c)%nat) (map snd freq) ->
  Forall (fun c => (1 <= c)%nat) (map snd (add x freq)).
Proof.
  induction freq as [|[y c] rest IH]; simpl; intros H.
  - constructor; [lia | constructor].
  - apply Forall_cons in H as [Hc Hrest].
    destruct (eqb x y); simpl; constructor; auto; lia.
Qed.

Lemma add_keys x freq y :
  List.In y (map fst (add x freq)) <-> y = x \/ List.In y (map fst freq).
Proof.
  induction freq as [|[k c] rest IH]; simpl.
  - intuition.
  - destruct (eqb x k) eqn:E; simpl.
    + apply eqb_spec in E as ->. intuition.
    + rewrite IH. intuition.
Qed.

Lemma add_NoDup x freq :
  List.NoDup (map fst freq) -> List.NoDup (map fst (add x freq)).
Proof.
  induction freq as [|[k c] rest IH]; simpl; intros H.
  - constructor; [intros [] | constructor].
  - apply List.NoDup_cons_iff in H as [Hk Hrest].
    destruct (eqb x k) eqn:E; simpl.
    + now constructor.
    + constructor; [|now apply IH].
      rewrite add_keys. intros [-> | Hin]; [|contradiction].
      assert (eqb x x = true) by now apply eqb_spec. congruence.
Qed.

Lemma get_add x freq y :
  get y (add x freq) = ((if eqb y x then 1 else 0) + get y freq)%nat.
Proof.
  induction freq as [|[k c] rest IH]; simpl.
  - destruct (eqb y x); reflexivity.
  - destruct (eqb x k) eqn:E; simpl.
    + apply eqb_spec in E as ->. destruct (eqb y k); lia.
    + destruct (eqb y k) eqn:E'; [|exact IH].
      apply eqb_spec in E' as ->.
      destruct (eqb k x) eqn:E''; [|reflexivity].
      apply eqb_spec in E'' as ->.
      assert (eqb x x = true) by now apply eqb_spec. congruence.
Qed.

(** The number of occurrences of [y] in [l]. *)
Definition occurrences (y : K) (l : list K) : nat :=
  length (List.filter (eqb y) l).

(** What [Counter] keeps true, value after value. *)
Record counted_of (l : list K) (freq : list (K * nat)) : Prop := {
  of_sum : list_sum (map snd freq) = length l;
  of_positive : Forall (fun c => (1 <= c)%nat) (map snd freq);
  of_NoDup : List.NoDup (map fst freq);
  of_keys : forall y, List.In y (map fst freq) <-> List.In y l;
  of_get : forall y, get y freq = occurrences y l
}.

Lemma fold_counted_of l : forall seen freq,
  counted_of seen freq ->
  counted_of (seen ++ l) (fold_left (fun freq x => add x freq) l freq).
Proof.
  induction l as [|x l IH]; intros seen freq H; simpl.
  - now rewrite app_nil_r.
  - replace (seen ++ x :: l) with ((seen ++ [x]) ++ l)
      by (now rewrite <- app_assoc).
    apply IH. destruct H as [Hs Hp Hn Hk Hg]. constructor.
    + rewrite add_sum, Hs, length_app. simpl. lia.
    + now apply add_positive.
    + now apply add_NoDup.
    + intros y. rewrite add_keys, Hk, in_app_iff. simpl. intuition.
    + intros y. rewrite get_add, Hg. unfold occurrences.
      rewrite List.filter_app, length_app. simpl.
      destruct (eqb y x); simpl; lia.
Qed.

Lemma Counter_of_counted l : counted_of l (Counter_of eqb l).
Proof.
  apply (fold_counted_of l [] []). constructor; simpl; auto; try constructor; intuition.
Qed.

(** An entry of the counter holds the count [get] finds. *)
Lemma get_entry freq k c :
  List.NoDup (map fst freq) -> List.In (k, c) freq -> get k freq = c.
Proof.
  induction freq as [|[k' c'] rest IH]; simpl; intros Hn Hin; [contradiction|].
  apply List.NoDup_cons_iff in Hn as [Hk Hrest].
  destruct Hin as [[= -> ->] | Hin].
  - assert (E : eqb k k = true) by now apply eqb_spec. now rewrite E.
  - destruct (eqb k k') eqn:E; [|now apply IH].
    apply eqb_spec in E as ->. exfalso. apply Hk.
    apply in_map_iff. exists (k', c). now split.
Qed.

End Generic.

Lemma pair_eqb_spec (p q : Z * Z) : pair_eqb p q = true <-> p = q.
Proof.
  destruct p as [a b], q as [c d]. unfold pair_eqb. simpl.
  rewrite andb_true_iff, !Z.eqb_eq. split; [intros [-> ->] | intros [= -> ->]]; auto.
Qed.

Lemma Counter_as_of (z : list Z) : Counter z = Counter_of Z.eqb z.
Proof.
  reflexivity.
Qed.

Lemma Counter_counted_of (z : list Z) : counted_of Z.eqb z (Counter z).
Proof. rewrite Counter_as_of. apply Counter_of_counted, Z.eqb_eq. Qed.

End CounterFacts.

(** * [rp]: properties *)

Module RpFacts.
Import Metrics MetricsMore CounterFacts AdjacentFacts.

Lemma ones_length {A} (l : list A) : list_sum (map (fun _ => 1%nat) l) = length l.
Proof. induction l; simpl; congruence. Qed.

Lemma singles_le (cs : list nat) :
  Forall (fun c => (1 <= c)%nat) cs ->
  (length (List.filter (fun v => (v =? 1)%nat) cs) <= list_sum cs)%nat /\
  (length cs <= list_sum cs)%nat /\
  (length (List.filter (fun v => (v =? 1)%nat) cs) = list_sum cs <->
   list_sum cs = length cs).
Proof.
  induction 1 as [|c cs Hc _ (IH1 & IH2 & IH3)]; simpl; [lia|].
  destruct (Nat.eqb_spec c 1) as [->|Hne]; simpl; lia.
Qed.

Lemma length_bigrams z : length (bigrams z) = (length z - 1)%nat.
Proof. unfold bigrams. now rewrite length_map, length_seq. Qed.

Lemma ratio_one (a b : nat) :
  (0 < b)%nat ->
  (1 - inject_Z (Z.of_nat a) / inject_Z (Z.of_nat b) == 0)%Q <-> a = b.
Proof.
  intros Hb.
  assert (Hnz : ~ (inject_Z (Z.of_nat b) == 0)%Q).
  { unfold Qeq. simpl. lia. }
  split.
  - intros H.
    assert (E : (inject_Z (Z.of_nat a) == inject_Z (Z.of_nat b))%Q).
    { setoid_replace (inject_Z (Z.of_nat a))
        with (inject_Z (Z.of_nat b) -
              (1 - inject_Z (Z.of_nat a) / inject_Z (Z.of_nat b)) * inject_Z (Z.of_nat b))%Q
        using relation Qeq by (field; exact Hnz).
      rewrite H. ring. }
    unfold Qeq in E. simpl in E. lia.
  - intros ->. field. exact Hnz.
Qed.

(** [rp] lies between 0 and 1, and on a sequence of at least two elements
    it is 0 exactly when no bigram occurs twice. *)
Theorem rp_range (z : list Z) :
  (0 <= rp z <= 1)%Q /\
  ((2 <= length z)%nat -> ((rp z == 0)%Q <-> List.NoDup (bigrams z))).
Proof.
  unfold rp. destruct (Nat.ltb_spec (length z) 2) as [Hs|Hl].
  - split; [split; [apply Qle_refl | discriminate] | lia].
  - rewrite ones_length.
    destruct (Counter_of_counted pair_eqb pair_eqb_spec (bigrams z))
      as [Hsum Hpos Hnd Hkeys _].
    rewrite length_bigrams in Hsum.
    destruct (singles_le _ Hpos) as (Hle & Hlen & Hall).
    rewrite Hsum in Hle, Hlen, Hall.
    set (nrs := length (List.filter (fun v => (v =? 1)%nat)
                          (map snd (Counter_of pair_eqb (bigrams z))))) in *.
    split.
    + destruct (ratio_in_unit nrs (length z - 1) Hle ltac:(lia)) as [H0 H1].
      generalize dependent (inject_Z (Z.of_nat nrs) / inject_Z (Z.of_nat (length z - 1)))%Q.
      intros q H0 H1. split.
      * apply Qle_minus_iff in H1. exact H1.
      * apply Qle_minus_iff. setoid_replace (1 + - (1 - q))%Q with q using relation Qeq by ring. exact H0.
    + intros _. rewrite ratio_one by lia. rewrite Hall, length_map.
      rewrite <- (length_map fst (Counter_of pair_eqb (bigrams z))), <- length_bigrams.
      split.
      * intros E. apply (NoDup_incl_NoDup Hnd); [lia|].
        intros p Hp. now apply Hkeys.
      * intros Hb. apply Nat.le_antisymm.
        -- apply NoDup_incl_length; [exact Hb|]. intros p Hp. now apply Hkeys.
        -- apply NoDup_incl_length; [exact Hnd|]. intros p Hp. now apply Hkeys.
Qed.

End RpFacts.

(** * [max_min_ratio] and [digit_frequencies]: properties *)

Module FrequencyFacts.
Import Metrics MetricsMore CounterFacts AdjacentFacts CouponFacts.

(** ** [max_min_ratio] *)

Lemma fold_min_bounds (rest : list nat) : forall x lo,
  (lo <= x)%nat -> Forall (fun c => (lo <= c)%nat) rest ->
  (lo <= fold_left Nat.min rest x <= x)%nat.
Proof.
  induction rest as [|c rest IH]; intros x lo Hx Hrest; simpl; [lia|].
  apply Forall_cons in Hrest as [Hc Hrest].
  specialize (IH (Nat.min x c) lo ltac:(lia) Hrest). lia.
Qed.

Lemma fold_max_bounds (rest : list nat) : forall x,
  (x <= fold_left Nat.max rest x <= x + list_sum rest)%nat.
Proof.
  induction rest as [|c rest IH]; intros x; simpl; [lia|].
  specialize (IH (Nat.max x c)). lia.
Qed.

(** The branch that returns [float('inf')] is never taken: every count of
    a [Counter] is at least 1.  The ratio is 0.0 on the empty sequence and
    lies between 1 and [len(z)] otherwise. *)
Theorem max_min_ratio_finite (z : list Z) :
  exists q, max_min_ratio z = Float q /\
    (z = [] -> q = 0%Q) /\
    (z <> [] -> (1 <= q <= inject_Z (Z.of_nat (length z)))%Q).
Proof.
  unfold max_min_ratio. destruct (Counter_counted_of z) as [Hsum Hpos _ _ _].
  destruct (Counter z) as [|[k c] rest] eqn:E.
  - exists 0%Q. split; [reflexivity|]. split; [reflexivity|].
    intros Hne. destruct z; [congruence | discriminate Hsum].
  - simpl in *. apply Forall_cons in Hpos as [Hc Hrest].
    pose proof (fold_min_bounds (map snd rest) c 1%nat Hc Hrest) as Hmin.
    pose proof (fold_max_bounds (map snd rest) c) as Hmax.
    set (min_f := fold_left Nat.min (map snd rest) c) in *.
    set (max_f := fold_left Nat.max (map snd rest) c) in *.
    destruct (Nat.ltb_spec 0 min_f) as [_|?]; [|lia].
    eexists. split; [reflexivity|]. split.
    + intros ->. discriminate E.
    + intros _.
      assert (Hpos : (0 < inject_Z (Z.of_nat min_f))%Q).
      { replace 0%Q with (inject_Z 0) by reflexivity. rewrite <- Zlt_Qlt. lia. }
      split.
      * apply Qle_shift_div_l; [assumption|]. rewrite Qmult_1_l, <- Zle_Qle. lia.
      * apply Qle_shift_div_r; [assumption|].
        rewrite <- inject_Z_mult, <- Zle_Qle. nia.
Qed.

(** ** [digit_frequencies] *)

Lemma indicator_sum (x : Z) (L : list Z) :
  List.NoDup L ->
  list_sum (map (fun i => if (i =? x)%Z then 1%nat else 0%nat) L) =
  if existsb (Z.eqb x) L then 1%nat else 0%nat.
Proof.
  induction 1 as [|i L Hi _ IH]; simpl; [reflexivity|].
  rewrite IH. rewrite (Z.eqb_sym x i).
  destruct (Z.eqb_spec i x) as [->|Hne]; simpl; [|reflexivity].
  destruct (existsb (Z.eqb x) L) eqn:E; [|reflexivity].
  apply existsb_exists in E as (y & Hy & Exy). apply Z.eqb_eq in Exy as <-.
  contradiction.
Qed.

Lemma list_sum_map_add {A} (f g : A -> nat) (L : list A) :
  list_sum (map (fun i => (f i + g i)%nat) L) =
  (list_sum (map f L) + list_sum (map g L))%nat.
Proof. induction L as [|i L IH]; simpl; lia. Qed.

Lemma occurrences_cons (i x : Z) (z : list Z) :
  occurrences Z.eqb i (x :: z) =
  ((if (i =? x)%Z then 1 else 0) + occurrences Z.eqb i z)%nat.
Proof. unfold occurrences. simpl. now destruct (i =? x)%Z. Qed.

(** Over distinct symbols, the occurrences add up to the number of
    elements that are one of the symbols. *)
Lemma occurrences_sum (L z : list Z) :
  List.NoDup L ->
  list_sum (map (fun i => occurrences Z.eqb i z) L) =
  length (List.filter (fun x => existsb (Z.eqb x) L) z).
Proof.
  intros HL. induction z as [|x z IH].
  - simpl. clear. induction L; simpl; [reflexivity | assumption].
  - rewrite (map_ext _ _ (fun i => occurrences_cons i x z)).
    rewrite list_sum_map_add, IH, (indicator_sum x L HL). simpl.
    destruct (existsb (Z.eqb x) L); simpl; lia.
Qed.

Lemma in_py_range (x base : Z) :
  existsb (Z.eqb x) (py_range base) = true <-> (0 <= x < base)%Z.
Proof.
  rewrite existsb_exists. unfold py_range. split.
  - intros (y & Hy & E). apply Z.eqb_eq in E as <-.
    apply in_map_iff in Hy as (k & <- & Hk). apply in_seq in Hk. lia.
  - intros Hx. exists x. split; [|apply Z.eqb_refl].
    apply in_map_iff. exists (Z.to_nat x). split; [lia|]. apply in_seq. lia.
Qed.

(** The dict has one entry for each digit of [range(base)], under
    distinct keys; each value is a proportion, 0.0 on the empty sequence
    and otherwise the number of occurrences of the digit over [len(z)].
    These numerators add up to at most [len(z)], and to [len(z)] itself
    on a sequence of symbols of the alphabet. *)
Theorem digit_frequencies_distribution (z : list Z) (base : Z) :
  let d := digit_frequencies z base in
  let count := fun i : Z => occurrences Z.eqb i z in
  length d = Z.to_nat base /\
  List.NoDup (map fst d) /\
  Forall (fun q => (0 <= q <= 1)%Q) (map snd d) /\
  (z = [] -> Forall (fun q => q = 0%Q) (map snd d)) /\
  (z <> [] ->
     map snd d =
     map (fun i => (inject_Z (Z.of_nat (count i)) /
                    inject_Z (Z.of_nat (length z)))%Q) (py_range base)) /\
  (list_sum (map count (py_range base)) <= length z)%nat /\
  (Forall (fun x => (0 <= x < base)%Z) z ->
     list_sum (map count (py_range base)) = length z).
Proof.
  unfold digit_frequencies. rewrite !map_map. simpl.
  destruct (Counter_counted_of z) as [_ _ _ _ Hget].
  pose proof (occurrences_sum (py_range base) z (py_range_NoDup base)) as Hsum.
  split; [|split; [|split; [|split; [|split; [|split]]]]].
  - unfold py_range. now rewrite !length_map, length_seq.
  - apply Finite.Injective_map_NoDup; [|apply py_range_NoDup].
    intros i j [= E]. now apply pretty_Z_inj in E.
  - apply List.Forall_map, List.Forall_forall. intros i _.
    destruct (Nat.ltb_spec 0 (length z)) as [Hn|_]; [|split; discriminate].
    apply ratio_in_unit; [|assumption].
    rewrite Hget. apply List.filter_length_le.
  - intros ->. apply List.Forall_map, List.Forall_forall. intros i _. reflexivity.
  - intros Hne. apply map_ext. intros i.
    destruct (Nat.ltb_spec 0 (length z)) as [_|Hn];
      [now rewrite Hget | destruct z; [congruence | simpl in Hn; lia]].
  - rewrite Hsum. apply List.filter_length_le.
  - intros Hz. rewrite Hsum, forallb_filter_id; [reflexivity|].
    apply forallb_forall. intros x Hx. apply in_py_range.
    rewrite List.Forall_forall in Hz. now apply Hz.
Qed.

Lemma digit_frequencies_distribution_witness :
  list_sum (map (fun i : Z => occurrences Z.eqb i [3; 1; 4; 1; 5]%Z) (py_range 10)) = 5%nat /\
  map snd (digit_frequencies [3; 1; 4; 1; 5]%Z 10) =
  map (fun i => (inject_Z (Z.of_nat (occurrences Z.eqb i [3; 1; 4; 1; 5]%Z)) /
                 inject_Z (Z.of_nat 5))%Q) (py_range 10).
Proof.
  pose proof (digit_frequencies_distribution [3; 1; 4; 1; 5]%Z 10)
    as (_ & _ & _ & _ & Hvalues & _ & Hsum).
  split.
  - apply Hsum. repeat constructor; lia.
  - apply Hvalues. discriminate.
Defined.

End FrequencyFacts.

(** * [repetition_gap]: properties *)

Module GapFacts.
Import Metrics MetricsMore AdjacentFacts.

(** The indices under [t] at which [z] holds [k], in increasing order. *)
Definition where_is (z : list Z) (k : Z) (t : nat) : list nat :=
  List.filter (fun idx => (nth idx z 0 =? k)%Z) (seq 0 t).

Lemma where_is_S z k t :
  where_is z k (S t) =
  where_is z k t ++ (if (nth t z 0 =? k)%Z then [t] else []).
Proof.
  unfold where_is. rewrite seq_S, List.filter_app. simpl.
  now destruct (nth t z 0 =? k)%Z.
Qed.

Lemma positions_body_spec (L : list Z) (z : list Z) (t : nat) :
  positions_body (map (fun k => (k, where_is z k t)) L) (t, nth t z 0%Z) =
  map (fun k => (k, where_is z k (S t))) L.
Proof.
  unfold positions_body.
  assert (E : positions_append (nth t z 0%Z) t (map (fun k => (k, where_is z k t)) L) =
              map (fun k => (k, where_is z k (S t))) L).
  { unfold positions_append. rewrite map_map. apply map_ext. intros k. simpl.
    rewrite where_is_S, (Z.eqb_sym k).
    destruct (nth t z 0 =? k)%Z; [reflexivity | now rewrite app_nil_r]. }
  destruct (existsb _ _) eqn:Ex; [exact E|].
  apply map_ext_in. intros k Hk. rewrite where_is_S.
  destruct (Z.eqb_spec (nth t z 0%Z) k) as [Ek|_]; [|now rewrite app_nil_r].
  exfalso. apply Bool.not_true_iff_false in Ex. apply Ex.
  apply existsb_exists. exists (k, where_is z k t). split.
  - apply in_map_iff. now exists k.
  - simpl. apply Z.eqb_eq. now symmetry.
Qed.

Lemma fold_positions (L : list Z) (z : list Z) : forall suf pre,
  z = pre ++ suf ->
  fold_left positions_body (combine (seq (length pre) (length suf)) suf)
    (map (fun k => (k, where_is z k (length pre))) L) =
  map (fun k => (k, where_is z k (length z))) L.
Proof.
  induction suf as [|x suf IH]; intros pre Hz; cbn [length seq combine fold_left].
  - subst z. rewrite app_nil_r. reflexivity.
  - assert (Hx : x = nth (length pre) z 0%Z).
    { subst z. rewrite app_nth2 by lia. now rewrite Nat.sub_diag. }
    rewrite Hx at 1. rewrite positions_body_spec.
    specialize (IH (pre ++ [x])). rewrite length_app in IH. simpl in IH.
    rewrite Nat.add_1_r in IH. apply IH. subst z. now rewrite <- app_assoc.
Qed.

(** After the loop, the entry of each digit of [range(base)] lists the
    indices at which the digit stands, in increasing order. *)
Lemma positions_of_spec (z : list Z) (base : Z) :
  positions_of z base =
  map (fun k => (k, where_is z k (length z))) (py_range base).
Proof.
  unfold positions_of, enumerate, positions_init.
  apply (fold_positions (py_range base) z z []). reflexivity.
Qed.

Lemma filter_seq_increasing (f : nat -> bool) (n : nat) : forall a i,
  (1 <= i < length (List.filter f (seq a n)))%nat ->
  (a <= nth (i - 1) (List.filter f (seq a n)) 0 <
        nth i (List.filter f (seq a n)) 0)%nat /\
  (nth i (List.filter f (seq a n)) 0 < a + n)%nat.
Proof.
  induction n as [|n IH]; intros a i Hi; simpl in *; [lia|].
  assert (Hin : forall j, (j < length (List.filter f (seq (S a) n)))%nat ->
            (S a <= nth j (List.filter f (seq (S a) n)) 0 < S a + n)%nat).
  { intros j Hj. pose proof (nth_In _ 0%nat Hj) as H.
    apply filter_In in H as [H _]. apply in_seq in H. lia. }
  destruct (f a); simpl in *.
  - destruct i as [|[|i]]; [lia| |].
    + simpl. specialize (Hin 0%nat ltac:(lia)). lia.
    + specialize (IH (S a) (S i) ltac:(lia)). simpl in IH |- *.
      rewrite Nat.sub_0_r in IH. lia.
  - specialize (IH (S a) i Hi). lia.
Qed.

Lemma where_is_NoDup z k :
  List.NoDup z -> (length (where_is z k (length z)) <= 1)%nat.
Proof.
  intros Hnd. destruct (Nat.le_gt_cases (length (where_is z k (length z))) 1) as [|Hlen];
    [assumption|exfalso].
  unfold where_is in *.
  pose proof (filter_seq_increasing (fun idx => (nth idx z 0 =? k)%Z)
                (length z) 0 1 ltac:(lia)) as Hlt.
  assert (Hat : forall j, (j < 2)%nat ->
            let idx := nth j (List.filter (fun idx => (nth idx z 0 =? k)%Z)
                                (seq 0 (length z))) 0%nat in
            (idx < length z)%nat /\ nth idx z 0%Z = k).
  { intros j Hj.
    assert (H : In (nth j (List.filter (fun idx => (nth idx z 0 =? k)%Z)
                             (seq 0 (length z))) 0%nat)
                   (List.filter (fun idx => (nth idx z 0 =? k)%Z) (seq 0 (length z))))
      by (apply nth_In; lia).
    apply filter_In in H as [H E]. apply in_seq in H. apply Z.eqb_eq in E.
    split; [lia | exact E]. }
  destruct (Hat 0%nat ltac:(lia)) as [H0 E0]. destruct (Hat 1%nat ltac:(lia)) as [H1 E1].
  simpl in Hlt.
  pose proof (proj1 (NoDup_nth z 0%Z) Hnd _ _ H0 H1 ltac:(congruence)). lia.
Qed.

Lemma gaps_of_short (indices : list nat) :
  (length indices <= 1)%nat -> gaps_of indices = [].
Proof.
  intros H. unfold gaps_of.
  replace (length indices - 1)%nat with 0%nat by lia. reflexivity.
Qed.

Lemma gaps_bounds (z : list Z) (base : Z) :
  Forall (fun g => (1 <= g <= Z.of_nat (length z) - 1)%Z) (gaps z base).
Proof.
  unfold gaps. rewrite positions_of_spec, map_map. simpl.
  apply List.Forall_concat, List.Forall_map, List.Forall_forall. intros k _.
  unfold gaps_of. apply List.Forall_map, List.Forall_forall. intros i Hi.
  apply in_seq in Hi. unfold where_is in *.
  pose proof (filter_seq_increasing (fun idx => (nth idx z 0 =? k)%Z)
                (length z) 0 i ltac:(lia)). lia.
Qed.

(** Every gap is the distance between two different indices of [z]: at
    least 1 and at most [len(z) - 1], and so is the mean of the gaps when
    there is one; a sequence without a repeated element has no gap, and the
    call returns 0.0 for both. *)
Theorem repetition_gap_range (z : list Z) (base : Z) :
  Forall (fun g => (1 <= g <= Z.of_nat (length z) - 1)%Z) (gaps z base) /\
  (gaps z base <> [] ->
     (1 <= mean (repetition_gap z base) <= inject_Z (Z.of_nat (length z) - 1))%Q) /\
  (List.NoDup z ->
     gaps z base = [] /\
     mean (repetition_gap z base) = 0%Q /\ std (repetition_gap z base) = 0%R).
Proof.
  pose proof (gaps_bounds z base) as Hb. split; [exact Hb|]. split.
  - intros Hne. unfold repetition_gap.
    destruct (gaps z base) as [|g gs] eqn:E; [congruence|]. simpl.
    apply (py_mean_Z_range 1 (Z.of_nat (length z) - 1)); [discriminate | exact Hb].
  - intros Hnd.
    assert (E : gaps z base = []).
    { unfold gaps. rewrite positions_of_spec, map_map. simpl.
      induction (py_range base) as [|k L IH]; simpl; [reflexivity|].
      rewrite IH, app_nil_r. apply gaps_of_short. now apply where_is_NoDup. }
    split; [exact E|]. unfold repetition_gap. rewrite E. split; reflexivity.
Qed.

End GapFacts.

(** * The transition matrix: counts, probabilities and errors *)

Module TransitionMore.
Import Transition TransitionFacts.

(** The count in cell [(a, b)], and the sum of row [a]. *)
Definition cell (t : list (list Z)) (a b : nat) : Z :=
  match t !! a with
  | Some row => match row !! b with Some n => n | None => 0%Z end
  | None => 0%Z
  end.

Definition row_sum (t : list (list Z)) (a : nat) : Z :=
  match t !! a with
  | Some row => Zsum row
  | None => 0%Z
  end.

(** The transitions [a -> b] of [sequence] at distance [step], among the
    indices [indices]. *)
Definition from_to (sequence : list Z) (step : nat) (a b : Z) (i : nat) : bool :=
  (nth i sequence 0 =? a)%Z && (nth (i + step) sequence 0 =? b)%Z.

Definition transitions_between (sequence : list Z) (step : nat) (a b : Z) : nat :=
  length (List.filter (from_to sequence step a b) (seq 0 (length sequence - step))).

Definition departures (sequence : list Z) (step : nat) (a : Z) : nat :=
  length (List.filter (fun i => (nth i sequence 0 =? a)%Z) (seq 0 (length sequence - step))).

Lemma cell_zeros base a b : cell (np_zeros base) a b = 0%Z.
Proof.
  unfold cell, np_zeros.
  destruct (replicate base (replicate base 0%Z) !! a) as [row|] eqn:Hr; [|reflexivity].
  apply lookup_replicate in Hr as [-> _].
  destruct (replicate base 0%Z !! b) as [n|] eqn:Hn; [|reflexivity].
  now apply lookup_replicate in Hn as [-> _].
Qed.

Lemma Zsum_replicate n : Zsum (replicate n 0%Z) = 0%Z.
Proof. induction n; simpl; lia. Qed.

Lemma row_sum_zeros base a : row_sum (np_zeros base) a = 0%Z.
Proof.
  unfold row_sum, np_zeros.
  destruct (replicate base (replicate base 0%Z) !! a) as [row|] eqn:Hr; [|reflexivity].
  apply lookup_replicate in Hr as [-> _]. apply Zsum_replicate.
Qed.

Lemma Zsum_insert (row : list Z) c n m :
  row !! c = Some n -> Zsum (<[c := m]> row) = (Zsum row - n + m)%Z.
Proof.
  revert c. induction row as [|x row IH]; intros [|c] H; simpl in *; try discriminate.
  - injection H as ->. lia.
  - rewrite (IH c H). lia.
Qed.

Lemma increment_cell base t r c a b :
  counts_ok base t -> (r < base)%nat -> (c < base)%nat ->
  cell (increment t r c) a b =
  (cell t a b + if (a =? r)%nat && (b =? c)%nat then 1 else 0)%Z.
Proof.
  intros [Hlen Hrows] Hr Hc. unfold increment.
  destruct (lookup_lt_is_Some_2 t r ltac:(lia)) as [row Hrow]. rewrite Hrow.
  pose proof (Forall_lookup_1 _ _ _ _ Hrows Hrow) as [Hrl _].
  destruct (lookup_lt_is_Some_2 row c ltac:(lia)) as [n Hn]. rewrite Hn.
  unfold cell. destruct (Nat.eqb_spec a r) as [->|Har]; simpl.
  - rewrite list_lookup_insert_eq by (apply lookup_lt_Some in Hrow; lia). rewrite Hrow.
    destruct (Nat.eqb_spec b c) as [->|Hbc].
    + rewrite list_lookup_insert_eq by lia. now rewrite Hn.
    + rewrite list_lookup_insert_ne by congruence. lia.
  - rewrite list_lookup_insert_ne by congruence. lia.
Qed.

Lemma increment_row_sum base t r c a :
  counts_ok base t -> (r < base)%nat -> (c < base)%nat ->
  row_sum (increment t r c) a =
  (row_sum t a + if (a =? r)%nat then 1 else 0)%Z.
Proof.
  intros [Hlen Hrows] Hr Hc. unfold increment.
  destruct (lookup_lt_is_Some_2 t r ltac:(lia)) as [row Hrow]. rewrite Hrow.
  pose proof (Forall_lookup_1 _ _ _ _ Hrows Hrow) as [Hrl _].
  destruct (lookup_lt_is_Some_2 row c ltac:(lia)) as [n Hn]. rewrite Hn.
  unfold row_sum. destruct (Nat.eqb_spec a r) as [->|Har]; simpl.
  - rewrite list_lookup_insert_eq by (apply lookup_lt_Some in Hrow; lia). rewrite Hrow.
    rewrite (Zsum_insert _ _ _ _ Hn). lia.
  - rewrite list_lookup_insert_ne by congruence. lia.
Qed.

Lemma py_index_nth (l : list Z) (i : nat) :
  (i < length l)%nat -> py_index l i = Ok (nth i l 0%Z).
Proof.
  intros Hi. unfold py_index.
  destruct (lookup_lt_is_Some_2 l i Hi) as [x Hx]. rewrite Hx.
  f_equal. symmetry. apply nth_lookup_Some with (d := 0%Z) in Hx. exact Hx.
Qed.

Lemma np_index_alphabet (base : nat) (x : Z) :
  (0 <= x < Z.of_nat base)%Z -> np_index base x = Ok (Z.to_nat x).
Proof.
  intros Hx. unfold np_index.
  destruct (Z.leb_spec 0 x); [|lia].
  destruct (Z.ltb_spec x (Z.of_nat base)); [|lia]. reflexivity.
Qed.

Definition alphabet (base : nat) (sequence : list Z) : Prop :=
  Forall (fun x => (0 <= x < Z.of_nat base)%Z) sequence.

Lemma alphabet_nth base sequence i :
  alphabet base sequence -> (i < length sequence)%nat ->
  (0 <= nth i sequence 0 < Z.of_nat base)%Z.
Proof.
  intros H Hi. unfold alphabet in H. rewrite List.Forall_forall in H.
  apply H, nth_In, Hi.
Qed.

Lemma count_body_alphabet sequence step base t i :
  alphabet base sequence -> (i + step < length sequence)%nat ->
  count_body sequence step base t i =
  Ok (increment t (Z.to_nat (nth i sequence 0%Z))
                  (Z.to_nat (nth (i + step) sequence 0%Z))).
Proof.
  intros Ha Hi. unfold count_body. unfold_res.
  rewrite !py_index_nth by lia.
  rewrite !np_index_alphabet by (apply alphabet_nth; [assumption | lia]).
  reflexivity.
Qed.

Lemma count_loop_cells sequence step base indices : forall t,
  alphabet base sequence ->
  Forall (fun i => (i + step < length sequence)%nat) indices ->
  counts_ok base t ->
  exists t', count_loop sequence step base indices t = Ok t' /\
    counts_ok base t' /\
    (forall a b, (a < base)%nat -> (b < base)%nat ->
       cell t' a b =
       (cell t a b +
        Z.of_nat (length (List.filter
                            (from_to sequence step (Z.of_nat a) (Z.of_nat b)) indices)))%Z) /\
    (forall a, (a < base)%nat ->
       row_sum t' a =
       (row_sum t a +
        Z.of_nat (length (List.filter
                            (fun i => (nth i sequence 0 =? Z.of_nat a)%Z) indices)))%Z).
Proof.
  induction indices as [|i rest IH]; intros t Ha Hidx Hok; simpl.
  - exists t. split; [reflexivity|]. split; [assumption|]. split; intros; lia.
  - apply Forall_cons in Hidx as [Hi Hrest]. simpl in Hi.
    rewrite count_body_alphabet by assumption. unfold_res.
    pose proof (alphabet_nth base sequence i Ha ltac:(lia)) as Hx.
    pose proof (alphabet_nth base sequence (i + step) Ha Hi) as Hy.
    set (x := nth i sequence 0%Z) in *. set (y := nth (i + step) sequence 0%Z) in *.
    destruct (IH (increment t (Z.to_nat x) (Z.to_nat y)) Ha Hrest
                (increment_ok _ _ _ _ Hok)) as (t' & Ht' & Hok' & Hcell & Hrow).
    exists t'. split; [exact Ht'|]. split; [exact Hok'|]. split.
    + intros a b Hlta Hltb. rewrite (Hcell a b Hlta Hltb).
      rewrite (increment_cell base) by (assumption || lia).
      unfold from_to at 2. fold x y.
      destruct (Nat.eqb_spec a (Z.to_nat x)) as [->|Hne];
        [rewrite Z2Nat.id, Z.eqb_refl by lia
        |destruct (Z.eqb_spec x (Z.of_nat a)); [lia|]]; simpl.
      * destruct (Nat.eqb_spec b (Z.to_nat y)) as [->|Hne];
          [rewrite Z2Nat.id, Z.eqb_refl by lia
          |destruct (Z.eqb_spec y (Z.of_nat b)); [lia|]]; simpl; lia.
      * lia.
    + intros a Hlta. rewrite (Hrow a Hlta).
      rewrite (increment_row_sum base) by (assumption || lia). fold x.
      destruct (Nat.eqb_spec a (Z.to_nat x)) as [->|Hne];
        [rewrite Z2Nat.id, Z.eqb_refl by lia
        |destruct (Z.eqb_spec x (Z.of_nat a)); [lia|]]; simpl; lia.
Qed.

(** On a sequence of symbols of the alphabet, the count matrix has in
    cell [(a, b)] the number of indices [i < len(sequence) - step] with
    [sequence[i] = a] and [sequence[i + step] = b], and row [a] sums to
    the number of such indices with [sequence[i] = a]. *)
Theorem count_transitions_counts sequence step base :
  alphabet base sequence ->
  exists t, count_transitions sequence step base = Ok t /\
    length t = base /\
    Forall (fun row => length row = base) t /\
    (forall a b, (a < base)%nat -> (b < base)%nat ->
       cell t a b =
       Z.of_nat (transitions_between sequence step (Z.of_nat a) (Z.of_nat b))) /\
    (forall a, (a < base)%nat ->
       row_sum t a = Z.of_nat (departures sequence step (Z.of_nat a))).
Proof.
  intros Ha. unfold count_transitions.
  destruct (count_loop_cells sequence step base (seq 0 (length sequence - step))
              (np_zeros base) Ha) as (t & Ht & [Hlen Hrows] & Hcell & Hrow).
  - apply List.Forall_forall. intros i Hi. apply in_seq in Hi. lia.
  - apply np_zeros_ok.
  - exists t. split; [exact Ht|]. split; [exact Hlen|]. split; [|split].
    + eapply List.Forall_impl; [|exact Hrows]. now intros row [H _].
    + intros a b Hlta Hltb. rewrite (Hcell a b Hlta Hltb), cell_zeros. reflexivity.
    + intros a Hlta. rewrite (Hrow a Hlta), row_sum_zeros. reflexivity.
Qed.

Lemma count_transitions_counts_witness :
  exists t, count_transitions [0; 1; 0; 1; 1]%Z 1 2 = Ok t /\ cell t 0 1 = 2%Z.
Proof.
  destruct (count_transitions_counts [0; 1; 0; 1; 1]%Z 1 2) as (t & Ht & _ & _ & Hcell & _).
  - repeat constructor; lia.
  - exists t. split; [exact Ht|]. rewrite (Hcell 0%nat 1%nat) by lia. reflexivity.
Defined.

(** ** The probabilities *)

Lemma divide_row_cell uninit a (row : list Z) b n :
  Zsum row <> 0%Z -> row !! b = Some n ->
  map nan_to_num (divide_row uninit a row) !! b =
  Some (Finite (inject_Z n / inject_Z (Zsum row))).
Proof.
  intros Hs Hn. apply Z.eqb_neq in Hs. unfold divide_row.
  rewrite list_lookup_fmap, list_lookup_imap, Hn. simpl. now rewrite Hs.
Qed.

Lemma row_as_cells (t : list (list Z)) a crow :
  t !! a = Some crow ->
  crow = map (fun b => cell t a b) (seq 0 (length crow)).
Proof.
  intros Hrow. apply list_eq. intros b. rewrite list_lookup_fmap.
  destruct (decide (b < length crow)%nat) as [Hlt|Hge].
  - rewrite lookup_seq_lt by assumption. simpl. unfold cell. rewrite Hrow.
    destruct (lookup_lt_is_Some_2 crow b Hlt) as [n ->]. reflexivity.
  - rewrite lookup_seq_ge by lia. simpl. apply lookup_ge_None_2. lia.
Qed.

Lemma Zsum_of_nat {A} (f : A -> nat) (l : list A) :
  Zsum (map (fun x => Z.of_nat (f x)) l) = Z.of_nat (list_sum (map f l)).
Proof. induction l as [|x l IH]; simpl; [reflexivity|]. rewrite IH. lia. Qed.

(** [matrix[a, b]] is the relative frequency of [b] among the symbols
    found [step] places after an [a]: on a sequence of symbols of the
    alphabet the call returns [base] rows of length [base].  The
    transitions that leave [a] are as many as the indices
    [i < len(sequence) - step] at which [a] stands; the row of a symbol
    [a] that stands at one of them has
    [transitions a -> b / departures from a] in column [b], so that the
    numerators of the row add up to its denominator; the row of any other
    symbol is what the fresh memory held. *)
Theorem transition_probabilities uninit sequence step base :
  alphabet base sequence ->
  exists m, calculate_transition_matrix uninit sequence step base = Ok m /\
    length m = base /\
    forall a, (a < base)%nat ->
      exists row, m !! a = Some row /\ length row = base /\
        list_sum (map (fun b => transitions_between sequence step
                                  (Z.of_nat a) (Z.of_nat b)) (seq 0 base)) =
        departures sequence step (Z.of_nat a) /\
        (departures sequence step (Z.of_nat a) <> 0%nat ->
           forall b, (b < base)%nat ->
             row !! b =
             Some (Finite
                     (inject_Z (Z.of_nat (transitions_between sequence step
                                            (Z.of_nat a) (Z.of_nat b))) /
                      inject_Z (Z.of_nat (departures sequence step (Z.of_nat a)))))) /\
        (departures sequence step (Z.of_nat a) = 0%nat ->
           row = map (fun j => nan_to_num (uninit a j)) (seq 0 base)).
Proof.
  intros Ha. unfold calculate_transition_matrix, count_transitions.
  destruct (count_loop_cells sequence step base (seq 0 (length sequence - step))
              (np_zeros base) Ha) as (t & Ht & [Hlen Hrows] & Hcell & Hrow);
    [apply List.Forall_forall; intros i Hi; apply in_seq in Hi; lia
    |apply np_zeros_ok|].
  rewrite Ht. unfold_res. eexists. split; [reflexivity|]. split.
  - unfold np_divide_where. now rewrite length_map, length_imap.
  - intros a Hlta.
    destruct (lookup_lt_is_Some_2 t a ltac:(lia)) as [crow Hcrow].
    pose proof (Forall_lookup_1 _ _ _ _ Hrows Hcrow) as Hok.
    pose proof (Hrow a Hlta) as Hsum. rewrite row_sum_zeros in Hsum.
    unfold row_sum in Hsum. rewrite Hcrow in Hsum. simpl in Hsum.
    fold (departures sequence step (Z.of_nat a)) in Hsum.
    exists (map nan_to_num (divide_row uninit a crow)).
    split; [|split; [|split; [|split]]].
    + now rewrite list_lookup_fmap, lookup_imap_rows, Hcrow.
    + unfold divide_row. rewrite length_map, length_imap. apply Hok.
    + apply Nat2Z.inj. transitivity (Zsum crow); [|lia].
      rewrite <- Zsum_of_nat, (row_as_cells t a crow Hcrow) at 1.
      destruct Hok as [-> _].
      f_equal. apply map_ext_in. intros b Hb. apply in_seq in Hb.
      rewrite (Hcell a b Hlta ltac:(lia)), cell_zeros. reflexivity.
    + intros Hdep b Hltb. destruct Hok as [Hrl _].
      destruct (lookup_lt_is_Some_2 crow b ltac:(lia)) as [n Hn].
      rewrite (divide_row_cell uninit a crow b n) by (assumption || lia).
      pose proof (Hcell a b Hlta Hltb) as Hc. rewrite cell_zeros in Hc.
      unfold cell in Hc. rewrite Hcrow, Hn in Hc. simpl in Hc.
      fold (transitions_between sequence step (Z.of_nat a) (Z.of_nat b)) in Hc.
      now rewrite Hc, Hsum.
    + intros Hdep. apply divide_row_zero; [assumption | lia].
Qed.

Lemma transition_probabilities_witness :
  exists m row,
    calculate_transition_matrix (fun _ _ => NaN) [0; 1; 0; 1; 1]%Z 1 2 = Ok m /\
    m !! 0%nat = Some row /\ row !! 1%nat = Some (Finite (2 / 2)).
Proof.
  destruct (transition_probabilities (fun _ _ => NaN) [0; 1; 0; 1; 1]%Z 1 2)
    as (m & Hm & _ & Hrows).
  - repeat constructor; lia.
  - destruct (Hrows 0%nat ltac:(lia)) as (row & Hrow & _ & _ & Hvisited & _).
    exists m, row. split; [exact Hm|]. split; [exact Hrow|].
    apply (Hvisited ltac:(discriminate) 1%nat). lia.
Defined.

Lemma imap_replicate {A B} (f : nat -> A -> B) (n : nat) (x : A) :
  imap f (replicate n x) = map (fun i => f i x) (seq 0 n).
Proof.
  revert f. induction n as [|n IH]; intros f; simpl; [reflexivity|].
  f_equal. rewrite <- seq_shift, map_map. apply IH.
Qed.

(** With [step >= len(sequence)] the loop does not run, no row is
    written, and the matrix returned is the fresh memory, cell by cell:
    this is the case of the empty sequence. *)
Theorem no_transition_returns_memory uninit sequence step base :
  (length sequence <= step)%nat ->
  calculate_transition_matrix uninit sequence step base =
  Ok (map (fun i => map (fun j => nan_to_num (uninit i j)) (seq 0 base)) (seq 0 base)).
Proof.
  intros Hlen. unfold calculate_transition_matrix, count_transitions.
  replace (length sequence - step)%nat with 0%nat by lia. simpl. unfold_res. f_equal.
  unfold np_divide_where, np_zeros.
  rewrite imap_replicate, map_map. apply map_ext. intros i.
  unfold divide_row. rewrite Zsum_replicate. simpl.
  now rewrite imap_replicate, map_map.
Qed.

Lemma no_transition_returns_memory_witness :
  calculate_transition_matrix (fun _ _ => PosInf) [] 1 2 =
  Ok [[Finite float_max; Finite float_max]; [Finite float_max; Finite float_max]].
Proof.
  apply (no_transition_returns_memory (fun _ _ => PosInf) [] 1 2). simpl. lia.
Defined.

(** ** Symbols outside the alphabet *)

(** The indices numpy accepts on an axis of length [base]. *)
Definition in_bounds (base : nat) (x : Z) : bool :=
  (- Z.of_nat base <=? x)%Z && (x <? Z.of_nat base)%Z.

(** The symbols the body reads at index [i] are both accepted. *)
Definition accepted (sequence : list Z) (step base : nat) (i : nat) : bool :=
  in_bounds base (nth i sequence 0%Z) && in_bounds base (nth (i + step) sequence 0%Z).

Definition wrap (base : nat) (x : Z) : Z := (x mod Z.of_nat base)%Z.

Lemma np_index_in_bounds base x :
  np_index base x =
  if in_bounds base x then Ok (Z.to_nat (wrap base x)) else Raise IndexError.
Proof.
  unfold np_index, in_bounds, wrap.
  destruct (Z.leb_spec 0 x); destruct (Z.ltb_spec x (Z.of_nat base));
    destruct (Z.leb_spec (- Z.of_nat base) x); destruct (Z.ltb_spec x 0);
    simpl; try reflexivity; try lia.
  - now rewrite Z.mod_small by lia.
  - f_equal. f_equal. apply Z.mod_unique with (q := (-1)%Z); lia.
Qed.

Lemma count_body_accepted sequence step base t i :
  (i + step < length sequence)%nat ->
  count_body sequence step base t i =
  if accepted sequence step base i
  then Ok (increment t (Z.to_nat (wrap base (nth i sequence 0%Z)))
                       (Z.to_nat (wrap base (nth (i + step) sequence 0%Z))))
  else Raise IndexError.
Proof.
  intros Hi. unfold count_body, accepted. unfold_res.
  rewrite !py_index_nth by lia. rewrite !np_index_in_bounds.
  destruct (in_bounds base (nth i sequence 0%Z));
    destruct (in_bounds base (nth (i + step) sequence 0%Z)); reflexivity.
Qed.

Lemma in_bounds_wrap base x :
  in_bounds base x = true ->
  in_bounds base (wrap base x) = true /\ wrap base (wrap base x) = wrap base x.
Proof.
  unfold in_bounds, wrap. intros H. apply andb_true_iff in H as [H1 H2].
  apply Z.leb_le in H1. apply Z.ltb_lt in H2.
  assert (Hb : (0 < Z.of_nat base)%Z) by lia.
  pose proof (Z.mod_pos_bound x (Z.of_nat base) Hb). split.
  - apply andb_true_iff. split; [apply Z.leb_le | apply Z.ltb_lt]; lia.
  - apply Z.mod_mod. lia.
Qed.

Lemma nth_wrap base sequence i :
  nth i (map (wrap base) sequence) 0%Z = wrap base (nth i sequence 0%Z).
Proof.
  change 0%Z with (wrap base 0) at 1. apply map_nth.
Qed.

Lemma accepted_wrap sequence step base i :
  accepted sequence step base i = true ->
  accepted (map (wrap base) sequence) step base i = true /\
  wrap base (nth i (map (wrap base) sequence) 0%Z) = wrap base (nth i sequence 0%Z) /\
  wrap base (nth (i + step) (map (wrap base) sequence) 0%Z) =
  wrap base (nth (i + step) sequence 0%Z).
Proof.
  unfold accepted. rewrite !nth_wrap. intros E.
  apply andb_true_iff in E as [E1 E2].
  destruct (in_bounds_wrap _ _ E1) as [-> ->].
  destruct (in_bounds_wrap _ _ E2) as [-> ->]. auto.
Qed.

Lemma count_loop_accepted sequence step base indices : forall t,
  Forall (fun i => (i + step < length sequence)%nat) indices ->
  if forallb (accepted sequence step base) indices
  then (exists t', count_loop sequence step base indices t = Ok t') /\
       count_loop (map (wrap base) sequence) step base indices t =
       count_loop sequence step base indices t
  else count_loop sequence step base indices t = Raise IndexError.
Proof.
  induction indices as [|i rest IH]; intros t Hidx; cbn [forallb count_loop]; [eauto|].
  apply Forall_cons in Hidx as [Hi Hrest]. simpl in Hi.
  rewrite (count_body_accepted sequence step base t i Hi).
  rewrite (count_body_accepted (map (wrap base) sequence) step base t i)
    by (now rewrite length_map).
  destruct (accepted sequence step base i) eqn:E; [|reflexivity].
  destruct (accepted_wrap _ _ _ _ E) as (-> & -> & ->).
  cbn [andb]. unfold_res. apply IH, Hrest.
Qed.

(** The call raises [IndexError] exactly when one of the symbols the loop
    reads lies outside [-base, base); otherwise it returns, and it counts
    a negative symbol [x] as the symbol [base + x]. *)
Theorem symbols_outside_alphabet sequence step base :
  let indices := seq 0 (length sequence - step) in
  (forallb (accepted sequence step base) indices = false ->
     count_transitions sequence step base = Raise IndexError) /\
  (forallb (accepted sequence step base) indices = true ->
     exists t, count_transitions sequence step base = Ok t /\
       count_transitions (map (wrap base) sequence) step base = Ok t).
Proof.
  simpl. unfold count_transitions. rewrite length_map.
  pose proof (count_loop_accepted sequence step base
                (seq 0 (length sequence - step)) (np_zeros base)) as H.
  assert (Hidx : Forall (fun i => (i + step < length sequence)%nat)
                   (seq 0 (length sequence - step))).
  { apply List.Forall_forall. intros i Hi. apply in_seq in Hi. lia. }
  specialize (H Hidx). split; intros E; rewrite E in H.
  - exact H.
  - destruct H as [[t Ht] Hw]. exists t. split; [exact Ht|]. now rewrite Hw.
Qed.

End TransitionMore.

(** * The simulated sequences of the phase lengths: properties *)

Module RandomFacts.
Import Random PhaseLength.

(** ** The words of the generator are not negative *)

Definition nonneg_words (mt : list Z) : Prop := Forall (fun w => (0 <= w)%Z) mt.

Lemma word_nonneg mt i : nonneg_words mt -> (0 <= word mt i)%Z.
Proof.
  intros H. unfold word. destruct (Nat.lt_ge_cases i (length mt)) as [Hi|Hi].
  - unfold nonneg_words in H. rewrite List.Forall_forall in H. apply H, nth_In, Hi.
  - rewrite nth_overflow by assumption. lia.
Qed.

Lemma mag01_nonneg y : (0 <= mag01 y)%Z.
Proof. unfold mag01. destruct (Z.testbit y 0); [discriminate | lia]. Qed.

Lemma twist_nonneg mt kk next far :
  nonneg_words mt -> nonneg_words (twist mt kk next far).
Proof.
  intros H. unfold twist, nonneg_words. apply Forall_insert; [exact H|].
  pose proof (word_nonneg mt kk H). pose proof (word_nonneg mt next H).
  pose proof (word_nonneg mt far H).
  apply Z.lxor_nonneg. split; intros _; [apply mag01_nonneg|].
  apply Z.lxor_nonneg. split; intros _; [|assumption].
  apply Z.shiftr_nonneg, Z.lor_nonneg.
  split; apply Z.land_nonneg; left; assumption.
Qed.

Lemma fold_twist_nonneg (f : nat -> nat * nat) (l : list nat) : forall mt,
  nonneg_words mt ->
  nonneg_words (fold_left (fun mt kk => twist mt kk (fst (f kk)) (snd (f kk))) l mt).
Proof.
  induction l as [|kk l IH]; intros mt H; simpl; [exact H|].
  apply IH, twist_nonneg, H.
Qed.

Lemma regenerate_nonneg mt : nonneg_words mt -> nonneg_words (regenerate mt).
Proof.
  intros H. unfold regenerate. apply twist_nonneg.
  apply (fold_twist_nonneg (fun kk => ((kk + 1)%nat, (kk + M - N)%nat))).
  apply (fold_twist_nonneg (fun kk => ((kk + 1)%nat, (kk + M)%nat))). exact H.
Qed.

Lemma temper_nonneg y : (0 <= y)%Z -> (0 <= temper y)%Z.
Proof.
  intros Hy. unfold temper, u32.
  repeat match goal with
  | |- (0 <= Z.lxor _ _)%Z => apply Z.lxor_nonneg; split; intros _
  | |- (0 <= Z.shiftr _ _)%Z => apply Z.shiftr_nonneg
  | |- (0 <= Z.land _ _)%Z => apply Z.land_nonneg; right; lia
  | |- _ => assumption
  end.
Qed.

Lemma genrand_uint32_nonneg s :
  nonneg_words (state s) ->
  (0 <= fst (genrand_uint32 s))%Z /\ nonneg_words (state (snd (genrand_uint32 s))).
Proof.
  intros H. unfold genrand_uint32.
  destruct (N <=? index s)%nat; simpl.
  - pose proof (regenerate_nonneg _ H) as H'. split; [|exact H'].
    apply temper_nonneg, word_nonneg, H'.
  - split; [|exact H]. apply temper_nonneg, word_nonneg, H.
Qed.

Lemma getrandbits_words_nonneg words : forall k shift acc s,
  (0 <= acc)%Z -> nonneg_words (state s) ->
  (0 <= fst (getrandbits_words words k shift acc s))%Z /\
  nonneg_words (state (snd (getrandbits_words words k shift acc s))).
Proof.
  induction words as [|words IH]; intros k shift acc s Hacc Hs; simpl; [auto|].
  destruct (genrand_uint32_nonneg s Hs) as [Hr Hs'].
  destruct (genrand_uint32 s) as [r s']. simpl in Hr, Hs'.
  apply IH; [|exact Hs'].
  apply Z.lor_nonneg. split; [exact Hacc|]. apply Z.shiftl_nonneg.
  destruct (k <? 32)%Z; [apply Z.shiftr_nonneg|]; exact Hr.
Qed.

Lemma getrandbits_nonneg k s :
  nonneg_words (state s) ->
  nonneg_words (state (snd (getrandbits k s))) /\
  match fst (getrandbits k s) with
  | Ok r => (0 <= k)%Z /\ (0 <= r)%Z
  | Raise e => (k < 0)%Z /\ e = ValueError /\ snd (getrandbits k s) = s
  end.
Proof.
  intros Hs. unfold getrandbits.
  destruct (Z.ltb_spec k 0); [simpl; auto|].
  destruct (Z.eqb_spec k 0); [simpl; split; [assumption | lia]|].
  destruct (k <=? 32)%Z.
  - destruct (genrand_uint32_nonneg s Hs) as [Hr Hs'].
    destruct (genrand_uint32 s) as [r s']. simpl in *.
    split; [exact Hs'|]. split; [lia|]. now apply Z.shiftr_nonneg.
  - destruct (getrandbits_words_nonneg (Z.to_nat ((k - 1) / 32 + 1)) k 0 0 s
                ltac:(lia) Hs) as [Hr Hs'].
    destruct (getrandbits_words _ k 0 0 s) as [r s']. simpl in *.
    split; [exact Hs'|]. split; [lia | exact Hr].
Qed.

Lemma bit_length_nonneg n : (0 <= bit_length n)%Z.
Proof. unfold bit_length. pose proof (Z.log2_nonneg n). lia. Qed.

Lemma randbelow_loop_range fuel : forall k n s,
  (0 <= k)%Z -> nonneg_words (state s) ->
  match randbelow_loop fuel k n s with
  | Returns r s' => (0 <= r < n)%Z /\ nonneg_words (state s')
  | Raises _ _ => False
  | OutOfFuel => True
  end.
Proof.
  induction fuel as [|fuel IH]; intros k n s Hk Hs; simpl; [exact I|].
  destruct (getrandbits_nonneg k s Hs) as [Hs' Hr].
  destruct (getrandbits k s) as [[r|e] s']; simpl in *; [|lia].
  destruct (Z.leb_spec n r); [now apply IH|]. split; [lia | exact Hs'].
Qed.

(** [random.randint(a, b)] raises [ValueError] without drawing when
    [b < a]; otherwise it never raises, and a value it returns lies in
    [a, b]. *)
Lemma randint_range fuel a b s :
  nonneg_words (state s) ->
  match randint fuel a b s with
  | Returns v s' => (a <= v <= b)%Z /\ nonneg_words (state s')
  | Raises e s' => (b < a)%Z /\ e = ValueError /\ s' = s
  | OutOfFuel => (a <= b)%Z
  end.
Proof.
  intros Hs. unfold randint. destruct (Z.ltb_spec 0 (b + 1 - a)) as [Hw|Hw].
  - unfold andThen, _randbelow.
    pose proof (randbelow_loop_range fuel (bit_length (b + 1 - a)) (b + 1 - a) s
                  (bit_length_nonneg _) Hs) as H.
    destruct (randbelow_loop fuel _ _ s) as [r s'| |]; [|contradiction|lia].
    destruct H as [Hr Hs']. split; [lia | exact Hs'].
  - split; [lia|]. split; reflexivity.
Qed.

Lemma seeded_nonneg : nonneg_words (state seeded).
Proof.
  apply List.Forall_forall. intros w Hw.
  assert (H : forallb (fun w => (0 <=? w)%Z) (state seeded) = true)
    by (vm_compute; reflexivity).
  rewrite forallb_forall in H. apply Z.leb_le, H, Hw.
Qed.

(** The simulated sequence [[random.randint(0, base - 1) for _ in
    range(m)]]: when the comprehension returns, it returns [m] symbols of
    the alphabet; it raises only for an empty alphabet, and then it is
    [ValueError] at the first draw, with the generator left as it was. *)
Theorem simulated_sequence_in_alphabet fuel base m s :
  nonneg_words (state s) ->
  match rand_seq fuel base m s with
  | Returns xs s' =>
      length xs = m /\ Forall (fun x => (0 <= x < base)%Z) xs /\
      nonneg_words (state s')
  | Raises e s' => (base <= 0)%Z /\ (0 < m)%nat /\ e = ValueError /\ s' = s
  | OutOfFuel => (0 < base)%Z /\ (0 < m)%nat
  end.
Proof.
  revert s. induction m as [|m IH]; intros s Hs; simpl.
  - split; [reflexivity|]. split; [constructor | exact Hs].
  - unfold andThen. pose proof (randint_range fuel 0 (base - 1) s Hs) as Hx.
    destruct (randint fuel 0 (base - 1) s) as [x s1|e s1|].
    + destruct Hx as [Hx Hs1]. specialize (IH s1 Hs1).
      destruct (rand_seq fuel base m s1) as [xs s2|e s2|].
      * destruct IH as (Hlen & Hxs & Hs2). split; [simpl; congruence|].
        split; [|exact Hs2]. constructor; [lia | exact Hxs].
      * destruct IH as (Hb & _). lia.
      * split; lia.
    + destruct Hx as (Hb & -> & ->). repeat split; lia.
    + split; lia.
Qed.

Lemma simulated_sequence_in_alphabet_witness :
  match rand_seq 64 10 12 seeded with
  | Returns xs s' =>
      length xs = 12%nat /\ Forall (fun x => (0 <= x < 10)%Z) xs /\
      nonneg_words (state s')
  | Raises e s' => (10 <= 0)%Z /\ (0 < 12)%nat /\ e = ValueError /\ s' = seeded
  | OutOfFuel => (0 < 10)%Z /\ (0 < 12)%nat
  end.
Proof.
  apply (simulated_sequence_in_alphabet 64 10 12 seeded). exact seeded_nonneg.
Defined.

(** ** The empty alphabet *)

Lemma rand_seq_empty_alphabet fuel base m s :
  (base <= 0)%Z -> rand_seq fuel base (S m) s = Raises ValueError s.
Proof.
  intros Hb. simpl. unfold andThen, randint.
  destruct (Z.ltb_spec 0 (base - 1 + 1 - 0)); [lia | reflexivity].
Qed.

(** With [base <= 0] a call of [_pl_d] on a sequence long enough to be
    scored raises [ValueError] at the first simulated draw, and leaves the
    generator as it was. *)
Theorem pl_d_empty_alphabet fuel z d base s :
  (d + 3 <= Z.of_nat (length z))%Z -> (0 < length z)%nat -> (base <= 0)%Z ->
  _pl_d fuel z d base s = Raises ValueError s.
Proof.
  intros Hlen Hpos Hb. unfold _pl_d.
  destruct (Z.ltb_spec (Z.of_nat (length z)) (d + 3)); [lia|].
  unfold andThen at 1, _empirical_expected_pl, andThen at 1.
  change 1000%nat with (S 999). cbn [trials]. unfold andThen at 1.
  destruct (length z) as [|m]; [lia|].
  now rewrite rand_seq_empty_alphabet.
Qed.

Lemma pl_d_empty_alphabet_witness :
  _pl_d 64 [0; 1; 0; 1]%Z 1 0 seeded = Raises ValueError seeded.
Proof.
  apply pl_d_empty_alphabet; simpl; lia.
Defined.

End RandomFacts.

(** * [redundancy]: exceptions and the constant sequence *)

Module RedundancyMore.
Import Metrics RedundancyFacts.

Open Scope R_scope.

Lemma log2_zero_iff (base : Z) :
  (0 < base)%Z -> (log2 (IZR base) = 0 <-> base = 1%Z).
Proof.
  intros Hb. split.
  - intros H. unfold log2 in H. pose proof ln2_pos as Hln2.
    assert (Hln : ln (IZR base) = 0).
    { apply Rmult_eq_reg_r with (/ ln 2); [|apply Rinv_neq_0_compat; lra].
      unfold Rdiv in H. rewrite H. ring. }
    assert (H1 : IZR base = 1).
    { apply ln_inv; [apply IZR_lt; lia | lra | now rewrite ln_1]. }
    now apply eq_IZR in H1.
  - intros ->. apply log2_1.
Qed.

(** The exceptions of [redundancy], whatever the symbols: the empty
    sequence gives 0.0 for every [base]; on a sequence that is not empty,
    [base <= 0] raises [ValueError] (the logarithm), [base = 1] raises
    [ZeroDivisionError] (the maximum entropy is 0), and [base >= 2]
    returns a value. *)
Theorem redundancy_exceptions (z : list Z) (base : Z) :
  (z = [] -> redundancy z base = Ok 0) /\
  (z <> [] -> (base <= 0)%Z -> redundancy z base = Raise ValueError) /\
  (z <> [] -> base = 1%Z -> redundancy z base = Raise ZeroDivisionError) /\
  (z <> [] -> (2 <= base)%Z -> exists r, redundancy z base = Ok r).
Proof.
  unfold redundancy. split; [intros ->; reflexivity|].
  assert (Hn : z <> [] -> (length z =? 0)%nat = false).
  { intros H. destruct z; [congruence | reflexivity]. }
  split; [|split]; intros Hz Hb; rewrite (Hn Hz).
  - destruct (Z.leb_spec base 0); [reflexivity | lia].
  - subst base. simpl.
    destruct (Req_dec_T (log2 1) 0) as [_|Hne]; [reflexivity|].
    exfalso. apply Hne, log2_1.
  - destruct (Z.leb_spec base 0); [lia|].
    destruct (Req_dec_T (log2 (IZR base)) 0) as [E|_]; [|eauto].
    apply log2_zero_iff in E; lia.
Qed.

Lemma redundancy_exceptions_witness :
  redundancy [3; 1; 4]%Z 0 = Raise ValueError.
Proof.
  apply (proj1 (proj2 (redundancy_exceptions [3; 1; 4]%Z 0))); [discriminate | lia].
Defined.

(** ** A constant sequence *)

Lemma Counter_constant (c : Z) (z : list Z) :
  z <> [] -> Forall (fun x => x = c) z -> Counter z = [(c, length z)].
Proof.
  intros Hne Hc. unfold Counter.
  destruct z as [|x z]; [congruence|]. apply Forall_cons in Hc as [-> Hc]. simpl.
  clear Hne.
  assert (H : forall k, fold_left (fun freq x => counter_add x freq) z [(c, k)] =
                        [(c, (k + length z)%nat)]).
  { induction Hc as [|x z -> _ IH]; intros k; simpl.
    - now rewrite Nat.add_0_r.
    - rewrite Z.eqb_refl, IH. do 2 f_equal. lia. }
  rewrite H. reflexivity.
Qed.

(** A sequence that repeats one symbol has entropy 0: its redundancy is
    1, for every alphabet of at least two symbols. *)
Theorem redundancy_of_constant (c : Z) (z : list Z) (base : Z) :
  z <> [] -> Forall (fun x => x = c) z -> (2 <= base)%Z ->
  redundancy z base = Ok 1.
Proof.
  intros Hne Hc Hb. unfold redundancy.
  destruct (Nat.eqb_spec (length z) 0) as [E|Hlen];
    [destruct z; [congruence | discriminate E]|].
  destruct (Z.leb_spec base 0); [lia|].
  destruct (Req_dec_T (log2 (IZR base)) 0) as [E|Hmax];
    [apply log2_zero_iff in E; lia|].
  f_equal. rewrite (Counter_constant c z Hne Hc). unfold entropy_of. simpl.
  assert (Hn : INR (length z) <> 0) by (apply not_0_INR; exact Hlen).
  replace (INR (length z) / INR (length z)) with 1 by (field; exact Hn).
  rewrite log2_1. field. exact Hmax.
Qed.

Lemma redundancy_of_constant_witness : redundancy [7; 7; 7]%Z 10 = Ok 1.
Proof.
  apply (redundancy_of_constant 7); [discriminate | repeat constructor | lia].
Defined.

End RedundancyMore.

(** * [coupon]: what the loops record *)

Module CouponMore.
Import Metrics CouponFacts.

(** The length of the shortest run from index [i] that has every symbol,
    when there is one. *)
Definition first_completion (z : list Z) (base : Z) (i : nat) : option nat :=
  List.find (fun n => has_all base (take n (drop i z))) (seq 1 (length z - i)).

Lemma coupon_inner_find z base i k : forall j0 tmp,
  tmp = take j0 (drop i z) ->
  (i + j0 + k <= length z)%nat ->
  coupon_inner z base i (seq j0 k) tmp =
  Ok (List.find (fun n => has_all base (take n (drop i z))) (seq (S j0) k)).
Proof.
  induction k as [|k IH]; intros j0 tmp Htmp Hlen; simpl; [reflexivity|].
  unfold py_index. unfold_res.
  destruct (lookup_lt_is_Some_2 z (i + j0)%nat ltac:(lia)) as [x Hx].
  rewrite Hx.
  assert (Htmp' : tmp ++ [x] = take (S j0) (drop i z)).
  { rewrite Htmp. symmetry. apply take_S_r. now rewrite lookup_drop. }
  rewrite Htmp'. destruct (has_all base (take (S j0) (drop i z))).
  - now rewrite Nat.add_1_r.
  - apply IH; [reflexivity | lia].
Qed.

Lemma coupon_outer_find z base indices : forall lengths,
  coupon_outer z base indices lengths =
  Ok (lengths ++ omap (first_completion z base) indices).
Proof.
  induction indices as [|i rest IH]; intros lengths; simpl.
  - now rewrite app_nil_r.
  - assert (E : coupon_inner z base i (seq 0 (length z - i)) [] =
                Ok (first_completion z base i)).
    { destruct (le_lt_dec i (length z)) as [Hle|Hgt].
      - apply coupon_inner_find; [now rewrite take_0 | lia].
      - unfold first_completion.
        replace (length z - i)%nat with 0%nat by lia. reflexivity. }
    rewrite E. unfold_res. rewrite IH.
    destruct (first_completion z base i); [now rewrite <- app_assoc | reflexivity].
Qed.

Lemma find_first (f : nat -> bool) (k : nat) : forall a n,
  List.find f (seq a k) = Some n ->
  (a <= n < a + k)%nat /\ f n = true /\
  forall n', (a <= n' < n)%nat -> f n' = false.
Proof.
  induction k as [|k IH]; intros a n; simpl; [discriminate|].
  destruct (f a) eqn:E.
  - intros [= <-]. split; [lia|]. split; [exact E|]. intros n' Hn'. lia.
  - intros H. apply IH in H as (Hn & Hf & Hmin).
    split; [lia|]. split; [exact Hf|]. intros n' Hn'.
    destruct (Nat.eq_dec n' a) as [->|Hne]; [exact E | apply Hmin; lia].
Qed.

(** The two loops of [coupon] record, for each start [i] in order, the
    length of the shortest run from [i] that has every symbol of
    [range(base)], and nothing for a start from which no run has them: a
    recorded length [n] is between 1 and [len(z) - i], the run of length
    [n] from [i] has every symbol, and no shorter run from [i] has. *)
Theorem coupon_lengths_first_completions (z : list Z) (base : Z) :
  coupon_lengths z base = Ok (omap (first_completion z base) (seq 0 (length z))) /\
  forall i n, first_completion z base i = Some n ->
    (1 <= n <= length z - i)%nat /\
    has_all base (take n (drop i z)) = true /\
    forall n', (1 <= n' < n)%nat -> has_all base (take n' (drop i z)) = false.
Proof.
  split; [unfold coupon_lengths; apply coupon_outer_find|].
  intros i n H. unfold first_completion in H.
  apply find_first in H as (Hn & Hall & Hmin).
  split; [lia|]. split; [exact Hall | exact Hmin].
Qed.

Lemma has_all_incl base (t u : list Z) :
  incl t u -> has_all base t = true -> has_all base u = true.
Proof.
  unfold has_all. rewrite !forallb_forall. intros Hincl H x Hx.
  specialize (H x Hx). apply existsb_exists in H as (y & Hy & E).
  apply existsb_exists. exists y. split; [apply Hincl, Hy | exact E].
Qed.

Lemma incl_take_drop (z : list Z) i n : incl (take n (drop i z)) z.
Proof.
  intros x Hx.
  rewrite <- (firstn_skipn i z). apply in_or_app. right.
  rewrite <- (firstn_skipn n (skipn i z)). apply in_or_app. left. exact Hx.
Qed.

Lemma py_mean_range (lo hi : nat) (l : list nat) :
  l <> [] ->
  Forall (fun n => (lo <= n <= hi)%nat) l ->
  (inject_Z (Z.of_nat lo) <= py_mean l <= inject_Z (Z.of_nat hi))%Q.
Proof.
  intros Hne Hl. unfold py_mean.
  assert (Hpos : (0 < Z.of_nat (length l))%Z) by (destruct l; [congruence | simpl; lia]).
  assert (Hq : (0 < inject_Z (Z.of_nat (length l)))%Q).
  { replace 0%Q with (inject_Z 0) by reflexivity. now rewrite <- Zlt_Qlt. }
  assert (Hsum : (lo * length l <= list_sum l <= hi * length l)%nat).
  { clear Hne Hpos Hq. induction Hl as [|n l Hn _ IH]; simpl; lia. }
  split.
  - apply Qle_shift_div_l; [exact Hq|]. rewrite <- inject_Z_mult, <- Zle_Qle. lia.
  - apply Qle_shift_div_r; [exact Hq|]. rewrite <- inject_Z_mult, <- Zle_Qle. lia.
Qed.

Lemma first_completion_bounds z base i n :
  first_completion z base i = Some n ->
  (1 <= n <= length z - i)%nat /\ has_all base (take n (drop i z)) = true.
Proof.
  unfold first_completion. intros H. apply find_some in H as [Hin Hall].
  apply in_seq in Hin. split; [lia | exact Hall].
Qed.

(** [coupon] falls back to [len(z) + 1] for the mean and the deviation
    exactly when no run completes the set, that is when [z] is empty or
    lacks a symbol of [range(base)]; otherwise the mean it returns lies
    between 1 and [len(z)]. *)
Theorem coupon_fallback (z : list Z) (base : Z) :
  exists r, coupon z base = Ok r /\
    (z = [] \/ has_all base z = false ->
       mean r = inject_Z (Z.of_nat (length z + 1)) /\
       std r = INR (length z + 1)) /\
    (z <> [] -> has_all base z = true ->
       (1 <= mean r <= inject_Z (Z.of_nat (length z)))%Q).
Proof.
  unfold coupon. unfold coupon_lengths. rewrite coupon_outer_find. cbn [app]. unfold_res.
  set (lengths := omap (first_completion z base) (seq 0 (length z))).
  assert (Hb : Forall (fun n => (1 <= n <= length z)%nat) lengths).
  { apply List.Forall_forall. intros n Hn. apply list_elem_of_In in Hn.
    apply list_elem_of_omap in Hn as (i & _ & Hi).
    apply first_completion_bounds in Hi. lia. }
  assert (Hnone : z = [] \/ has_all base z = false -> lengths = []).
  { intros [-> | Hz]; [reflexivity|]. unfold lengths. clear Hb lengths.
    induction (seq 0 (length z)) as [|i l IH]; simpl; [reflexivity|].
    destruct (first_completion z base i) as [n|] eqn:E; [|exact IH].
    apply first_completion_bounds in E as [_ E].
    apply (has_all_incl base _ z (incl_take_drop z i n)) in E. congruence. }
  assert (Hsome : z <> [] -> has_all base z = true -> lengths <> []).
  { intros Hne Hz.
    assert (Hfirst : exists n, first_completion z base 0 = Some n).
    { destruct (first_completion z base 0) as [n|] eqn:E; [eauto|exfalso].
      unfold first_completion in E.
      pose proof (find_none _ _ E (length z)) as Hn.
      rewrite Nat.sub_0_r in Hn.
      assert (Hin : In (length z) (seq 1 (length z)))
        by (apply in_seq; destruct z; [congruence | simpl; lia]).
      specialize (Hn Hin). change (drop 0 z) with z in Hn. rewrite firstn_all in Hn. congruence. }
    destruct Hfirst as [n Hn].
    assert (Hin : n ∈ lengths).
    { apply list_elem_of_omap. exists 0%nat. split; [|exact Hn].
      apply list_elem_of_In, in_seq. destruct z; [congruence | simpl; lia]. }
    intros E. rewrite E in Hin. inversion Hin. }
  destruct lengths as [|n rest] eqn:El.
  - eexists. split; [reflexivity|]. split; [intros _; split; reflexivity|].
    intros Hne Hz. now destruct (Hsome Hne Hz).
  - eexists. split; [reflexivity|]. split.
    + intros H. apply Hnone in H. discriminate H.
    + intros _ _. cbn [mean].
      apply (py_mean_range 1 (length z)); [discriminate | exact Hb].
Qed.

Lemma coupon_fallback_witness :
  exists r, coupon [0; 1; 1]%Z 3 = Ok r /\ mean r = inject_Z 4.
Proof.
  destruct (coupon_fallback [0; 1; 1]%Z 3) as (r & Hr & Hfall & _).
  exists r. split; [exact Hr|]. apply Hfall. right. reflexivity.
Defined.

End CouponMore.

(** * The extraction of the metrics and the statistical ranges: properties *)

Module ServerMetricsFacts.
Import Checker CheckerFacts CheckerExamples CheckerMore ServerMetrics Features.
Import Lqa.

(** ** [extract_statistical_metrics] *)

Lemma extract_columns_lookup (features : gmap string Q) (cols : list string) :
  forall (metrics : gmap string Q) (name : string),
  fold_left (extract_column features) cols metrics !! name =
  if bool_decide (name ∈ cols)
  then match features !! name with
       | Some v => Some v
       | None => metrics !! name
       end
  else metrics !! name.
Proof.
  induction cols as [|col cols IH]; intros metrics name; cbn [fold_left].
  - rewrite bool_decide_eq_false_2; [reflexivity | apply not_elem_of_nil].
  - rewrite IH. unfold extract_column.
    destruct (decide (name = col)) as [->|Hne].
    + rewrite (bool_decide_eq_true_2 (col ∈ col :: cols)) by apply list_elem_of_here.
      destruct (features !! col) as [v|] eqn:E.
      * rewrite lookup_insert_eq. now destruct (bool_decide _).
      * now destruct (bool_decide _).
    + assert (Hin : bool_decide (name ∈ col :: cols) = bool_decide (name ∈ cols)).
      { apply bool_decide_ext. rewrite elem_of_cons.
        split; [intros [?|?]; [congruence | assumption] | auto]. }
      rewrite Hin. destruct (features !! col) as [v|];
        [rewrite lookup_insert_ne by congruence|]; reflexivity.
Qed.

Lemma fold_left_map {A B C} (f : A -> C -> A) (g : B -> C) (l : list B) : forall a,
  fold_left (fun a i => f a (g i)) l a = fold_left f (map g l) a.
Proof. induction l as [|x l IH]; intros a; simpl; [reflexivity | apply IH]. Qed.

(** The names the three passes look for. *)
Definition extracted_columns : list string :=
  basic_columns ++
  map (fun i : Z => "pl" +:+ pretty i) (map Z.of_nat (seq 1 5)) ++
  map (fun i : Z => "freq_" +:+ pretty i) (Metrics.py_range 10).

Lemma extract_as_fold features :
  extract_statistical_metrics features =
  fold_left (extract_column features) extracted_columns ∅.
Proof.
  unfold extract_statistical_metrics, extracted_columns.
  rewrite !fold_left_app, <- !(fold_left_map (extract_column features)). reflexivity.
Qed.

Lemma extracted_are_required name :
  name ∈ extracted_columns <-> name ∈ get_required_metrics None.
Proof.
  assert (H1 : forallb (fun c => bool_decide (c ∈ get_required_metrics None))
                 extracted_columns = true) by (vm_compute; reflexivity).
  assert (H2 : forallb (fun c => bool_decide (c ∈ extracted_columns))
                 (get_required_metrics None) = true) by (vm_compute; reflexivity).
  rewrite forallb_forall in H1, H2. split; intros H.
  - apply list_elem_of_In, H1 in H. now apply bool_decide_eq_true in H.
  - apply list_elem_of_In, H2 in H. now apply bool_decide_eq_true in H.
Qed.

Lemma extract_lookup (features : gmap string Q) (name : string) :
  extract_statistical_metrics features !! name =
  if bool_decide (name ∈ get_required_metrics None) then features !! name else None.
Proof.
  rewrite extract_as_fold, extract_columns_lookup, lookup_empty.
  rewrite (bool_decide_ext _ _ (extracted_are_required name)).
  destruct (bool_decide _); [now destruct (features !! name) | reflexivity].
Qed.

(** A row of the table whose metric the extraction hands to the checker:
    one of the 27 names, and a column of the features. *)
Definition kept (features : gmap string Q) (row : BoundsEntry) : bool :=
  bool_decide (metric row ∈ get_required_metrics None) &&
  bool_decide (is_Some (features !! metric row)).

Lemma kept_lookup features row :
  kept features row = true <->
  is_Some (extract_statistical_metrics features !! metric row).
Proof.
  unfold kept. rewrite extract_lookup, andb_true_iff, !bool_decide_eq_true.
  destruct (bool_decide (metric row ∈ get_required_metrics None)) eqn:E.
  - apply bool_decide_eq_true in E. tauto.
  - apply bool_decide_eq_false in E. split; [tauto | intros [? ?]; discriminate].
Qed.

Lemma kept_tested features row :
  tested (extract_statistical_metrics features) row = kept features row.
Proof.
  unfold tested, is_missing.
  destruct (kept features row) eqn:E.
  - apply kept_lookup in E as [v ->]. reflexivity.
  - destruct (extract_statistical_metrics features !! metric row) as [v|] eqn:El;
      [|reflexivity].
    assert (H : kept features row = true) by (apply kept_lookup; rewrite El; eauto).
    congruence.
Qed.

(** The tested rows are those whose metric the record has. *)
Lemma tested_count tm bt cl r :
  check_sequence_randomness tm bt cl = Ok r ->
  total_metrics_tested r = length (List.filter (tested tm) bt).
Proof.
  intros H. pose proof (counts_as_filters _ _ _ _ H) as (Hw & Ho & _).
  apply check_Ok in H as (ls & _ & _ & _ & _ & Hwc & Hoc & _ & Ht & _).
  rewrite Ht, <- Hwc, <- Hoc, Hw, Ho.
  pose proof (outcomes_partition tm cl bt) as Hp.
  pose proof (List.filter_length (is_missing tm) bt) as Hf.
  unfold tested. lia.
Qed.

(** No transition feature bears one of the 27 names. *)
Lemma starts_with_step step from_digit to_digit :
  exists rest, feature_name step from_digit to_digit = String "s" rest.
Proof. unfold feature_name. eexists. reflexivity. Qed.

Lemma feature_name_not_required step from_digit to_digit :
  feature_name step from_digit to_digit ∉ get_required_metrics None.
Proof.
  destruct (starts_with_step step from_digit to_digit) as [rest ->].
  intros H. apply list_elem_of_In in H. simpl in H.
  repeat (destruct H as [H|H]; [discriminate H|]). exact H.
Qed.

Lemma required_NoDup : NoDup (get_required_metrics None).
Proof. apply (bool_decide_unpack _). vm_compute. exact I. Qed.

(** The extraction keeps the columns that bear one of the 27 names of the
    fallback list of [get_required_metrics], with their values, and drops
    every other column: the dict has at most 27 entries, and none of the
    transition features [step<s>_trans_<a>_to_<b>] is among them. *)
Theorem extraction_keeps_required_columns (features : gmap string Q) :
  (forall name,
     extract_statistical_metrics features !! name =
     if bool_decide (name ∈ get_required_metrics None) then features !! name else None) /\
  (size (extract_statistical_metrics features) <= 27)%nat /\
  (forall step from_digit to_digit,
     extract_statistical_metrics features !! feature_name step from_digit to_digit = None).
Proof.
  split; [apply extract_lookup|]. split.
  - rewrite <- size_dom.
    assert (Hsub : dom (extract_statistical_metrics features) ⊆
                   (list_to_set (get_required_metrics None) : gset string)).
    { intros name Hn. apply elem_of_dom in Hn. rewrite extract_lookup in Hn.
      apply elem_of_list_to_set.
      destruct (bool_decide (name ∈ get_required_metrics None)) eqn:E;
        [now apply bool_decide_eq_true in E | destruct Hn; discriminate]. }
    apply subseteq_size in Hsub.
    rewrite size_list_to_set in Hsub by apply required_NoDup. exact Hsub.
  - intros step from_digit to_digit. rewrite extract_lookup.
    rewrite bool_decide_eq_false_2; [reflexivity | apply feature_name_not_required].
Qed.

(** [classify] hands [extract_statistical_metrics(features)] to
    [check_sequence_randomness].  At the levels 95 and 99 the check
    returns as soon as no row of the table whose metric was extracted has
    a zero [expected_std].  In what it returns, the missing metrics are
    those of the rows whose metric is not one of the 27 names or not a
    column of the features, every other row is tested, and each entry of
    the two scored lists carries the value of the column of its name. *)
Theorem extracted_metrics_checked (features : gmap string Q) (bt : BoundsTable) cl :
  (valid_level cl ->
   Forall (fun row => kept features row = true -> ~ (expected_std row == 0)%Q) bt ->
   exists r, check_sequence_randomness (extract_statistical_metrics features) bt cl = Ok r) /\
  (forall r,
     check_sequence_randomness (extract_statistical_metrics features) bt cl = Ok r ->
     missing_metrics r = map metric (List.filter (fun row => negb (kept features row)) bt) /\
     total_metrics_tested r = length (List.filter (kept features) bt) /\
     Forall (fun e => features !! w_metric e = Some (w_value e)) (within_bounds r) /\
     Forall (fun e => features !! o_metric e = Some (o_value e)) (outliers r)).
Proof.
  split.
  - intros Hv Hstd. apply check_returns; [exact Hv|].
    apply Bool.not_true_iff_false. intros Hex.
    apply existsb_exists in Hex as (row & Hin & Hz).
    rewrite List.Forall_forall in Hstd. unfold zero_std in Hz.
    destruct (extract_statistical_metrics features !! metric row) as [v|] eqn:El;
      [|discriminate].
    apply Qeq_bool_iff in Hz. revert Hz. apply (Hstd row Hin).
    apply kept_lookup. rewrite El. eauto.
  - intros r Hr.
    pose proof (names_counts _ _ _ _ Hr) as (_ & _ & Hm).
    pose proof (tested_count _ _ _ _ Hr) as Ht.
    split; [|split; [|split]].
    + rewrite Hm. f_equal. apply List.filter_ext. intros row.
      rewrite <- kept_tested. unfold tested. now rewrite Bool.negb_involutive.
    + rewrite Ht. f_equal. apply List.filter_ext. intros row. apply kept_tested.
    + apply check_Ok in Hr as (ls & Hit & _ & -> & _).
      destruct (iterrows_from _ cl bt bt no_lists ls (fun _ H => H) Hit) as [Hw _];
        [constructor | constructor |].
      eapply List.Forall_impl; [|exact Hw].
      intros e (row & _ & <- & Hl & _). rewrite extract_lookup in Hl.
      now destruct (bool_decide _).
    + apply check_Ok in Hr as (ls & Hit & -> & _).
      destruct (iterrows_from _ cl bt bt no_lists ls (fun _ H => H) Hit) as [_ Ho];
        [constructor | constructor |].
      eapply List.Forall_impl; [|exact Ho].
      intros e (row & _ & <- & Hl & _). rewrite extract_lookup in Hl.
      now destruct (bool_decide _).
Qed.

Lemma extracted_metrics_checked_witness :
  exists r,
    check_sequence_randomness (extract_statistical_metrics record_with_extra) two_rows 95 =
    Ok r.
Proof.
  apply (proj1 (extracted_metrics_checked record_with_extra two_rows 95)).
  - left. reflexivity.
  - repeat constructor; intros _; discriminate.
Defined.

(** ** [calculate_statistical_range] *)

Definition z_score (confidence_level : Q) : Q :=
  if Qeq_bool confidence_level 0.99 then 2.58%Q else 1.96%Q.

(** The first row of the table that bears the name. *)
Definition first_row (metric_name : string) (bounds_df : BoundsTable) : option BoundsEntry :=
  List.find (fun row => String.eqb (metric row) metric_name) bounds_df.

Lemma filter_head {A} (f : A -> bool) (l : list A) :
  match List.filter f l with [] => None | x :: _ => Some x end = List.find f l.
Proof.
  induction l as [|x l IH]; simpl; [reflexivity|]. now destruct (f x).
Qed.

Lemma z_score_cases confidence_level :
  (if Qeq_bool confidence_level 0.95 then 1.96%Q
   else if Qeq_bool confidence_level 0.99 then 2.58%Q else 1.96%Q) =
  z_score confidence_level.
Proof.
  unfold z_score. destruct (Qeq_bool confidence_level 0.95) eqn:E95; [|reflexivity].
  destruct (Qeq_bool confidence_level 0.99) eqn:E99; [|reflexivity].
  apply Qeq_bool_iff in E95, E99. rewrite E95 in E99. discriminate E99.
Qed.

Lemma range_of_first_row metric_name bounds_df confidence_level :
  calculate_statistical_range metric_name (Some bounds_df) confidence_level =
  match first_row metric_name bounds_df with
  | None => {| lower := None; upper := None; mean := None |}
  | Some row =>
      if existsb (String.eqb metric_name) non_normal_metrics then
        {| lower := Some (expected_mean row); upper := Some (expected_mean row);
           mean := Some (expected_mean row) |}
      else
        {| lower := Some (expected_mean row - z_score confidence_level * expected_std row)%Q;
           upper := Some (expected_mean row + z_score confidence_level * expected_std row)%Q;
           mean := Some (expected_mean row) |}
  end.
Proof.
  unfold calculate_statistical_range, first_row.
  rewrite <- filter_head, z_score_cases.
  destruct (List.filter _ bounds_df); reflexivity.
Qed.

(** Only the level 0.99 widens the range: every other level, 95 and 99
    among them, gives the range of 0.95.  Without a table, or without a
    row for the metric, the three values are [None]. *)
Theorem statistical_range_levels metric_name bounds_df confidence_level :
  (~ (confidence_level == 0.99)%Q ->
     calculate_statistical_range metric_name bounds_df confidence_level =
     calculate_statistical_range metric_name bounds_df 0.95) /\
  (match bounds_df with
   | None => True
   | Some rows => Forall (fun row => metric row <> metric_name) rows
   end ->
     calculate_statistical_range metric_name bounds_df confidence_level =
     {| lower := None; upper := None; mean := None |}).
Proof.
  split.
  - intros Hl. destruct bounds_df as [rows|]; [|reflexivity].
    rewrite !range_of_first_row. unfold z_score.
    destruct (Qeq_bool confidence_level 0.99) eqn:E; [|reflexivity].
    apply Qeq_bool_iff in E. contradiction.
  - destruct bounds_df as [rows|]; [|reflexivity]. intros Hrows.
    rewrite range_of_first_row.
    destruct (first_row metric_name rows) as [row|] eqn:E; [|reflexivity].
    apply find_some in E as [Hin Heq]. apply String.eqb_eq in Heq.
    rewrite List.Forall_forall in Hrows. now destruct (Hrows row Hin).
Qed.

Lemma statistical_range_levels_witness :
  calculate_statistical_range "redundancy" (Some two_rows) 99 =
  calculate_statistical_range "redundancy" (Some two_rows) 0.95.
Proof.
  apply (proj1 (statistical_range_levels "redundancy" (Some two_rows) 99)).
  vm_compute. discriminate.
Defined.

(** The range of a metric the table has is built on the first row that
    bears its name: the mean is [expected_mean]; when [expected_std] is
    not negative the bounds are in order around the mean and lie within
    the bounds that the level 0.99 gives; for [pl3], [pl4], [pl5] and
    [max_min_ratio] both bounds are the mean. *)
Theorem statistical_range_ordered metric_name bounds_df confidence_level row :
  first_row metric_name bounds_df = Some row ->
  (0 <= expected_std row)%Q ->
  exists lo hi lo99 hi99,
    calculate_statistical_range metric_name (Some bounds_df) confidence_level =
      {| lower := Some lo; upper := Some hi; mean := Some (expected_mean row) |} /\
    calculate_statistical_range metric_name (Some bounds_df) 0.99 =
      {| lower := Some lo99; upper := Some hi99; mean := Some (expected_mean row) |} /\
    (lo99 <= lo)%Q /\ (lo <= expected_mean row <= hi)%Q /\ (hi <= hi99)%Q /\
    (In metric_name non_normal_metrics ->
       lo = expected_mean row /\ hi = expected_mean row).
Proof.
  intros Hrow Hstd. rewrite !range_of_first_row, Hrow.
  destruct (existsb (String.eqb metric_name) non_normal_metrics) eqn:E.
  - exists (expected_mean row), (expected_mean row), (expected_mean row), (expected_mean row).
    repeat split; auto; apply Qle_refl.
  - eexists _, _, _, _. split; [reflexivity|]. split; [reflexivity|].
    assert (Hz : (0 <= z_score confidence_level <= z_score 0.99)%Q).
    { unfold z_score. simpl. destruct (Qeq_bool confidence_level 0.99); split; discriminate. }
    assert (Hm : (0 <= z_score confidence_level * expected_std row)%Q)
      by (apply Qmult_le_0_compat; [apply Hz | exact Hstd]).
    assert (Hm' : (z_score confidence_level * expected_std row <=
                   z_score 0.99 * expected_std row)%Q)
      by (apply Qmult_le_compat_r; [apply Hz | exact Hstd]).
    split; [lra|]. split; [lra|]. split; [lra|].
    intros Hin. exfalso. apply Bool.not_true_iff_false in E. apply E.
    apply existsb_exists. exists metric_name. split; [exact Hin | apply String.eqb_refl].
Qed.

Lemma statistical_range_ordered_witness :
  exists lo hi lo99 hi99,
    calculate_statistical_range "coupon_mean" (Some two_rows) 0.95 =
      {| lower := Some lo; upper := Some hi; mean := Some 29%Q |} /\
    calculate_statistical_range "coupon_mean" (Some two_rows) 0.99 =
      {| lower := Some lo99; upper := Some hi99; mean := Some 29%Q |} /\
    (lo99 <= lo)%Q /\ (lo <= 29 <= hi)%Q /\ (hi <= hi99)%Q.
Proof.
  destruct (statistical_range_ordered "coupon_mean" two_rows 0.95 coupon_mean_row)
    as (lo & hi & lo99 & hi99 & Hr & Hr99 & Hlo & Hle & Hhi & _).
  - reflexivity.
  - discriminate.
  - exists lo, hi, lo99, hi99. repeat split; try assumption; apply Hle.
Defined.

End ServerMetricsFacts.

(** * The transition features: properties *)

Module FeaturesFacts.
Import Transition TransitionFacts TransitionMore Features.

(** ** The names of the features *)

Lemma append_cons (c : ascii) (s t : string) :
  String c s +:+ t = String c (s +:+ t).
Proof. reflexivity. Qed.

Lemma append_nil (t : string) : "" +:+ t = t.
Proof. reflexivity. Qed.

Lemma length_append (s t : string) :
  String.length (s +:+ t) = (String.length s + String.length t)%nat.
Proof.
  induction s as [|c s IH]; [reflexivity|].
  rewrite append_cons. simpl. now rewrite IH.
Qed.

Lemma append_inj_suffix (s1 : string) : forall s2 t1 t2,
  String.length t1 = String.length t2 ->
  s1 +:+ t1 = s2 +:+ t2 -> s1 = s2 /\ t1 = t2.
Proof.
  induction s1 as [|c s1 IH]; intros [|c' s2] t1 t2 Hlen H;
    rewrite ?append_cons, ?append_nil in H.
  - auto.
  - subst t1. simpl in Hlen. rewrite length_append in Hlen. lia.
  - subst t2. simpl in Hlen. rewrite length_append in Hlen. lia.
  - injection H as -> H. destruct (IH _ _ _ Hlen H) as [-> ->]. auto.
Qed.

Lemma pretty_digit (a : nat) :
  (a < 10)%nat -> pretty a = String (pretty_N_char (N.of_nat a)) "".
Proof.
  intros Ha. do 10 (destruct a as [|a]; [reflexivity|]). lia.
Qed.

Lemma digit_inj (a b : nat) :
  (a < 10)%nat -> (b < 10)%nat ->
  pretty_N_char (N.of_nat a) = pretty_N_char (N.of_nat b) -> a = b.
Proof.
  intros Ha Hb H. apply pretty_N_char_inj in H; lia.
Qed.

(** Two features bear the same name only if they are the same cell of the
    same step. *)
Lemma feature_name_inj step step' a a' b b' :
  (a < 10)%nat -> (b < 10)%nat -> (a' < 10)%nat -> (b' < 10)%nat ->
  feature_name step a b = feature_name step' a' b' ->
  step = step' /\ a = a' /\ b = b'.
Proof.
  intros Ha Hb Ha' Hb'. unfold feature_name.
  rewrite (pretty_digit a Ha), (pretty_digit b Hb),
          (pretty_digit a' Ha'), (pretty_digit b' Hb').
  intros H. rewrite !append_cons, !append_nil in H. injection H as H.
  apply append_inj_suffix in H as [Hs Ht]; [|reflexivity].
  apply pretty_nat_inj in Hs. injection Ht as Hca Hcb.
  apply digit_inj in Hca, Hcb; auto.
Qed.

(** ** The shape of the matrix *)

Lemma matrix_shape uninit sequence step base m :
  calculate_transition_matrix uninit sequence step base = Ok m ->
  length m = base /\ Forall (fun row => length row = base) m.
Proof.
  unfold calculate_transition_matrix. unfold_res.
  destruct (count_transitions sequence step base) as [t|] eqn:Ht; [|discriminate].
  intros [= <-]. destruct (count_transitions_ok _ _ _ _ Ht) as [Hlen Hrows].
  unfold np_divide_where. split; [now rewrite length_map, length_imap|].
  apply List.Forall_map. apply Forall_lookup_2. intros i row Hi.
  rewrite list_lookup_imap in Hi.
  destruct (t !! i) as [crow|] eqn:Hc; [|discriminate]. injection Hi as <-.
  pose proof (Forall_lookup_1 _ _ _ _ Hrows Hc) as [Hl _].
  unfold divide_row. now rewrite length_map, length_imap.
Qed.

Lemma np_get_in_shape (m : list (list npfloat)) base a b :
  length m = base -> Forall (fun row => length row = base) m ->
  (a < base)%nat -> (b < base)%nat ->
  exists x, np_get m a b = Ok x.
Proof.
  intros Hlen Hrows Ha Hb. unfold np_get.
  destruct (lookup_lt_is_Some_2 m a ltac:(lia)) as [row Hrow]. rewrite Hrow.
  pose proof (Forall_lookup_1 _ _ _ _ Hrows Hrow) as Hl. simpl in Hl.
  destruct (lookup_lt_is_Some_2 row b ltac:(lia)) as [x Hx]. rewrite Hx. eauto.
Qed.

(** ** The loops *)

Definition small (p : nat * nat) : Prop := (fst p < 10)%nat /\ (snd p < 10)%nat.

Lemma features_of_matrix_spec step m pairs : forall features,
  length m = 10%nat -> Forall (fun row => length row = 10%nat) m ->
  Forall small pairs -> List.NoDup pairs ->
  exists features',
    features_of_matrix step m pairs features = Ok features' /\
    (forall a b, In (a, b) pairs ->
       exists x, np_get m a b = Ok x /\
                 features' !! feature_name step a b = Some x) /\
    (forall k, (forall a b, In (a, b) pairs -> k <> feature_name step a b) ->
       features' !! k = features !! k).
Proof.
  intros features Hlen Hrows. revert features.
  induction pairs as [|[a b] rest IH]; intros features Hsmall Hnd;
    cbn [features_of_matrix].
  - exists features. split; [reflexivity|]. split; [intros ? ? []|reflexivity].
  - apply Forall_cons in Hsmall as [[Ha Hb] Hsmall]. simpl in Ha, Hb.
    apply List.NoDup_cons_iff in Hnd as [Hnew Hnd].
    destruct (np_get_in_shape m 10 a b Hlen Hrows Ha Hb) as [x Hx].
    rewrite Hx. unfold_res.
    destruct (IH (<[feature_name step a b := x]> features) Hsmall Hnd)
      as (features' & Hf & Hin & Hout).
    exists features'. split; [exact Hf|]. split.
    + intros a' b' [[= <- <-] | Hrest]; [|now apply Hin].
      exists x. split; [exact Hx|]. rewrite Hout; [apply lookup_insert_eq|].
      intros a' b' Hrest E.
      rewrite List.Forall_forall in Hsmall. destruct (Hsmall _ Hrest) as [Ha' Hb'].
      apply feature_name_inj in E as (_ & <- & <-); auto.
    + intros k Hk. rewrite Hout by (intros a' b' Hrest; apply Hk; now right).
      apply lookup_insert_ne. intros E. now apply (Hk a b); [left|].
Qed.

Lemma digit_pairs_small : Forall small digit_pairs.
Proof.
  apply List.Forall_forall. intros [a b] H. apply in_prod_iff in H as [Ha Hb].
  apply in_seq in Ha, Hb. split; simpl; lia.
Qed.

Lemma NoDup_list_prod {A B} (l : list A) (l' : list B) :
  List.NoDup l -> List.NoDup l' -> List.NoDup (list_prod l l').
Proof.
  intros Hl Hl'. induction Hl as [|x l Hx Hl IH]; simpl; [constructor|].
  apply List.NoDup_app; [| exact IH |].
  - apply Finite.Injective_map_NoDup; [|exact Hl']. now intros b b' [= ->].
  - intros [a b] Hab Hin.
    apply in_map_iff in Hab as (b0 & [= <- <-] & _).
    apply in_prod_iff in Hin as [Hin _]. contradiction.
Qed.

Lemma digit_pairs_NoDup : List.NoDup digit_pairs.
Proof. apply NoDup_list_prod; apply seq_NoDup. Qed.

Lemma in_digit_pairs a b : (a < 10)%nat -> (b < 10)%nat -> In (a, b) digit_pairs.
Proof. intros Ha Hb. apply in_prod_iff. split; apply in_seq; lia. Qed.

Lemma steps_loop_spec memory sequence steps : forall features,
  alphabet 10 sequence -> List.NoDup steps ->
  exists features',
    steps_loop memory sequence steps features = Ok features' /\
    (forall step a b, In step steps -> (a < 10)%nat -> (b < 10)%nat ->
       exists m x,
         calculate_transition_matrix (memory step) sequence step 10 = Ok m /\
         np_get m a b = Ok x /\
         features' !! feature_name step a b = Some x) /\
    (forall k, (forall step a b, In step steps -> (a < 10)%nat -> (b < 10)%nat ->
                  k <> feature_name step a b) ->
       features' !! k = features !! k).
Proof.
  induction steps as [|step rest IH]; intros features Ha Hnd; cbn [steps_loop].
  - exists features. split; [reflexivity|]. split; [intros ? ? ? []|reflexivity].
  - apply List.NoDup_cons_iff in Hnd as [Hnew Hnd].
    destruct (calculate_transition_matrix_returns (memory step) sequence step 10 Ha)
      as [m Hm].
    rewrite Hm. unfold_res. destruct (matrix_shape _ _ _ _ _ Hm) as [Hlen Hrows].
    destruct (features_of_matrix_spec step m digit_pairs features Hlen Hrows
                digit_pairs_small digit_pairs_NoDup) as (f1 & Hf1 & Hin1 & Hout1).
    rewrite Hf1.
    destruct (IH f1 Ha Hnd) as (features' & Hf & Hin & Hout).
    exists features'. split; [exact Hf|]. split.
    + intros s a b [<- | Hs] Hlta Hltb; [|now apply Hin].
      destruct (Hin1 a b (in_digit_pairs a b Hlta Hltb)) as (x & Hx & Hl).
      exists m, x. split; [exact Hm|]. split; [exact Hx|].
      rewrite Hout; [exact Hl|].
      intros s' a' b' Hs' Ha' Hb' E.
      apply feature_name_inj in E as (<- & _); auto.
    + intros k Hk. rewrite Hout by (intros s a b Hs; apply Hk; now right).
      apply Hout1. intros a b Hab. destruct (List.Forall_forall small digit_pairs) as [Hsm _].
      destruct (Hsm digit_pairs_small _ Hab) as [Hlta Hltb]. apply Hk; auto. now left.
Qed.

(** On a sequence of digits the call returns: the feature
    [step{s}_trans_{a}_to_{b}] is the cell [[a, b]] of the matrix of step
    [s], for every step from 1 to [max_step] and all digits [a] and [b];
    no feature has another name; and two of these names are equal only
    for the same step and the same cell, so no feature overwrites
    another. *)
Theorem transition_features_are_cells memory sequence max_step :
  alphabet 10 sequence ->
  exists features,
    calculate_transition_features memory sequence max_step = Ok features /\
    (forall step a b,
       (1 <= step <= Z.to_nat max_step)%nat -> (a < 10)%nat -> (b < 10)%nat ->
       exists m x,
         calculate_transition_matrix (memory step) sequence step 10 = Ok m /\
         np_get m a b = Ok x /\
         features !! feature_name step a b = Some x) /\
    (forall k,
       (forall step a b,
          (1 <= step <= Z.to_nat max_step)%nat -> (a < 10)%nat -> (b < 10)%nat ->
          k <> feature_name step a b) ->
       features !! k = None) /\
    (forall step step' a a' b b',
       (a < 10)%nat -> (b < 10)%nat -> (a' < 10)%nat -> (b' < 10)%nat ->
       feature_name step a b = feature_name step' a' b' ->
       step = step' /\ a = a' /\ b = b').
Proof.
  intros Ha. unfold calculate_transition_features.
  destruct (steps_loop_spec memory sequence (seq 1 (Z.to_nat max_step)) ∅ Ha
              (seq_NoDup _ _)) as (features & Hf & Hin & Hout).
  exists features. split; [exact Hf|]. split; [|split].
  - intros step a b Hs. apply Hin, in_seq. lia.
  - intros k Hk. rewrite Hout; [apply lookup_empty|].
    intros step a b Hs. apply Hk. apply in_seq in Hs. lia.
  - intros. now apply feature_name_inj.
Qed.

Lemma transition_features_are_cells_witness :
  exists features x,
    calculate_transition_features (fun _ _ _ => NaN) [0; 1; 0; 1; 1]%Z 5 = Ok features /\
    features !! "step2_trans_0_to_1" = Some x.
Proof.
  destruct (transition_features_are_cells (fun _ _ _ => NaN) [0; 1; 0; 1; 1]%Z 5)
    as (features & Hf & Hcells & _).
  - repeat constructor; lia.
  - destruct (Hcells 2%nat 0%nat 1%nat) as (m & x & _ & _ & Hx); [simpl; lia | lia | lia |].
    exists features, x. split; [exact Hf | exact Hx].
Defined.

End FeaturesFacts.
